(** * RingSocket: TCP layer and app-side send helpers

    A shallow embedding of [rs_tcp.c], of the inline helpers of
    [ringsocket_app_helper.h] and of the macros of [ringsocket_api.h] they
    use, followed by the properties of the specification that concern
    them.

    Conventions.
    - C integers are [Z]; every place where the C code computes in a fixed
      width, the reduction modulo that width is written out ([to_size_t],
      [to_uint32], ...).
    - Memory is a list of bytes, each byte a [Z] in [0, 256).
    - What the operating system answers to a system call is an argument of
      the function that issues the call; what the call changes (errno, the
      bytes taken by the socket, the order of the calls) is recorded in a
      [world].
    - Functions of the repository that are declared in headers outside the
      embedded files are fields of a [platform] record. *)

From Stdlib Require Import ZArith List Bool Lia.
Import ListNotations.
Local Open Scope Z_scope.

(* ================================================================== *)
(** * Part I: the model                                                *)
(* ================================================================== *)

(** ** Machine integers *)

Definition byte := Z.

Definition UINT16_MAX : Z := 65535.
Definition SIZE_MAX : Z := 2 ^ 64 - 1.
(** [long] and [time_t] on 64-bit Linux. *)
Definition LONG_MAX : Z := 2 ^ 63 - 1.

Definition to_uint8 (v : Z) : Z := v mod 2 ^ 8.
Definition to_uint16 (v : Z) : Z := v mod 2 ^ 16.
Definition to_uint32 (v : Z) : Z := v mod 2 ^ 32.
Definition to_uint64 (v : Z) : Z := v mod 2 ^ 64.
Definition to_size_t (v : Z) : Z := v mod 2 ^ 64.

(** ** Byte order

    The [w] bytes of an unsigned integer, least significant first and
    most significant first, and the way back. *)

Fixpoint le_bytes (w : nat) (v : Z) : list byte :=
  match w with
  | O => []
  | S w' => v mod 256 :: le_bytes w' (v / 256)
  end.

Fixpoint le_value (bs : list byte) : Z :=
  match bs with
  | [] => 0
  | b :: rest => b + 256 * le_value rest
  end.

Definition be_bytes (w : nat) (v : Z) : list byte := rev (le_bytes w v).
Definition be_value (bs : list byte) : Z := le_value (rev bs).

(** [__builtin_bswap16/32/64]: the same bytes in the opposite order. *)
Definition bswap (w : nat) (v : Z) : Z := le_value (rev (le_bytes w v)).

(** ** [ringsocket_api.h] *)

Inductive rs_ret : Type :=
| RS_OK
| RS_CLOSE_PEER
| RS_FATAL
| RS_AGAIN.

(** [RS_GUARD(call)]: a result other than [RS_OK] is returned to the
    caller at once, with the state the callee left. *)
Definition RS_GUARD {S A : Type} (call : rs_ret * S)
    (fail : rs_ret -> S -> A) (next : S -> A) : A :=
  match call with
  | (RS_OK, s) => next s
  | (r, s) => fail r s
  end.

Section ByteOrder.

(** [RS_IS_LITTLE_ENDIAN] is [*((uint8_t * ) (uint32_t []){1})]: the byte
    order of the host, a fact of the machine the code runs on. *)
Variable RS_IS_LITTLE_ENDIAN : bool.

(** [*((uintN_t * ) ptr) = v]: the bytes a store of a [w]-byte unsigned
    integer puts in memory. *)
Definition store_uint (w : nat) (v : Z) : list byte :=
  if RS_IS_LITTLE_ENDIAN then le_bytes w v else be_bytes w v.

(** [*((uintN_t * ) ptr)]: the value a load reads from the bytes. *)
Definition load_uint (bs : list byte) : Z :=
  if RS_IS_LITTLE_ENDIAN then le_value bs else be_value bs.

Definition RS_NTOH (w : nat) (v : Z) : Z :=
  if RS_IS_LITTLE_ENDIAN then bswap w v else v.
Definition RS_HTON (w : nat) (v : Z) : Z := RS_NTOH w v.

(** [RS_W_HTON16/32/64(ptr, v)]: the argument is converted to the
    [w]-byte unsigned type by the builtin (or by the store), then
    stored. *)
Definition RS_W_HTON (w : nat) (v : Z) : list byte :=
  store_uint w (RS_HTON w (v mod 2 ^ (8 * Z.of_nat w))).

End ByteOrder.

(** ** The operating system, as [rs_tcp.c] sees it *)

(** System calls, in the order they are issued. *)
Inductive syscall : Type :=
| Sys_read (fd count : Z)
| Sys_write (fd : Z) (data : list Z) (count : Z)
| Sys_shutdown_wr (fd : Z)
| Sys_close (fd : Z).

(** syslog priorities used by [RS_LOG] and [RS_LOG_ERRNO]. *)
Inductive log_level : Type :=
| LOG_ALERT
| LOG_CRIT
| LOG_ERR
| LOG_WARNING
| LOG_NOTICE
| LOG_DEBUG.

(** Their values, Linux [sys/syslog.h]: a lower value is more severe. *)
Definition priority (lvl : log_level) : Z :=
  match lvl with
  | LOG_ALERT => 1
  | LOG_CRIT => 2
  | LOG_ERR => 3
  | LOG_WARNING => 4
  | LOG_NOTICE => 5
  | LOG_DEBUG => 7
  end.

(** What the kernel answers to one call: the value returned, and the
    errno it leaves when that value is -1. *)
Record answer : Type := { ret : Z; err : Z }.

Record world : Type := {
  errno : Z;
  wire_out : list byte;      (* bytes write() has taken, oldest first *)
  calls : list syscall;      (* system calls issued, oldest first *)
  logs : list log_level;     (* lines passed to syslog(), oldest first *)
  free_slots : list Z;       (* the worker's list of free peer slots *)
  _rs_log_max : Z            (* the run-time log level *)
}.

(** Linux, [asm-generic/errno-base.h]. *)
Definition EAGAIN : Z := 11.

Definition with_errno (e : Z) (w : world) : world :=
  {| errno := e; wire_out := wire_out w; calls := calls w;
     logs := logs w; free_slots := free_slots w;
     _rs_log_max := _rs_log_max w |}.

(** [RS_LOG(lvl, ...)] and [RS_LOG_ERRNO(lvl, ...)], through
    [_RS_SYSLOG]: [if ((lvl) <= _rs_log_max) syslog((lvl), ...)]. The
    text of the line is not represented. *)
Definition RS_LOG (lvl : log_level) (w : world) : world :=
  {| errno := errno w; wire_out := wire_out w; calls := calls w;
     logs := if priority lvl <=? _rs_log_max w then logs w ++ [lvl]
             else logs w;
     free_slots := free_slots w; _rs_log_max := _rs_log_max w |}.

(** A system call is recorded, and sets errno when it fails. *)
Definition sys_call (c : syscall) (a : answer) (w : world) : world :=
  {| errno := if ret a =? -1 then err a else errno w;
     wire_out := wire_out w; calls := calls w ++ [c];
     logs := logs w; free_slots := free_slots w;
     _rs_log_max := _rs_log_max w |}.

(** [write(fd, data, count)]: when the kernel answers [r > 0] it has
    taken the first [r] bytes of [data]. *)
Definition sys_write (fd : Z) (data : list byte) (count : Z) (a : answer)
    (w : world) : world :=
  let w' := sys_call (Sys_write fd data count) a w in
  {| errno := errno w';
     wire_out := if 0 <? ret a
                 then wire_out w ++ firstn (Z.to_nat (ret a)) data
                 else wire_out w;
     calls := calls w'; logs := logs w'; free_slots := free_slots w';
     _rs_log_max := _rs_log_max w' |}.

(** Modelled from the spec: [free_peer_slot] of rs_socket.c, which is not
    among the embedded files; the slot is returned to the per-worker free
    list. *)
Definition free_peer_slot (peer_i : Z) (w : world) : world :=
  {| errno := errno w; wire_out := wire_out w; calls := calls w;
     logs := logs w; free_slots := peer_i :: free_slots w;
     _rs_log_max := _rs_log_max w |}.

(** ** Peers *)

Inductive rs_layer : Type :=
| RS_LAYER_TCP
| RS_LAYER_TLS
| RS_LAYER_HTTP
| RS_LAYER_WS.

Inductive rs_mortality : Type :=
| RS_MORTALITY_LIVE
| RS_MORTALITY_SHUTDOWN_WRITE
| RS_MORTALITY_SHUTDOWN_READ
| RS_MORTALITY_DEAD.

(** Modelled from the spec: [union rs_peer] is declared in a header that
    is not among the embedded files; these are the attributes of a peer
    the specification lists and [rs_tcp.c] reads or writes. *)
Record rs_peer : Type := {
  socket_fd : Z;
  is_encrypted : bool;
  layer : rs_layer;
  mortality : rs_mortality;
  is_writing : bool;
  old_wsize : Z
}.

(** [memset(peer, 0, sizeof(union rs_peer))]. *)
Definition zero_peer : rs_peer :=
  {| socket_fd := 0; is_encrypted := false; layer := RS_LAYER_TCP;
     mortality := RS_MORTALITY_LIVE; is_writing := false; old_wsize := 0 |}.

Definition set_layer (l : rs_layer) (p : rs_peer) : rs_peer :=
  {| socket_fd := socket_fd p; is_encrypted := is_encrypted p; layer := l;
     mortality := mortality p; is_writing := is_writing p;
     old_wsize := old_wsize p |}.

Definition set_mortality (m : rs_mortality) (p : rs_peer) : rs_peer :=
  {| socket_fd := socket_fd p; is_encrypted := is_encrypted p;
     layer := layer p; mortality := m; is_writing := is_writing p;
     old_wsize := old_wsize p |}.

Definition set_is_writing (b : bool) (p : rs_peer) : rs_peer :=
  {| socket_fd := socket_fd p; is_encrypted := is_encrypted p;
     layer := layer p; mortality := mortality p; is_writing := b;
     old_wsize := old_wsize p |}.

Definition set_old_wsize (v : Z) (p : rs_peer) : rs_peer :=
  {| socket_fd := socket_fd p; is_encrypted := is_encrypted p;
     layer := layer p; mortality := mortality p;
     is_writing := is_writing p; old_wsize := v |}.

(** ** [rs_tcp.c] *)

(** [read_tcp]: the result, the peer, [*rsize] and the world. The bytes
    read() leaves in [rbuf] play no part in what the function decides and
    are not represented. *)
Definition read_tcp (a : answer) (w : world) (peer : rs_peer)
    (rbuf_size : Z) : rs_ret * (rs_peer * Z * world) :=
  let w := sys_call (Sys_read (socket_fd peer) rbuf_size) a w in
  if 0 <? ret a then
    (RS_OK, (peer, ret a, w))
  else
    let rsize := 0 in
    if ret a =? 0 then
      (RS_CLOSE_PEER, (peer, rsize, RS_LOG LOG_NOTICE w))
    else if errno w =? EAGAIN then
      (RS_AGAIN, (set_is_writing false peer, rsize, w))
    else
      (RS_CLOSE_PEER, (peer, rsize, RS_LOG LOG_ERR w)).

(** [write_tcp]. The condition of the second [if] is the assignment
    [errno = EAGAIN]: errno becomes [EAGAIN] and the branch is taken when
    the assigned value is not zero. *)
Definition write_tcp (a : answer) (w : world) (peer : rs_peer)
    (wbuf : list byte) (wbuf_size : Z) : rs_ret * (rs_peer * world) :=
  let remaining_wsize := to_size_t (wbuf_size - old_wsize peer) in
  let data := firstn (Z.to_nat remaining_wsize)
                (skipn (Z.to_nat (old_wsize peer)) wbuf) in
  let w := sys_write (socket_fd peer) data remaining_wsize a w in
  if 0 <? ret a then
    let wsize := to_size_t (ret a) in
    if wsize =? remaining_wsize then
      (RS_OK, (set_old_wsize 0 peer, w))
    else
      (RS_AGAIN,
       (set_is_writing true
          (set_old_wsize (to_size_t (old_wsize peer + wsize)) peer), w))
  else
    let w := with_errno EAGAIN w in
    if negb (errno w =? 0) then
      (RS_AGAIN, (set_is_writing true peer, w))
    else
      (RS_CLOSE_PEER, (peer, RS_LOG LOG_ERR w)).

Definition write_bidirectional_tcp_shutdown (a : answer) (w : world)
    (peer : rs_peer) : rs_ret * (rs_peer * world) :=
  let w := sys_call (Sys_shutdown_wr (socket_fd peer)) a w in
  if ret a =? -1 then
    (RS_FATAL, (peer, RS_LOG LOG_CRIT w))
  else
    (RS_OK, (set_mortality RS_MORTALITY_SHUTDOWN_READ peer, w)).

(** How the incoming side of a non-blocking socket ends once the bytes
    that are pending have been read: read() returns 0, or -1 with an
    errno. *)
Inductive read_end : Type :=
| Read_zero
| Read_fails (e : Z).

Definition end_answer (e : read_end) : answer :=
  match e with
  | Read_zero => {| ret := 0; err := 0 |}
  | Read_fails e => {| ret := -1; err := e |}
  end.

(** The [do { rsize = read(...); RS_LOG(LOG_DEBUG, ...); } while (rsize > 0)]
    loop: one read and one [RS_LOG] per pending chunk, then the read that
    ends the loop. Its value is the last [rsize]. *)
Fixpoint drain_reads (fd rbuf_size : Z) (pending : list positive)
    (last : read_end) (w : world) : Z * world :=
  match pending with
  | c :: rest =>
      drain_reads fd rbuf_size rest last
        (RS_LOG LOG_DEBUG
           (sys_call (Sys_read fd rbuf_size) {| ret := Zpos c; err := 0 |} w))
  | [] =>
      (ret (end_answer last),
       RS_LOG LOG_DEBUG
         (sys_call (Sys_read fd rbuf_size) (end_answer last) w))
  end.

Definition read_bidirectional_tcp_shutdown (pending : list positive)
    (last : read_end) (w : world) (peer : rs_peer) (rbuf_size : Z)
    : rs_ret * (rs_peer * world) :=
  let '(rsize, w) := drain_reads (socket_fd peer) rbuf_size pending last w in
  if rsize =? 0 then
    (RS_CLOSE_PEER, (set_mortality RS_MORTALITY_DEAD peer, w))
  else if errno w =? EAGAIN then
    (RS_AGAIN, (set_is_writing false peer, w))
  else
    (RS_CLOSE_PEER,
     (set_mortality RS_MORTALITY_DEAD peer, RS_LOG LOG_WARNING w)).

(** The kernel's answers during one call of [handle_tcp_io]. *)
Record tcp_answers : Type := {
  k_shutdown : answer;
  k_pending : list positive;
  k_last : read_end;
  k_close : answer
}.

(** How control leaves the [switch] of [handle_tcp_io]: through one of
    its [return] statements, or through a [break] to the code after it. *)
Inductive switch_exit : Type :=
| Returned (r : rs_ret)
| Broke.

Section HandleTcpIo.

(** [init_tls_session] of rs_tls.c, which is not among the embedded
    files: a result and what it leaves in the peer. *)
Variable init_tls_session : rs_peer -> rs_ret * rs_peer.

(** [case RS_MORTALITY_SHUTDOWN_READ] of the switch. *)
Definition shutdown_read_case (k : tcp_answers) (w : world)
    (peer : rs_peer) (rbuf_size : Z) : switch_exit * (rs_peer * world) :=
  match read_bidirectional_tcp_shutdown (k_pending k) (k_last k) w peer
          rbuf_size with
  | (RS_AGAIN, s) => (Returned RS_OK, s)
  | (RS_FATAL, s) => (Returned RS_FATAL, s)
  | (_, s) => (Broke, s)
  end.

(** The [switch (peer->mortality)] of [handle_tcp_io]. *)
Definition mortality_switch (k : tcp_answers) (w : world) (peer : rs_peer)
    (rbuf_size : Z) : switch_exit * (rs_peer * world) :=
  match mortality peer with
  | RS_MORTALITY_LIVE =>
      if is_encrypted peer then
        RS_GUARD (init_tls_session (set_layer RS_LAYER_TLS peer))
          (fun r peer => (Returned r, (peer, w)))
          (fun peer => (Returned RS_OK, (peer, w)))
      else
        (Returned RS_OK, (set_layer RS_LAYER_HTTP peer, w))
  | RS_MORTALITY_SHUTDOWN_WRITE =>
      RS_GUARD (write_bidirectional_tcp_shutdown (k_shutdown k) w peer)
        (fun r s => (Returned r, s))
        (fun s => shutdown_read_case k (snd s) (fst s) rbuf_size)
  | RS_MORTALITY_SHUTDOWN_READ =>
      shutdown_read_case k w peer rbuf_size
  | RS_MORTALITY_DEAD =>
      (Broke, (peer, w))
  end.

(** The code after the switch: close the socket, zero the slot, free
    it. *)
Definition close_and_free (a : answer) (w : world) (peer : rs_peer)
    (peer_i : Z) : rs_ret * (rs_peer * world) :=
  let w := sys_call (Sys_close (socket_fd peer)) a w in
  let w := if ret a =? -1 then RS_LOG LOG_ERR w else w in
  let peer := zero_peer in
  (RS_OK, (peer, free_peer_slot peer_i w)).

Definition handle_tcp_io (k : tcp_answers) (w : world) (peer : rs_peer)
    (rbuf_size peer_i : Z) : rs_ret * (rs_peer * world) :=
  match mortality_switch k w peer rbuf_size with
  | (Returned r, s) => (r, s)
  | (Broke, (peer, w)) => close_and_free (k_close k) w peer peer_i
  end.

End HandleTcpIo.

(** ** The app thread, as [ringsocket_app_helper.h] sees it *)

(** Modelled from the spec: [enum rs_outbound_kind] is declared in a
    header that is not among the embedded files; the kinds are those of
    the outbound message record, numbered in the order the specification
    lists them. *)
Inductive rs_outbound_kind : Type :=
| RS_OUTBOUND_SINGLE
| RS_OUTBOUND_ARRAY
| RS_OUTBOUND_EVERY
| RS_OUTBOUND_EVERY_EXCEPT_SINGLE
| RS_OUTBOUND_EVERY_EXCEPT_ARRAY.

Definition kind_code (k : rs_outbound_kind) : Z :=
  match k with
  | RS_OUTBOUND_SINGLE => 0
  | RS_OUTBOUND_ARRAY => 1
  | RS_OUTBOUND_EVERY => 2
  | RS_OUTBOUND_EVERY_EXCEPT_SINGLE => 3
  | RS_OUTBOUND_EVERY_EXCEPT_ARRAY => 4
  end.

(** The fields of [struct rs_conf] the helpers read. The struct is
    declared in ringsocket_conf.h, which is not among the embedded files;
    [realloc_multiplier] is taken as an unsigned integer. *)
Record rs_conf : Type := {
  max_ws_msg_size : Z;
  realloc_multiplier : Z;
  worker_c : Z
}.

(** An outbound ring is represented by the bytes stored through
    [ring->writer], oldest first: [*ring->writer++ = b] appends [b]. *)
Definition rs_ring := list byte.

(** The fields of [struct rs] the helpers read or write. [wbuf] is
    [*n->wbuf]: [None] is the NULL pointer, [Some b] an allocation that
    holds the bytes [b]. [wbuf_size] is [*n->wbuf_size]. *)
Record rs : Type := {
  conf : rs_conf;
  src_worker_thread_i : Z;
  src_peer_i : Z;
  wbuf : option (list byte);
  wbuf_size : Z;
  wbuf_i : Z;
  outbound_rings : Z -> rs_ring;
  ring_update_queue : list (Z * Z)
}.

Definition set_wbuf (b : option (list byte)) (n : rs) : rs :=
  {| conf := conf n; src_worker_thread_i := src_worker_thread_i n;
     src_peer_i := src_peer_i n; wbuf := b; wbuf_size := wbuf_size n;
     wbuf_i := wbuf_i n; outbound_rings := outbound_rings n;
     ring_update_queue := ring_update_queue n |}.

Definition set_wbuf_size (v : Z) (n : rs) : rs :=
  {| conf := conf n; src_worker_thread_i := src_worker_thread_i n;
     src_peer_i := src_peer_i n; wbuf := wbuf n; wbuf_size := v;
     wbuf_i := wbuf_i n; outbound_rings := outbound_rings n;
     ring_update_queue := ring_update_queue n |}.

Definition set_wbuf_i (v : Z) (n : rs) : rs :=
  {| conf := conf n; src_worker_thread_i := src_worker_thread_i n;
     src_peer_i := src_peer_i n; wbuf := wbuf n; wbuf_size := wbuf_size n;
     wbuf_i := v; outbound_rings := outbound_rings n;
     ring_update_queue := ring_update_queue n |}.

Definition set_ring (worker_i : Z) (r : rs_ring) (n : rs) : rs :=
  {| conf := conf n; src_worker_thread_i := src_worker_thread_i n;
     src_peer_i := src_peer_i n; wbuf := wbuf n; wbuf_size := wbuf_size n;
     wbuf_i := wbuf_i n;
     outbound_rings := fun i => if i =? worker_i then r
                                else outbound_rings n i;
     ring_update_queue := ring_update_queue n |}.

Definition set_queue (q : list (Z * Z)) (n : rs) : rs :=
  {| conf := conf n; src_worker_thread_i := src_worker_thread_i n;
     src_peer_i := src_peer_i n; wbuf := wbuf n; wbuf_size := wbuf_size n;
     wbuf_i := wbuf_i n; outbound_rings := outbound_rings n;
     ring_update_queue := q |}.

(** What the helpers rely on and the embedded files do not define. *)
Record platform : Type := {
  (** the byte order of the host *)
  little_endian : bool;
  (** whether calloc() or realloc() returns memory for a request of that
      many bytes *)
  heap_grants : Z -> bool;
  (** [rs_prepare_ring_write] of ringsocket_ring.h: worker, ring and
      message size to a result and the ring the writer continues in *)
  rs_prepare_ring_write : Z -> rs_ring -> Z -> rs_ret * rs_ring;
  (** [rs_enqueue_ring_update] of ringsocket_queue.h: queue, position of
      the writer and worker to a result and the queue *)
  rs_enqueue_ring_update :
    list (Z * Z) -> Z -> Z -> rs_ret * list (Z * Z)
}.

(** Memory holding [buf] after [data] has been stored at offset [off]. A
    store that reaches past the end of an allocation is undefined in C;
    here it lengthens the list. *)
Definition poke (buf : list byte) (off : nat) (data : list byte)
    : list byte :=
  firstn off buf ++ data ++ skipn (off + length data) buf.

(** The allocation realloc() returns: the old bytes up to the new size;
    bytes beyond the old size are indeterminate in C and zero here. *)
Definition resized (size : nat) (buf : list byte) : list byte :=
  firstn size buf ++ repeat 0 (size - length buf).

Section AppHelper.

Variable P : platform.

Local Abbreviation store_u := (store_uint (little_endian P)).
Local Abbreviation load_u := (load_uint (little_endian P)).

(** [RS_CALLOC(pointer, elem_c)] for a pointer to bytes. *)
Definition RS_CALLOC (pointer : option (list byte)) (elem_c : Z)
    : rs_ret * option (list byte) :=
  match pointer with
  | Some _ => (RS_FATAL, pointer)
  | None =>
      if heap_grants P elem_c
      then (RS_OK, Some (repeat 0 (Z.to_nat elem_c)))
      else (RS_FATAL, None)
  end.

(** [RS_REALLOC(pointer, elem_c)] for a pointer to bytes. *)
Definition RS_REALLOC (pointer : option (list byte)) (elem_c : Z)
    : rs_ret * option (list byte) :=
  match pointer with
  | None => (RS_FATAL, None)
  | Some b =>
      if heap_grants P elem_c
      then (RS_OK, Some (resized (Z.to_nat elem_c) b))
      else (RS_FATAL, None)
  end.

(** The two 32-bit words of the compound literal, read as one 64-bit
    integer. *)
Definition rs_get_client_id (n : rs) : Z :=
  load_u (store_u 4%nat (src_worker_thread_i n)
          ++ store_u 4%nat (src_peer_i n)).

Definition rs_check_app_wsize (n : rs) (incr_size : Z) : rs_ret * rs :=
  RS_GUARD
    (match wbuf n with
     | None =>
         let '(r, b) := RS_CALLOC (wbuf n) (wbuf_size n) in
         (r, set_wbuf b n)
     | Some _ => (RS_OK, n)
     end)
    (fun r n => (r, n))
    (fun n =>
       if wbuf_size n <=? to_size_t (wbuf_i n + incr_size) then
         let n :=
           set_wbuf_size
             (to_size_t (realloc_multiplier (conf n)
                         * to_size_t (wbuf_i n + incr_size))) n in
         let '(r, b) := RS_REALLOC (wbuf n) (wbuf_size n) in
         (r, set_wbuf b n)
       else
         (RS_OK, n)).

(** Modelled from the spec: [RS_GUARD_APP] is defined in
    ringsocket_app.h, which is not among the embedded files; it is the
    guarded return of [RS_GUARD]. The helpers that use it are declared
    [void]; the model keeps the result they return through it, [RS_OK]
    when control reaches the end of the body. *)
Definition RS_GUARD_APP (call : rs_ret * rs) (next : rs -> rs_ret * rs)
    : rs_ret * rs :=
  RS_GUARD call (fun r n => (r, n)) next.

(** Stores [data] at [*n->wbuf + n->wbuf_i], then [n->wbuf_i += size]. *)
Definition scratch_store (data : list byte) (size : Z) (n : rs) : rs :=
  let n :=
    set_wbuf
      (match wbuf n with
       | Some b => Some (poke b (Z.to_nat (wbuf_i n)) data)
       | None => None
       end) n in
  set_wbuf_i (to_size_t (wbuf_i n + size)) n.

Definition rs_w_p (n : rs) (src : list byte) (size : Z) : rs_ret * rs :=
  RS_GUARD_APP (rs_check_app_wsize n size) (fun n =>
  (RS_OK, scratch_store (firstn (Z.to_nat size) src) size n)).

Definition rs_w_uint8 (n : rs) (u8 : Z) : rs_ret * rs :=
  RS_GUARD_APP (rs_check_app_wsize n 1) (fun n =>
  (RS_OK, scratch_store [to_uint8 u8] 1 n)).

Definition rs_w_uint16 (n : rs) (u16 : Z) : rs_ret * rs :=
  RS_GUARD_APP (rs_check_app_wsize n 2) (fun n =>
  (RS_OK, scratch_store (store_u 2%nat (to_uint16 u16)) 2 n)).

Definition rs_w_uint32 (n : rs) (u32 : Z) : rs_ret * rs :=
  RS_GUARD_APP (rs_check_app_wsize n 4) (fun n =>
  (RS_OK, scratch_store (store_u 4%nat (to_uint32 u32)) 4 n)).

(** The parameter is declared [uint32_t u64]: the argument is converted
    to 32 bits on the way in, and that value is stored as a
    [uint64_t]. *)
Definition rs_w_uint64 (n : rs) (u64 : Z) : rs_ret * rs :=
  let u64 := to_uint32 u64 in
  RS_GUARD_APP (rs_check_app_wsize n 8) (fun n =>
  (RS_OK, scratch_store (store_u 8%nat u64) 8 n)).

Definition rs_w_uint16_hton (n : rs) (u16 : Z) : rs_ret * rs :=
  rs_w_uint16 n (RS_HTON (little_endian P) 2 (to_uint16 u16)).

Definition rs_w_uint32_hton (n : rs) (u32 : Z) : rs_ret * rs :=
  rs_w_uint32 n (RS_HTON (little_endian P) 4 (to_uint32 u32)).

Definition rs_w_uint64_hton (n : rs) (u64 : Z) : rs_ret * rs :=
  rs_w_uint64 n (RS_HTON (little_endian P) 8 (to_uint64 u64)).

(** The [do { ... = *recipients++; ... } while (--recipient_c)] loop of
    [rs_send], entered with [recipient_c >= 1]. Reading past the end of
    the array is undefined in C; here the loop stops there. *)
Fixpoint write_recipients (recipient_c : nat) (recipients : list Z)
    (ring : rs_ring) : rs_ring :=
  match recipient_c, recipients with
  | S c, r :: rest => write_recipients c rest (ring ++ store_u 4%nat r)
  | _, _ => ring
  end.

(** The bytes of the scratch buffer [rs_send] copies:
    [memcpy(ring->writer, *n->wbuf, n->wbuf_i)]. *)
Definition scratch (n : rs) : list byte :=
  match wbuf n with
  | Some b => firstn (Z.to_nat (wbuf_i n)) b
  | None => []
  end.

(** The stores of [rs_send] between its two guarded calls. *)
Definition rs_send_write (n : rs) (ring : rs_ring)
    (outbound_kind : rs_outbound_kind) (recipients : list Z)
    (recipient_c : Z) (is_utf8 : bool) (p : list byte) (size : Z)
    (payload_size msg_size : Z) : rs_ring :=
  let ring := ring ++ [to_uint8 (kind_code outbound_kind)] in
  let ring :=
    if recipient_c =? 0 then ring
    else
      let ring :=
        if 1 <? recipient_c then ring ++ store_u 4%nat recipient_c
        else ring in
      write_recipients (Z.to_nat recipient_c) recipients ring in
  let ring := ring ++ [if is_utf8 then 129 else 130] in
  let ring :=
    if UINT16_MAX <? msg_size then
      ring ++ 127 :: RS_W_HTON (little_endian P) 8 payload_size
    else if 125 <? msg_size then
      ring ++ 126 :: RS_W_HTON (little_endian P) 2 payload_size
    else ring in
  let ring := if wbuf_i n =? 0 then ring else ring ++ scratch n in
  let ring :=
    if size =? 0 then ring else ring ++ firstn (Z.to_nat size) p in
  ring.

(** [rs_send] is declared [void] and returns [RS_FATAL] on an oversize
    payload; see [RS_GUARD_APP] for the result type. [recipient_c] is a
    [uint32_t]: callers convert. *)
Definition rs_send (n : rs) (worker_i : Z)
    (outbound_kind : rs_outbound_kind) (recipients : list Z)
    (recipient_c : Z) (is_utf8 : bool) (p : list byte) (size : Z)
    : rs_ret * rs :=
  let payload_size := to_size_t (wbuf_i n + size) in
  if max_ws_msg_size (conf n) <? payload_size then
    (RS_FATAL, n)
  else
    let msg_size := payload_size in
    let msg_size :=
      if UINT16_MAX <? msg_size then to_size_t (msg_size + 10)
      else if 125 <? msg_size then to_size_t (msg_size + 4)
      else to_size_t (msg_size + 2) in
    let msg_size := to_size_t (msg_size + 1) in
    RS_GUARD_APP
      (let '(r, ring) :=
         rs_prepare_ring_write P worker_i (outbound_rings n worker_i)
           msg_size in
       (r, set_ring worker_i ring n))
      (fun n =>
         let ring :=
           rs_send_write n (outbound_rings n worker_i) outbound_kind
             recipients recipient_c is_utf8 p size payload_size
             msg_size in
         let n := set_ring worker_i ring n in
         RS_GUARD_APP
           (let '(r, q) :=
              rs_enqueue_ring_update P (ring_update_queue n)
                (Z.of_nat (length ring)) worker_i in
            (r, set_queue q n))
           (fun n => (RS_OK, n))).

(** [uint32_t * u32 = (uint32_t * ) &client_id]: [*u32] is the word at
    the lower address of the eight bytes of [client_id], [u32 + 1]
    points at the other one. [rs_send] returns nothing to its caller
    here: its result is dropped. *)
Definition rs_to_single (n : rs) (is_utf8 : bool) (client_id : Z)
    (p : list byte) (size : Z) : rs :=
  let mem := store_u 8%nat (to_uint64 client_id) in
  let u32 := load_u (firstn 4 mem) in
  let n :=
    snd (rs_send n u32 RS_OUTBOUND_SINGLE [load_u (skipn 4 mem)] 1
           is_utf8 p size) in
  set_wbuf_i 0 n.

(** The inner loop of [rs_to_multi]: the peer words of the client ids
    whose worker word is [i], in the order of the array. *)
Fixpoint cur_clients_of (i : Z) (client_ids : list Z) : list Z :=
  match client_ids with
  | [] => []
  | client_id :: rest =>
      let mem := store_u 8%nat (to_uint64 client_id) in
      if load_u (firstn 4 mem) =? i
      then load_u (skipn 4 mem) :: cur_clients_of i rest
      else cur_clients_of i rest
  end.

(** The body of the outer loop of [rs_to_multi], for worker [i]. *)
Definition rs_to_multi_worker (n : rs) (i : Z) (is_utf8 : bool)
    (client_ids : list Z) (client_c : Z) (p : list byte) (size : Z)
    : rs :=
  let cur_clients :=
    cur_clients_of i (firstn (Z.to_nat client_c) client_ids) in
  let cur_client_c := Z.of_nat (length cur_clients) in
  match cur_client_c with
  | 0 => n
  | 1 =>
      snd (rs_send n i RS_OUTBOUND_SINGLE cur_clients 1 is_utf8 p size)
  | _ =>
      snd (rs_send n i RS_OUTBOUND_ARRAY cur_clients
             (to_uint32 cur_client_c) is_utf8 p size)
  end.

(** [for (size_t i = ...; i < n->conf->worker_c; i++)], with [todo]
    iterations left. *)
Fixpoint rs_to_multi_loop (todo : nat) (i : Z) (n : rs) (is_utf8 : bool)
    (client_ids : list Z) (client_c : Z) (p : list byte) (size : Z)
    : rs :=
  match todo with
  | O => n
  | S todo' =>
      rs_to_multi_loop todo' (i + 1)
        (rs_to_multi_worker n i is_utf8 client_ids client_c p size)
        is_utf8 client_ids client_c p size
  end.

Definition rs_to_multi (n : rs) (is_utf8 : bool) (client_ids : list Z)
    (client_c : Z) (p : list byte) (size : Z) : rs :=
  let n :=
    rs_to_multi_loop (Z.to_nat (worker_c (conf n))) 0 n is_utf8
      client_ids client_c p size in
  set_wbuf_i 0 n.

Definition rs_to_cur (n : rs) (is_utf8 : bool) (p : list byte)
    (size : Z) : rs :=
  let n :=
    snd (rs_send n (src_worker_thread_i n) RS_OUTBOUND_SINGLE
           [src_peer_i n] 1 is_utf8 p size) in
  set_wbuf_i 0 n.

End AppHelper.

(** ** Vocabulary of the statements *)

Definition is_byte (b : Z) : Prop := 0 <= b < 256.

(** The two halves of a 64-bit integer, by significance. *)
Definition hi32 (v : Z) : Z := to_uint64 v / 2 ^ 32.
Definition lo32 (v : Z) : Z := to_uint64 v mod 2 ^ 32.

(** The two 32-bit words of a 64-bit integer, by address: what
    [*u32] and [*(u32 + 1)] read after [u32 = (uint32_t * ) &client_id]. *)
Definition first_word (P : platform) (client_id : Z) : Z :=
  load_uint (little_endian P)
    (firstn 4 (store_uint (little_endian P) 8 (to_uint64 client_id))).
Definition second_word (P : platform) (client_id : Z) : Z :=
  load_uint (little_endian P)
    (skipn 4 (store_uint (little_endian P) 8 (to_uint64 client_id))).

(** The WebSocket length field of RFC 6455 for a payload of [P] bytes, as
    the specification words it: one byte up to 125, [126] and a
    big-endian 16-bit integer up to 65535, [127] and a big-endian 64-bit
    integer beyond. *)
Definition ws_length_field (P : Z) : list byte :=
  if P <=? 125 then [P]
  else if P <=? UINT16_MAX then 126 :: be_bytes 2 P
  else 127 :: be_bytes 8 P.

(** The bytes [rs_send] stores between the opcode byte and the payload
    of [P] bytes. *)
Definition ws_length_stored (P : Z) : list byte :=
  if P <=? 122 then []
  else if P <=? 65530 then 126 :: be_bytes 2 P
  else 127 :: be_bytes 8 P.

(** The descriptors closed by a sequence of system calls. *)
Fixpoint closed_fds (cs : list syscall) : list Z :=
  match cs with
  | [] => []
  | Sys_close fd :: rest => fd :: closed_fds rest
  | _ :: rest => closed_fds rest
  end.

(** The read() calls of the drain loop of
    [read_bidirectional_tcp_shutdown]: one per pending chunk and the one
    that ends the loop. *)
Definition drain_calls (fd rbuf_size : Z) (pending : list positive)
    : list syscall :=
  repeat (Sys_read fd rbuf_size) (S (length pending)).

(** Whether the drain loop ends on read() = -1 with errno EAGAIN. *)
Definition ends_in_eagain (last : read_end) : bool :=
  match last with
  | Read_zero => false
  | Read_fails e => e =? EAGAIN
  end.

(** The routing header of an outbound record: the kind byte, the count
    when there is more than one recipient, the recipients. *)
Definition routing_header (P : platform) (k : rs_outbound_kind)
    (recipients : list Z) : list byte :=
  [kind_code k]
  ++ (if 1 <? Z.of_nat (length recipients)
      then store_uint (little_endian P) 4 (Z.of_nat (length recipients))
      else [])
  ++ flat_map (store_uint (little_endian P) 4) recipients.

Definition ws_opcode (is_utf8 : bool) : Z := if is_utf8 then 129 else 130.

(** The recipients of worker [i] among client ids: the peer words of the
    ids whose worker word is [i], in their order. *)
Definition recipients_of (P : platform) (i : Z) (client_ids : list Z)
    : list Z :=
  map (second_word P) (filter (fun c => first_word P c =? i) client_ids).

(** The message size [rs_send] asks the ring for, for a payload of [P]
    bytes, when nothing wraps around. *)
Definition ws_msg_size (P : Z) : Z :=
  P + (if UINT16_MAX <? P then 10 else if 125 <? P then 4 else 2) + 1.

(** A platform on which every allocation and every ring operation
    succeeds, the ring left as it is; used for concrete runs. *)
Definition plain_platform (le : bool) : platform :=
  {| little_endian := le;
     heap_grants := fun _ => true;
     rs_prepare_ring_write := fun _ ring _ => (RS_OK, ring);
     rs_enqueue_ring_update := fun q pos i => (RS_OK, q ++ [(pos, i)]) |}.

(** An app thread in a callback for peer [peer] of worker [worker], with
    nothing written yet. *)
Definition fresh_rs (max_size workers worker peer : Z) : rs :=
  {| conf := {| max_ws_msg_size := max_size; realloc_multiplier := 2;
                worker_c := workers |};
     src_worker_thread_i := worker; src_peer_i := peer;
     wbuf := None; wbuf_size := 64; wbuf_i := 0;
     outbound_rings := fun _ => [];
     ring_update_queue := [] |}.

(** The same with [max_ws_msg_size = 16] and ten bytes in the scratch
    buffer. *)
Definition ten_in_scratch : rs :=
  set_wbuf_i 10
    (set_wbuf (Some ([1; 2; 3; 4; 5; 6; 7; 8; 9; 10] ++ repeat 0 54))
       (fresh_rs 16 2 0 7)).

(** C10 as the claim words it: with [realloc_multiplier >= 2] and
    [incr_size >= 1], a check that returns [RS_OK] leaves the scratch
    pointer non-NULL and [wbuf_i + incr_size < *wbuf_size], whatever the
    size asked for. *)
Definition check_app_wsize_leaves_room (P : platform) (n : rs)
    (incr_size : Z) : Prop :=
  2 <= realloc_multiplier (conf n) -> 1 <= incr_size ->
  forall n',
    rs_check_app_wsize P n incr_size = (RS_OK, n') ->
    wbuf n' <> None /\ wbuf_i n' + incr_size < wbuf_size n'.

(** C3 as the specification words it: [rs_to_single] sends to the worker
    given by the high-order half of the client id, with the low-order
    half as the one recipient. *)
Definition to_single_addresses_hi_lo (P : platform) (n : rs)
    (is_utf8 : bool) (client_id : Z) (p : list byte) (size : Z) : Prop :=
  rs_to_single P n is_utf8 client_id p size
  = set_wbuf_i 0
      (snd (rs_send P n (hi32 client_id) RS_OUTBOUND_SINGLE
              [lo32 client_id] 1 is_utf8 p size)).

(** A world in which nothing has happened yet, at the log level
    [RS_LOG_VARS] starts with: [int _rs_log_max = LOG_NOTICE]. *)
Definition quiet_world : world :=
  {| errno := 0; wire_out := []; calls := []; logs := []; free_slots := [];
     _rs_log_max := priority LOG_NOTICE |}.

(** The same with the log level raised to [LOG_DEBUG]. *)
Definition verbose_world : world :=
  {| errno := 0; wire_out := []; calls := []; logs := []; free_slots := [];
     _rs_log_max := priority LOG_DEBUG |}.

(** The same with the log level lowered to [LOG_ERR]. *)
Definition terse_world : world :=
  {| errno := 0; wire_out := []; calls := []; logs := []; free_slots := [];
     _rs_log_max := priority LOG_ERR |}.

(** The lines [k] invocations of [RS_LOG(lvl, ...)] add to the log of
    [w]: none when [lvl] is above the run-time level. *)
Definition logged (w : world) (lvl : log_level) (k : nat)
    : list log_level :=
  if priority lvl <=? _rs_log_max w then repeat lvl k else [].

(** A socket that has taken the first two bytes of a message. *)
Definition half_sent_world : world :=
  {| errno := 0; wire_out := [10; 20]; calls := []; logs := [];
     free_slots := []; _rs_log_max := priority LOG_NOTICE |}.

(** A peer being shut down, the kernel's answers when the other side
    has sent eight more bytes and then its FIN, and a TLS layer that is
    never entered. *)
Definition closing_peer : rs_peer :=
  {| socket_fd := 9; is_encrypted := false; layer := RS_LAYER_TCP;
     mortality := RS_MORTALITY_SHUTDOWN_WRITE; is_writing := true;
     old_wsize := 0 |}.

Definition fin_answers : tcp_answers :=
  {| k_shutdown := {| ret := 0; err := 0 |};
     k_pending := [5%positive; 3%positive];
     k_last := Read_zero;
     k_close := {| ret := 0; err := 0 |} |}.

Definition no_tls (p : rs_peer) : rs_ret * rs_peer := (RS_OK, p).

(** ** More of [ringsocket_api.h] *)

(** [RS_R_NTOH16/32/64(ptr)]: the [w]-byte integer at [ptr], converted
    from network order. *)
Definition RS_R_NTOH (le : bool) (w : nat) (mem : list byte) : Z :=
  RS_NTOH le w (load_uint le (firstn w mem)).

(** ** More of [ringsocket_app_helper.h] *)

(** The value of a [w]-bit signed parameter: the two's complement
    reading of the low [w] bits of the argument. *)
Definition to_signed (w : Z) (v : Z) : Z :=
  (v + 2 ^ (w - 1)) mod 2 ^ w - 2 ^ (w - 1).

(** [for (size_t i = ...; i < n->conf->worker_c; i++) body], with [todo]
    iterations left; no body changes [n->conf]. *)
Fixpoint for_each_worker (body : rs -> Z -> rs) (todo : nat) (i : Z)
    (n : rs) : rs :=
  match todo with
  | O => n
  | S todo' => for_each_worker body todo' (i + 1) (body n i)
  end.

Section AppHelperMore.

Variable P : platform.

Local Abbreviation store_u := (store_uint (little_endian P)).
Local Abbreviation load_u := (load_uint (little_endian P)).

(** The signed variants pass their argument on to the unsigned ones. *)
Definition rs_w_int8 (n : rs) (i8 : Z) : rs_ret * rs :=
  rs_w_uint8 P n (to_signed 8 i8).

Definition rs_w_int16 (n : rs) (i16 : Z) : rs_ret * rs :=
  rs_w_uint16 P n (to_signed 16 i16).

Definition rs_w_int32 (n : rs) (i32 : Z) : rs_ret * rs :=
  rs_w_uint32 P n (to_signed 32 i32).

Definition rs_w_int64 (n : rs) (i64 : Z) : rs_ret * rs :=
  rs_w_uint64 P n (to_signed 64 i64).

Definition rs_w_int16_hton (n : rs) (i16 : Z) : rs_ret * rs :=
  rs_w_uint16_hton P n (to_signed 16 i16).

Definition rs_w_int32_hton (n : rs) (i32 : Z) : rs_ret * rs :=
  rs_w_uint32_hton P n (to_signed 32 i32).

Definition rs_w_int64_hton (n : rs) (i64 : Z) : rs_ret * rs :=
  rs_w_uint64_hton P n (to_signed 64 i64).

(** [rs_send(n, i, RS_OUTBOUND_EVERY, NULL, 0, ...)] for every worker. *)
Definition rs_to_every (n : rs) (is_utf8 : bool) (p : list byte)
    (size : Z) : rs :=
  let n :=
    for_each_worker
      (fun n i =>
         snd (rs_send P n i RS_OUTBOUND_EVERY [] 0 is_utf8 p size))
      (Z.to_nat (worker_c (conf n))) 0 n in
  set_wbuf_i 0 n.

Definition rs_to_every_except_single (n : rs) (is_utf8 : bool)
    (client_id : Z) (p : list byte) (size : Z) : rs :=
  let mem := store_u 8%nat (to_uint64 client_id) in
  let n :=
    for_each_worker
      (fun n i =>
         if i =? load_u (firstn 4 mem) then
           snd (rs_send P n i RS_OUTBOUND_EVERY_EXCEPT_SINGLE
                  [load_u (skipn 4 mem)] 1 is_utf8 p size)
         else
           snd (rs_send P n i RS_OUTBOUND_EVERY [] 0 is_utf8 p size))
      (Z.to_nat (worker_c (conf n))) 0 n in
  set_wbuf_i 0 n.

(** The body of the loop of [rs_to_every_except_multi], for worker
    [i]. *)
Definition rs_to_every_except_multi_worker (is_utf8 : bool)
    (client_ids : list Z) (client_c : Z) (p : list byte) (size : Z)
    (n : rs) (i : Z) : rs :=
  let cur_clients :=
    cur_clients_of P i (firstn (Z.to_nat client_c) client_ids) in
  let cur_client_c := Z.of_nat (length cur_clients) in
  match cur_client_c with
  | 0 => snd (rs_send P n i RS_OUTBOUND_EVERY [] 0 is_utf8 p size)
  | 1 =>
      snd (rs_send P n i RS_OUTBOUND_EVERY_EXCEPT_SINGLE cur_clients 1
             is_utf8 p size)
  | _ =>
      snd (rs_send P n i RS_OUTBOUND_EVERY_EXCEPT_ARRAY cur_clients
             (to_uint32 cur_client_c) is_utf8 p size)
  end.

Definition rs_to_every_except_multi (n : rs) (is_utf8 : bool)
    (client_ids : list Z) (client_c : Z) (p : list byte) (size : Z)
    : rs :=
  let n :=
    for_each_worker
      (rs_to_every_except_multi_worker is_utf8 client_ids client_c p size)
      (Z.to_nat (worker_c (conf n))) 0 n in
  set_wbuf_i 0 n.

Definition rs_to_every_except_cur (n : rs) (is_utf8 : bool)
    (p : list byte) (size : Z) : rs :=
  let n :=
    for_each_worker
      (fun n i =>
         if i =? src_worker_thread_i n then
           snd (rs_send P n i RS_OUTBOUND_EVERY_EXCEPT_SINGLE
                  [src_peer_i n] 1 is_utf8 p size)
         else
           snd (rs_send P n i RS_OUTBOUND_EVERY [] 0 is_utf8 p size))
      (Z.to_nat (worker_c (conf n))) 0 n in
  set_wbuf_i 0 n.

End AppHelperMore.

(** What clock_gettime() answers: the value returned, the errno it
    leaves when that value is -1, and the time it stores. *)
Record clock_answer : Type := {
  clock_ret : Z;
  clock_err : Z;
  tv_sec : Z;
  tv_nsec : Z
}.

(** [rs_get_time_in_milliseconds]: the result, [*time_ms] and the world.
    The sum is computed in [long] and converted to [uint64_t] by the
    assignment; an overflow of the sum ([LONG_MAX] exceeded) is undefined
    in C and is not represented: the statements about this function are
    made for sums that fit. The division is the one of C, which
    truncates. *)
Definition rs_get_time_in_milliseconds (a : clock_answer) (w : world)
    (time_ms : Z) : rs_ret * (Z * world) :=
  let w := if clock_ret a =? -1 then with_errno (clock_err a) w else w in
  if clock_ret a =? -1 then
    (RS_FATAL, (time_ms, RS_LOG LOG_CRIT w))
  else
    (RS_OK,
     (to_uint64 (1000 * tv_sec a + Z.quot (tv_nsec a) 1000000), w)).

(** ** Vocabulary of the statements, continued *)

(** A scratch buffer in order: the allocation, when there is one, holds
    [wbuf_size] bytes and the offset lies inside it; without an
    allocation the offset is 0. *)
Definition scratch_ok (n : rs) : Prop :=
  0 <= wbuf_i n /\
  match wbuf n with
  | Some b => Z.of_nat (length b) = wbuf_size n /\ wbuf_i n <= wbuf_size n
  | None => wbuf_i n = 0
  end.

(** The value of the bytes read as a signed integer in host order. *)
Definition load_int (le : bool) (bs : list byte) : Z :=
  to_signed (8 * Z.of_nat (length bs)) (load_uint le bs).

(** Calls of [write_tcp] with the same buffer, one per answer of the
    kernel, for as long as the result is [RS_AGAIN]. *)
Fixpoint write_tcp_retries (answers : list answer) (w : world)
    (peer : rs_peer) (wbuf : list byte) (wbuf_size : Z)
    : rs_ret * (rs_peer * world) :=
  match answers with
  | [] => (RS_AGAIN, (peer, w))
  | a :: rest =>
      match write_tcp a w peer wbuf wbuf_size with
      | (RS_AGAIN, (peer, w)) => write_tcp_retries rest w peer wbuf wbuf_size
      | out => out
      end
  end.

(** Answers of write() that never claim more bytes than were offered,
    for a message of [size] bytes of which [old] are written. *)
Fixpoint answers_fit (answers : list answer) (old size : Z) : Prop :=
  match answers with
  | [] => True
  | a :: rest =>
      ret a <= size - old /\
      answers_fit rest (if 0 <? ret a then old + ret a else old) size
  end.

(** The number of calls of shutdown() among system calls. *)
Fixpoint shutdown_count (cs : list syscall) : nat :=
  match cs with
  | [] => O
  | Sys_shutdown_wr _ :: rest => S (shutdown_count rest)
  | _ :: rest => shutdown_count rest
  end.

(** The recipients part of a routing header, for a list of recipients
    and the kinds that carry none, one or several. *)
Definition kind_for (none one several : rs_outbound_kind)
    (recipients : list Z) : rs_outbound_kind :=
  match recipients with
  | [] => none
  | [_] => one
  | _ => several
  end.

(** What a loop body must leave alone for the loop over the workers to
    act on each ring separately: everything but the ring of the worker
    it is called for. *)
Definition body_frame (body : rs -> Z -> rs) : Prop :=
  forall n i,
    conf (body n i) = conf n /\ wbuf (body n i) = wbuf n /\
    wbuf_i (body n i) = wbuf_i n /\
    src_worker_thread_i (body n i) = src_worker_thread_i n /\
    src_peer_i (body n i) = src_peer_i n /\
    forall j, j <> i -> outbound_rings (body n i) j = outbound_rings n j.

(** What the ring a loop body leaves for its worker may depend on: the
    configuration, the scratch buffer, the origin of the callback and
    that ring. *)
Definition body_congr (body : rs -> Z -> rs) : Prop :=
  forall n1 n2 i,
    conf n1 = conf n2 -> wbuf n1 = wbuf n2 -> wbuf_i n1 = wbuf_i n2 ->
    src_worker_thread_i n1 = src_worker_thread_i n2 ->
    src_peer_i n1 = src_peer_i n2 ->
    outbound_rings n1 i = outbound_rings n2 i ->
    outbound_rings (body n1 i) i = outbound_rings (body n2 i) i.

(** A platform whose heap refuses requests of more than [limit] bytes,
    and one whose rings never have room; used for concrete runs. *)
Definition small_heap_platform (le : bool) (limit : Z) : platform :=
  {| little_endian := le;
     heap_grants := fun size => size <=? limit;
     rs_prepare_ring_write := fun _ ring _ => (RS_OK, ring);
     rs_enqueue_ring_update := fun q pos i => (RS_OK, q ++ [(pos, i)]) |}.

Definition full_ring_platform (le : bool) : platform :=
  {| little_endian := le;
     heap_grants := fun _ => true;
     rs_prepare_ring_write := fun _ ring _ => (RS_FATAL, ring);
     rs_enqueue_ring_update := fun q pos i => (RS_OK, q ++ [(pos, i)]) |}.

(** A message written in three calls of write(): two bytes, a call that
    would block, three bytes. *)
Definition three_writes : list answer :=
  [{| ret := 2; err := 0 |}; {| ret := -1; err := EAGAIN |};
   {| ret := 3; err := 0 |}].

(** The kernel's answers when shutdown() succeeds and nothing is
    pending yet: the drain ends in EAGAIN. *)
Definition wait_answers : tcp_answers :=
  {| k_shutdown := {| ret := 0; err := 0 |};
     k_pending := [];
     k_last := Read_fails EAGAIN;
     k_close := {| ret := 0; err := 0 |} |}.

(** Two readings of the clock, 1.2345 s and 2.0005 s, and a failure. *)
Definition clock_early : clock_answer :=
  {| clock_ret := 0; clock_err := 0; tv_sec := 1; tv_nsec := 234500000 |}.
Definition clock_late : clock_answer :=
  {| clock_ret := 0; clock_err := 0; tv_sec := 2; tv_nsec := 500000 |}.
Definition clock_fails : clock_answer :=
  {| clock_ret := -1; clock_err := 22; tv_sec := 0; tv_nsec := 0 |}.

(* ================================================================== *)
(** * Part II: properties                                              *)
(* ================================================================== *)

(** ** Byte order *)

Lemma le_bytes_length (w : nat) (v : Z) : length (le_bytes w v) = w.
Proof.
  revert v; induction w as [|w IH]; intro v; simpl; [reflexivity|].
  now rewrite IH.
Qed.

Lemma le_bytes_range (w : nat) (v : Z) : Forall is_byte (le_bytes w v).
Proof.
  revert v; induction w as [|w IH]; intro v; simpl; constructor.
  - unfold is_byte. apply Z.mod_pos_bound. lia.
  - apply IH.
Qed.

Lemma le_value_bounds (bs : list byte) :
  Forall is_byte bs -> 0 <= le_value bs < 256 ^ Z.of_nat (length bs).
Proof.
  induction 1 as [|b bs Hb _ IH]; cbn [le_value].
  - simpl. lia.
  - cbn [length]. rewrite Nat2Z.inj_succ, Z.pow_succ_r by lia.
    unfold is_byte in Hb. lia.
Qed.

Lemma le_bytes_le_value (bs : list byte) :
  Forall is_byte bs -> le_bytes (length bs) (le_value bs) = bs.
Proof.
  induction 1 as [|b bs Hb _ IH]; cbn [length le_bytes le_value];
    [reflexivity|].
  unfold is_byte in Hb.
  assert (Hm : (b + 256 * le_value bs) mod 256 = b).
  { replace (b + 256 * le_value bs) with (b + le_value bs * 256) by ring.
    rewrite Z.mod_add by lia. apply Z.mod_small; lia. }
  assert (Hd : (b + 256 * le_value bs) / 256 = le_value bs).
  { replace (b + 256 * le_value bs) with (b + le_value bs * 256) by ring.
    rewrite Z.div_add by lia. rewrite (Z.div_small b 256) by lia. lia. }
  now rewrite Hm, Hd, IH.
Qed.

Lemma le_value_le_bytes (w : nat) (v : Z) :
  le_value (le_bytes w v) = v mod 256 ^ Z.of_nat w.
Proof.
  revert v; induction w as [|w IH]; intro v.
  - simpl. now rewrite Z.mod_1_r.
  - cbn [le_bytes le_value]. rewrite IH.
    replace (Z.of_nat (S w)) with (Z.succ (Z.of_nat w)) by lia.
    rewrite Z.pow_succ_r by lia.
    assert (H256 : 0 < 256 ^ Z.of_nat w) by (apply Z.pow_pos_nonneg; lia).
    rewrite (Z.rem_mul_r v 256 (256 ^ Z.of_nat w)) by lia.
    reflexivity.
Qed.

Lemma le_value_app (a b : list byte) :
  le_value (a ++ b) = le_value a + 256 ^ Z.of_nat (length a) * le_value b.
Proof.
  induction a as [|x a IH]; cbn [app le_value length].
  - change (Z.of_nat 0) with 0. rewrite Z.pow_0_r. lia.
  - rewrite IH.
    replace (Z.of_nat (S (length a))) with (Z.succ (Z.of_nat (length a)))
      by lia.
    rewrite Z.pow_succ_r by lia. ring.
Qed.

Lemma le_bytes_mod (w : nat) (v : Z) :
  le_bytes w (v mod 256 ^ Z.of_nat w) = le_bytes w v.
Proof.
  rewrite <- le_value_le_bytes.
  rewrite <- (le_bytes_length w v) at 1.
  apply le_bytes_le_value, le_bytes_range.
Qed.

Lemma Forall_is_byte_rev (bs : list byte) :
  Forall is_byte bs -> Forall is_byte (rev bs).
Proof. intro H. apply Forall_rev, H. Qed.

(** A byte swap followed by a little-endian store leaves the bytes most
    significant first. *)
Lemma le_bytes_bswap (w : nat) (v : Z) :
  le_bytes w (bswap w v) = be_bytes w v.
Proof.
  unfold bswap, be_bytes.
  rewrite <- (le_bytes_length w v) at 1.
  rewrite <- length_rev.
  apply le_bytes_le_value, Forall_is_byte_rev, le_bytes_range.
Qed.

(** [RS_W_HTON] stores big-endian bytes on either kind of host. *)
Lemma RS_W_HTON_be (le : bool) (w : nat) (v : Z) :
  RS_W_HTON le w v = be_bytes w v.
Proof.
  unfold RS_W_HTON, RS_HTON, RS_NTOH, store_uint.
  replace (2 ^ (8 * Z.of_nat w)) with (256 ^ Z.of_nat w)
    by (rewrite Z.pow_mul_r by lia; reflexivity).
  destruct le.
  - rewrite le_bytes_bswap. unfold be_bytes. now rewrite le_bytes_mod.
  - unfold be_bytes. now rewrite le_bytes_mod.
Qed.

Lemma store_uint_length (le : bool) (w : nat) (v : Z) :
  length (store_uint le w v) = w.
Proof.
  unfold store_uint, be_bytes. destruct le.
  - apply le_bytes_length.
  - rewrite length_rev. apply le_bytes_length.
Qed.

Lemma store_uint_range (le : bool) (w : nat) (v : Z) :
  Forall is_byte (store_uint le w v).
Proof.
  unfold store_uint, be_bytes. destruct le.
  - apply le_bytes_range.
  - apply Forall_is_byte_rev, le_bytes_range.
Qed.

Lemma load_store_uint (le : bool) (w : nat) (v : Z) :
  load_uint le (store_uint le w v) = v mod 256 ^ Z.of_nat w.
Proof.
  unfold load_uint, store_uint, be_value, be_bytes. destruct le.
  - apply le_value_le_bytes.
  - rewrite rev_involutive. apply le_value_le_bytes.
Qed.

Lemma store_load_uint (le : bool) (bs : list byte) :
  Forall is_byte bs -> store_uint le (length bs) (load_uint le bs) = bs.
Proof.
  intro H. unfold load_uint, store_uint, be_value, be_bytes. destruct le.
  - now apply le_bytes_le_value.
  - rewrite <- (length_rev bs).
    rewrite le_bytes_le_value by now apply Forall_is_byte_rev.
    apply rev_involutive.
Qed.

Lemma load_uint_bounds (le : bool) (bs : list byte) :
  Forall is_byte bs -> 0 <= load_uint le bs < 256 ^ Z.of_nat (length bs).
Proof.
  intro H. unfold load_uint, be_value. destruct le.
  - now apply le_value_bounds.
  - rewrite <- length_rev. now apply le_value_bounds, Forall_is_byte_rev.
Qed.

(** ** [read_tcp] and [write_tcp] *)

Lemma to_size_t_small (v : Z) : 0 <= v <= SIZE_MAX -> to_size_t v = v.
Proof. unfold to_size_t, SIZE_MAX. intro H. apply Z.mod_small. lia. Qed.

Lemma to_size_t_le (v : Z) : 0 <= v -> to_size_t v <= v.
Proof. unfold to_size_t. intro H. apply Z.mod_le; lia. Qed.

Lemma firstn_plus {A : Type} (n m : nat) (l : list A) :
  firstn (n + m) l = firstn n l ++ firstn m (skipn n l).
Proof.
  rewrite <- (firstn_skipn n (firstn (n + m) l)).
  rewrite firstn_firstn, firstn_skipn_comm.
  now replace (Nat.min n (n + m)) with n by lia.
Qed.

(** C9. Whenever read_tcp returns something other than OK (CLOSE_PEER or
    AGAIN), it has set [*rsize] to 0; [*rsize] is non-zero only when the
    result is OK, and then it is the positive value read() returned. *)
Theorem read_tcp_rsize_zero_unless_ok (a : answer) (w : world)
    (peer : rs_peer) (rbuf_size : Z) (r : rs_ret) (peer' : rs_peer)
    (rsize : Z) (w' : world) :
  read_tcp a w peer rbuf_size = (r, (peer', rsize, w')) ->
  (r = RS_OK \/ r = RS_CLOSE_PEER \/ r = RS_AGAIN) /\
  (r <> RS_OK -> rsize = 0) /\
  (rsize <> 0 -> r = RS_OK) /\
  (r = RS_OK -> 0 < ret a /\ rsize = ret a).
Proof.
  unfold read_tcp.
  destruct (0 <? ret a) eqn:Hpos.
  - intro H; inversion H; subst. apply Z.ltb_lt in Hpos.
    repeat split; auto; try congruence; lia.
  - destruct (ret a =? 0);
      [|destruct (errno _ =? EAGAIN)];
      intro H; inversion H; subst;
      repeat split; auto; try congruence; try discriminate.
Qed.

Lemma read_tcp_rsize_zero_unless_ok_witness :
  fst (read_tcp {| ret := -1; err := EAGAIN |} quiet_world zero_peer 4096)
  = RS_AGAIN /\
  snd (fst (snd (read_tcp {| ret := -1; err := EAGAIN |} quiet_world
                   zero_peer 4096))) = 0.
Proof.
  split; [reflexivity|].
  pose (out := read_tcp {| ret := -1; err := EAGAIN |} quiet_world
                 zero_peer 4096).
  destruct (read_tcp_rsize_zero_unless_ok
              {| ret := -1; err := EAGAIN |} quiet_world zero_peer 4096
              (fst out) (fst (fst (snd out))) (snd (fst (snd out)))
              (snd (snd out)) eq_refl)
    as (_ & Hzero & _ & _).
  apply Hzero. discriminate.
Defined.

(** C2. When write() returns 0 or -1, write_tcp returns AGAIN whatever
    errno the kernel left: the condition [errno = EAGAIN] assigns, so
    errno is EAGAIN afterwards, is_writing is set, nothing is logged and
    CLOSE_PEER is never returned. *)
Theorem write_tcp_again_whatever_errno (a : answer) (w : world)
    (peer : rs_peer) (wbuf : list byte) (wbuf_size : Z) :
  ret a <= 0 ->
  exists w',
    write_tcp a w peer wbuf wbuf_size
    = (RS_AGAIN, (set_is_writing true peer, w')) /\
    errno w' = EAGAIN /\ logs w' = logs w.
Proof.
  intro Hret. unfold write_tcp.
  replace (0 <? ret a) with false by (symmetry; apply Z.ltb_ge; lia).
  cbn. eexists. split; [reflexivity|]. split; reflexivity.
Qed.

(** write() fails with ECONNRESET (104): AGAIN all the same. *)
Lemma write_tcp_again_whatever_errno_witness :
  exists w',
    write_tcp {| ret := -1; err := 104 |} quiet_world zero_peer [1; 2; 3] 3
    = (RS_AGAIN, (set_is_writing true zero_peer, w')) /\
    errno w' = EAGAIN /\ logs w' = logs quiet_world.
Proof.
  apply (write_tcp_again_whatever_errno {| ret := -1; err := 104 |}).
  simpl. lia.
Defined.

(** C6. With old_wsize bytes of the message already taken by the
    socket, write_tcp passes write() the rest of the buffer, from offset
    old_wsize on, and the count wbuf_size - old_wsize. On a partial
    write it advances old_wsize by the bytes taken, sets is_writing and
    returns AGAIN, so that a retry with the same buffer resumes at the
    first unsent byte; on a write that takes all that was left it resets
    old_wsize to 0 and returns OK; OK is returned only when the whole
    message has been written, and then the socket has taken it exactly
    once. *)
Theorem write_tcp_resumes_at_unsent_byte (a : answer) (w : world)
    (peer : rs_peer) (wbuf : list byte) (wbuf_size : Z) (sent : list byte)
    (r : rs_ret) (peer' : rs_peer) (w' : world) :
  Z.of_nat (length wbuf) = wbuf_size ->
  wbuf_size <= SIZE_MAX ->
  0 <= old_wsize peer <= wbuf_size ->
  wire_out w = sent ++ firstn (Z.to_nat (old_wsize peer)) wbuf ->
  write_tcp a w peer wbuf wbuf_size = (r, (peer', w')) ->
  let remaining := wbuf_size - old_wsize peer in
  calls w' =
    calls w ++ [Sys_write (socket_fd peer)
                  (skipn (Z.to_nat (old_wsize peer)) wbuf) remaining] /\
  (0 < ret a < remaining ->
     r = RS_AGAIN /\ old_wsize peer' = old_wsize peer + ret a /\
     is_writing peer' = true /\
     wire_out w' = sent ++ firstn (Z.to_nat (old_wsize peer')) wbuf) /\
  (0 < ret a /\ ret a = remaining ->
     r = RS_OK /\ old_wsize peer' = 0 /\ wire_out w' = sent ++ wbuf) /\
  (r = RS_OK ->
     0 < ret a /\ old_wsize peer' = 0 /\ wire_out w' = sent ++ wbuf).
Proof.
  intros Hlen Hmax Hold Hsent Hrun remaining.
  assert (Hrem : to_size_t (wbuf_size - old_wsize peer) = remaining)
    by (apply to_size_t_small; unfold remaining; lia).
  assert (Hdata :
    firstn (Z.to_nat remaining) (skipn (Z.to_nat (old_wsize peer)) wbuf)
    = skipn (Z.to_nat (old_wsize peer)) wbuf).
  { apply firstn_all2. rewrite length_skipn. unfold remaining. lia. }
  unfold write_tcp, sys_write in Hrun. rewrite Hrem, Hdata in Hrun.
  destruct (0 <? ret a) eqn:Hpos.
  - apply Z.ltb_lt in Hpos.
    destruct (to_size_t (ret a) =? remaining) eqn:Hall;
      inversion Hrun; subst r peer' w'; clear Hrun; cbn.
    + apply Z.eqb_eq in Hall.
      assert (Hwhole :
        firstn (Z.to_nat (ret a)) (skipn (Z.to_nat (old_wsize peer)) wbuf)
        = skipn (Z.to_nat (old_wsize peer)) wbuf).
      { apply firstn_all2. rewrite length_skipn.
        pose proof (to_size_t_le (ret a)). unfold remaining in Hall. lia. }
      rewrite Hwhole, Hsent, <- app_assoc, firstn_skipn.
      assert (Hnot : 0 < ret a < remaining -> False).
      { intro Hlt. rewrite to_size_t_small in Hall
          by (unfold remaining, SIZE_MAX in *; lia). lia. }
      repeat split; auto; intros; try lia; tauto.
    + apply Z.eqb_neq in Hall.
      assert (Hfalse : ret a = remaining -> False).
      { intro Heq. apply Hall. rewrite Heq.
        apply to_size_t_small. unfold remaining in *. lia. }
      split; [reflexivity|].
      split; [|split; [intros [_ Heq]; tauto | discriminate]].
      intros [_ Hlt].
      rewrite (to_size_t_small (ret a)) by (unfold SIZE_MAX in *; lia).
      rewrite to_size_t_small by (unfold remaining, SIZE_MAX in *; lia).
      repeat split.
      rewrite Z2Nat.inj_add by lia. rewrite firstn_plus, Hsent.
      now rewrite <- app_assoc.
  - apply Z.ltb_ge in Hpos. cbn in Hrun.
    inversion Hrun; subst r peer' w'; clear Hrun. cbn.
    repeat split; try discriminate; intros; lia.
Qed.

Lemma write_tcp_resumes_at_unsent_byte_witness :
  fst (write_tcp {| ret := 2; err := 0 |} half_sent_world
         (set_old_wsize 2 zero_peer) [10; 20; 30; 40; 50] 5) = RS_AGAIN /\
  old_wsize (fst (snd (write_tcp {| ret := 2; err := 0 |} half_sent_world
                         (set_old_wsize 2 zero_peer) [10; 20; 30; 40; 50] 5)))
  = 4 /\
  is_writing (fst (snd (write_tcp {| ret := 2; err := 0 |} half_sent_world
                          (set_old_wsize 2 zero_peer) [10; 20; 30; 40; 50] 5)))
  = true /\
  wire_out (snd (snd (write_tcp {| ret := 2; err := 0 |} half_sent_world
                        (set_old_wsize 2 zero_peer) [10; 20; 30; 40; 50] 5)))
  = [10; 20; 30; 40].
Proof.
  pose (out := write_tcp {| ret := 2; err := 0 |} half_sent_world
                 (set_old_wsize 2 zero_peer) [10; 20; 30; 40; 50] 5).
  destruct (write_tcp_resumes_at_unsent_byte {| ret := 2; err := 0 |}
              half_sent_world (set_old_wsize 2 zero_peer)
              [10; 20; 30; 40; 50] 5 [] (fst out) (fst (snd out))
              (snd (snd out)))
    as (_ & Hpartial & _).
  - reflexivity.
  - unfold SIZE_MAX. lia.
  - simpl. lia.
  - reflexivity.
  - reflexivity.
  - apply Hpartial. simpl. lia.
Defined.

(** A message of five bytes written in two calls with the same buffer:
    two bytes, AGAIN; the other three, OK; the socket has taken the
    message once, in order. *)
Example write_tcp_two_calls :
  let first := write_tcp {| ret := 2; err := 0 |} quiet_world zero_peer
                 [10; 20; 30; 40; 50] 5 in
  let second := write_tcp {| ret := 3; err := 0 |} (snd (snd first))
                  (fst (snd first)) [10; 20; 30; 40; 50] 5 in
  fst first = RS_AGAIN /\ old_wsize (fst (snd first)) = 2 /\
  fst second = RS_OK /\ old_wsize (fst (snd second)) = 0 /\
  wire_out (snd (snd second)) = [10; 20; 30; 40; 50] /\
  calls (snd (snd second))
  = [Sys_write 0 [10; 20; 30; 40; 50] 5; Sys_write 0 [30; 40; 50] 3].
Proof. repeat split. Qed.

(** ** [handle_tcp_io] *)

Lemma closed_fds_app (a b : list syscall) :
  closed_fds (a ++ b) = closed_fds a ++ closed_fds b.
Proof.
  induction a as [|c a IH]; [reflexivity|].
  destruct c; cbn [app closed_fds]; rewrite IH; reflexivity.
Qed.

Lemma closed_fds_reads (fd count : Z) (k : nat) :
  closed_fds (repeat (Sys_read fd count) k) = [].
Proof. induction k as [|k IH]; [reflexivity|exact IH]. Qed.

(** The drain loop issues its reads and nothing else; the errno it leaves
    is the one of the read that ended it, if that read failed. *)
Lemma drain_reads_spec (fd rbuf_size : Z) (pending : list positive)
    (last : read_end) (w : world) :
  fst (drain_reads fd rbuf_size pending last w) = ret (end_answer last) /\
  calls (snd (drain_reads fd rbuf_size pending last w))
  = calls w ++ drain_calls fd rbuf_size pending /\
  free_slots (snd (drain_reads fd rbuf_size pending last w))
  = free_slots w /\
  errno (snd (drain_reads fd rbuf_size pending last w))
  = match last with Read_zero => errno w | Read_fails e => e end.
Proof.
  revert w. induction pending as [|c rest IH]; intro w.
  - unfold drain_calls. destruct last; cbn; repeat split; reflexivity.
  - cbn [drain_reads]. destruct (IH (RS_LOG LOG_DEBUG
        (sys_call (Sys_read fd rbuf_size) {| ret := Z.pos c; err := 0 |} w)))
      as (H1 & H2 & H3 & H4).
    rewrite H1, H2, H3, H4. unfold drain_calls. cbn [length].
    repeat split.
    cbn. rewrite <- app_assoc. reflexivity.
Qed.

(** How the read-drain step ends. *)
Lemma read_bidirectional_tcp_shutdown_spec (pending : list positive)
    (last : read_end) (w : world) (peer : rs_peer) (rbuf_size : Z) :
  exists w1,
    calls w1 = calls w ++ drain_calls (socket_fd peer) rbuf_size pending /\
    free_slots w1 = free_slots w /\
    read_bidirectional_tcp_shutdown pending last w peer rbuf_size
    = if ends_in_eagain last
      then (RS_AGAIN, (set_is_writing false peer, w1))
      else (RS_CLOSE_PEER, (set_mortality RS_MORTALITY_DEAD peer, w1)).
Proof.
  unfold read_bidirectional_tcp_shutdown.
  destruct (drain_reads_spec (socket_fd peer) rbuf_size pending last w)
    as (H1 & H2 & H3 & H4).
  destruct (drain_reads (socket_fd peer) rbuf_size pending last w)
    as [rsize w1] eqn:Hd.
  cbn [fst snd] in *. subst rsize.
  destruct last as [|e]; cbn [end_answer ret ends_in_eagain].
  - exists w1. cbn. auto.
  - change (-1 =? 0) with false. cbv iota. rewrite H4.
    destruct (e =? EAGAIN).
    + exists w1. auto.
    + exists (RS_LOG LOG_WARNING w1). cbn. auto.
Qed.

Lemma shutdown_read_case_spec (k : tcp_answers) (w : world)
    (peer : rs_peer) (rbuf_size : Z) :
  exists w1,
    calls w1
    = calls w ++ drain_calls (socket_fd peer) rbuf_size (k_pending k) /\
    free_slots w1 = free_slots w /\
    shutdown_read_case k w peer rbuf_size
    = if ends_in_eagain (k_last k)
      then (Returned RS_OK, (set_is_writing false peer, w1))
      else (Broke, (set_mortality RS_MORTALITY_DEAD peer, w1)).
Proof.
  unfold shutdown_read_case.
  destruct (read_bidirectional_tcp_shutdown_spec (k_pending k) (k_last k)
              w peer rbuf_size) as (w1 & Hc & Hf & Heq).
  rewrite Heq. exists w1. repeat split; auto.
  destruct (ends_in_eagain (k_last k)); reflexivity.
Qed.

Lemma not_zero_peer (p : rs_peer) :
  mortality p <> RS_MORTALITY_LIVE -> p <> zero_peer.
Proof. intros H E. subst p. now apply H. Qed.

Lemma close_and_free_spec (a : answer) (w : world) (peer : rs_peer)
    (peer_i : Z) :
  exists w2,
    close_and_free a w peer peer_i = (RS_OK, (zero_peer, w2)) /\
    calls w2 = calls w ++ [Sys_close (socket_fd peer)] /\
    free_slots w2 = peer_i :: free_slots w.
Proof.
  unfold close_and_free. eexists. split; [reflexivity|].
  destruct (ret a =? -1); split; reflexivity.
Qed.

Lemma closed_fds_drain (cs : list syscall) (fd rbuf_size : Z)
    (pending : list positive) :
  closed_fds (cs ++ drain_calls fd rbuf_size pending) = closed_fds cs.
Proof.
  unfold drain_calls. rewrite closed_fds_app, closed_fds_reads.
  apply app_nil_r.
Qed.

(** C5. Entered with mortality SHUTDOWN_WRITE, handle_tcp_io calls
    shutdown(SHUT_WR) first. When that call succeeds mortality becomes
    SHUTDOWN_READ and the same invocation goes on with the read-drain
    step, exactly as if it had been entered with SHUTDOWN_READ (each
    step falls through to the next on success); when it fails FATAL is
    returned at once and the slot is left as it was. The read-drain step
    issues its reads and either ends in EAGAIN, and handle_tcp_io
    returns OK with the slot intact, or sets mortality to DEAD. The code
    after the switch (close the socket, zero the slot, free it) runs
    exactly when the switch is left with mortality DEAD; on every other
    path no descriptor is closed, the free list is unchanged and the
    slot is not zeroed. *)
Theorem handle_tcp_io_shutdown_sequence
    (init_tls_session : rs_peer -> rs_ret * rs_peer) (k : tcp_answers)
    (w : world) (peer : rs_peer) (rbuf_size peer_i : Z) :
  (mortality peer = RS_MORTALITY_SHUTDOWN_WRITE ->
   ret (k_shutdown k) <> -1 ->
   exists w1,
     write_bidirectional_tcp_shutdown (k_shutdown k) w peer
     = (RS_OK, (set_mortality RS_MORTALITY_SHUTDOWN_READ peer, w1)) /\
     calls w1 = calls w ++ [Sys_shutdown_wr (socket_fd peer)] /\
     handle_tcp_io init_tls_session k w peer rbuf_size peer_i
     = handle_tcp_io init_tls_session k w1
         (set_mortality RS_MORTALITY_SHUTDOWN_READ peer) rbuf_size peer_i) /\
  (mortality peer = RS_MORTALITY_SHUTDOWN_WRITE ->
   ret (k_shutdown k) = -1 ->
   exists w1,
     handle_tcp_io init_tls_session k w peer rbuf_size peer_i
     = (RS_FATAL, (peer, w1)) /\
     calls w1 = calls w ++ [Sys_shutdown_wr (socket_fd peer)] /\
     free_slots w1 = free_slots w) /\
  (mortality peer = RS_MORTALITY_SHUTDOWN_READ ->
   exists w1,
     calls w1
     = calls w ++ drain_calls (socket_fd peer) rbuf_size (k_pending k) /\
     mortality_switch init_tls_session k w peer rbuf_size
     = if ends_in_eagain (k_last k)
       then (Returned RS_OK, (set_is_writing false peer, w1))
       else (Broke, (set_mortality RS_MORTALITY_DEAD peer, w1))) /\
  match mortality_switch init_tls_session k w peer rbuf_size with
  | (Returned r, (peer1, w1)) =>
      handle_tcp_io init_tls_session k w peer rbuf_size peer_i
      = (r, (peer1, w1)) /\
      free_slots w1 = free_slots w /\
      closed_fds (calls w1) = closed_fds (calls w) /\
      (mortality peer <> RS_MORTALITY_LIVE ->
       mortality peer1 <> RS_MORTALITY_DEAD /\ peer1 <> zero_peer)
  | (Broke, (peer1, w1)) =>
      mortality peer1 = RS_MORTALITY_DEAD /\
      socket_fd peer1 = socket_fd peer /\
      exists w2,
        handle_tcp_io init_tls_session k w peer rbuf_size peer_i
        = (RS_OK, (zero_peer, w2)) /\
        calls w2 = calls w1 ++ [Sys_close (socket_fd peer)] /\
        free_slots w2 = peer_i :: free_slots w
  end.
Proof.
  split; [|split; [|split]].
  - intros Hm Hs.
    assert (Hne : (ret (k_shutdown k) =? -1) = false)
      by now apply Z.eqb_neq.
    unfold handle_tcp_io, mortality_switch, write_bidirectional_tcp_shutdown.
    rewrite Hm, Hne. cbn [set_mortality mortality RS_GUARD fst snd].
    eexists. split; [reflexivity|]. split; reflexivity.
  - intros Hm Hs.
    unfold handle_tcp_io, mortality_switch, write_bidirectional_tcp_shutdown.
    rewrite Hm, Hs. cbn [RS_GUARD Z.eqb Pos.eqb].
    eexists. split; [reflexivity|]. split; reflexivity.
  - intro Hm. unfold mortality_switch. rewrite Hm.
    destruct (shutdown_read_case_spec k w peer rbuf_size)
      as (w1 & Hc & _ & Heq).
    exists w1. split; [exact Hc|exact Heq].
  - unfold handle_tcp_io, mortality_switch.
    destruct (mortality peer) eqn:Hm.
    + destruct (is_encrypted peer).
      * destruct (init_tls_session (set_layer RS_LAYER_TLS peer))
          as [[] p1]; cbn [RS_GUARD]; repeat split; congruence.
      * repeat split; congruence.
    + unfold write_bidirectional_tcp_shutdown.
      destruct (ret (k_shutdown k) =? -1); cbn [RS_GUARD fst snd].
      * repeat split; cbn; try congruence.
        -- rewrite closed_fds_app. cbn. apply app_nil_r.
        -- apply not_zero_peer. congruence.
      * destruct (shutdown_read_case_spec k
                    (sys_call (Sys_shutdown_wr (socket_fd peer))
                       (k_shutdown k) w)
                    (set_mortality RS_MORTALITY_SHUTDOWN_READ peer)
                    rbuf_size) as (w1 & Hc & Hf & Heq).
        rewrite Heq. destruct (ends_in_eagain (k_last k)).
        -- repeat split; cbn; try congruence; try discriminate.
           ++ exact Hf.
           ++ rewrite Hc, closed_fds_drain. cbn.
              rewrite closed_fds_app. cbn. apply app_nil_r.
        -- destruct (close_and_free_spec (k_close k) w1
                       (set_mortality RS_MORTALITY_DEAD
                          (set_mortality RS_MORTALITY_SHUTDOWN_READ peer))
                       peer_i) as (w2 & He2 & Hc2 & Hf2).
           split; [reflexivity|]. split; [reflexivity|].
        exists w2. rewrite He2, Hc2, Hf2, Hf. auto.
    + destruct (shutdown_read_case_spec k w peer rbuf_size)
        as (w1 & Hc & Hf & Heq).
      rewrite Heq. destruct (ends_in_eagain (k_last k)).
      * repeat split; cbn; try congruence; try discriminate.
        -- rewrite Hc. apply closed_fds_drain.
        -- apply not_zero_peer. cbn. congruence.
      * destruct (close_and_free_spec (k_close k) w1
                    (set_mortality RS_MORTALITY_DEAD peer) peer_i)
          as (w2 & He2 & Hc2 & Hf2).
        split; [reflexivity|]. split; [reflexivity|].
        exists w2. rewrite He2, Hc2, Hf2, Hf. auto.
    + destruct (close_and_free_spec (k_close k) w peer peer_i)
        as (w2 & He2 & Hc2 & Hf2).
      split; [exact Hm|]. split; [reflexivity|].
      exists w2. rewrite He2, Hc2, Hf2. auto.
Qed.

Lemma handle_tcp_io_shutdown_sequence_witness :
  exists w1,
    write_bidirectional_tcp_shutdown (k_shutdown fin_answers) quiet_world
      closing_peer
    = (RS_OK, (set_mortality RS_MORTALITY_SHUTDOWN_READ closing_peer, w1)) /\
    calls w1
    = calls quiet_world ++ [Sys_shutdown_wr (socket_fd closing_peer)] /\
    handle_tcp_io no_tls fin_answers quiet_world closing_peer 4096 3
    = handle_tcp_io no_tls fin_answers w1
        (set_mortality RS_MORTALITY_SHUTDOWN_READ closing_peer) 4096 3.
Proof.
  apply (proj1 (handle_tcp_io_shutdown_sequence no_tls fin_answers
                  quiet_world closing_peer 4096 3)).
  - reflexivity.
  - simpl. lia.
Defined.

(** shutdown() fails with ENOTCONN (107): FATAL, one system call, the
    peer as it was. *)
Example handle_tcp_io_shutdown_fails :
  handle_tcp_io no_tls
    {| k_shutdown := {| ret := -1; err := 107 |}; k_pending := [];
       k_last := Read_zero; k_close := {| ret := 0; err := 0 |} |}
    quiet_world closing_peer 4096 3
  = (RS_FATAL,
     (closing_peer,
      {| errno := 107; wire_out := []; calls := [Sys_shutdown_wr 9];
         logs := [LOG_CRIT]; free_slots := [];
         _rs_log_max := priority LOG_NOTICE |})).
Proof. reflexivity. Qed.

(** The drain ends in EAGAIN: OK, the slot intact, nothing closed; at
    the log level [LOG_NOTICE] the debug lines of the drain are not
    logged. *)
Example handle_tcp_io_drain_again :
  handle_tcp_io no_tls
    {| k_shutdown := {| ret := 0; err := 0 |}; k_pending := [5%positive];
       k_last := Read_fails EAGAIN; k_close := {| ret := 0; err := 0 |} |}
    quiet_world closing_peer 4096 3
  = (RS_OK,
     (set_is_writing false
        (set_mortality RS_MORTALITY_SHUTDOWN_READ closing_peer),
      {| errno := EAGAIN; wire_out := [];
         calls := [Sys_shutdown_wr 9; Sys_read 9 4096; Sys_read 9 4096];
         logs := []; free_slots := [];
         _rs_log_max := priority LOG_NOTICE |})).
Proof. reflexivity. Qed.

(** The whole sequence on that peer: shutdown, three reads, close; the
    slot zeroed and slot 3 on the free list. At the log level
    [LOG_DEBUG] each read of the drain leaves a line. *)
Example handle_tcp_io_fin_run :
  handle_tcp_io no_tls fin_answers verbose_world closing_peer 4096 3
  = (RS_OK,
     (zero_peer,
      {| errno := 0; wire_out := [];
         calls := [Sys_shutdown_wr 9; Sys_read 9 4096; Sys_read 9 4096;
                   Sys_read 9 4096; Sys_close 9];
         logs := [LOG_DEBUG; LOG_DEBUG; LOG_DEBUG];
         free_slots := [3]; _rs_log_max := priority LOG_DEBUG |})).
Proof. reflexivity. Qed.

(** ** [rs_send] *)

Section SendProperties.

Variable P : platform.

Local Abbreviation store4 := (store_uint (little_endian P) 4).

Lemma write_recipients_spec (c : nat) (recipients : list Z)
    (ring : rs_ring) :
  write_recipients P c recipients ring
  = ring ++ flat_map store4 (firstn c recipients).
Proof.
  revert recipients ring.
  induction c as [|c IH]; intros [|r rest] ring; cbn [write_recipients];
    try (cbn; now rewrite app_nil_r).
  rewrite IH. cbn [firstn flat_map]. now rewrite <- app_assoc.
Qed.

(** The stores of [rs_send], as one sequence of bytes. *)
Lemma rs_send_write_eq (n : rs) (ring : rs_ring) (k : rs_outbound_kind)
    (recipients : list Z) (recipient_c : Z) (is_utf8 : bool)
    (p : list byte) (size payload_size msg_size : Z) :
  rs_send_write P n ring k recipients recipient_c is_utf8 p size
    payload_size msg_size
  = ring ++ [kind_code k]
    ++ (if recipient_c =? 0 then []
        else (if 1 <? recipient_c then store4 recipient_c else [])
             ++ flat_map store4 (firstn (Z.to_nat recipient_c) recipients))
    ++ [ws_opcode is_utf8]
    ++ (if UINT16_MAX <? msg_size then 127 :: be_bytes 8 payload_size
        else if 125 <? msg_size then 126 :: be_bytes 2 payload_size
        else [])
    ++ scratch n ++ firstn (Z.to_nat size) p.
Proof.
  unfold rs_send_write, ws_opcode.
  replace (to_uint8 (kind_code k)) with (kind_code k)
    by (destruct k; reflexivity).
  rewrite !RS_W_HTON_be.
  assert (Hs : (wbuf_i n =? 0) = true -> scratch n = []).
  { intro H0. apply Z.eqb_eq in H0. unfold scratch. rewrite H0.
    now destruct (wbuf n). }
  assert (Hp : (size =? 0) = true -> firstn (Z.to_nat size) p = []).
  { intro H0. apply Z.eqb_eq in H0. now rewrite H0. }
  destruct (wbuf_i n =? 0); [rewrite (Hs eq_refl)|];
    (destruct (size =? 0); [rewrite (Hp eq_refl)|]);
    destruct (recipient_c =? 0), (1 <? recipient_c),
      (UINT16_MAX <? msg_size), (125 <? msg_size);
    rewrite ?write_recipients_spec;
    repeat (rewrite <- ?app_assoc; cbn [app]); rewrite ?app_nil_r;
    reflexivity.
Qed.

Lemma msg_size_no_wrap (payload : Z) :
  0 <= payload <= SIZE_MAX - 11 ->
  to_size_t
    ((if UINT16_MAX <? payload then to_size_t (payload + 10)
      else if 125 <? payload then to_size_t (payload + 4)
      else to_size_t (payload + 2)) + 1)
  = ws_msg_size payload.
Proof.
  intro H. unfold ws_msg_size.
  assert (Hk : forall k, 0 <= k <= 10 ->
             to_size_t (to_size_t (payload + k) + 1) = payload + k + 1).
  { intros k Hk. rewrite (to_size_t_small (payload + k)) by lia.
    apply to_size_t_small. lia. }
  destruct (UINT16_MAX <? payload); [|destruct (125 <? payload)];
    apply Hk; lia.
Qed.

Lemma length_bytes_stored (payload : Z) :
  0 <= payload ->
  (if UINT16_MAX <? ws_msg_size payload then 127 :: be_bytes 8 payload
   else if 125 <? ws_msg_size payload then 126 :: be_bytes 2 payload
   else [])
  = ws_length_stored payload.
Proof.
  intro H. unfold ws_msg_size, ws_length_stored, UINT16_MAX.
  destruct (65535 <? payload) eqn:H1; [|destruct (125 <? payload) eqn:H2];
    repeat match goal with
    | |- context [?a <? ?b] => destruct (Z.ltb_spec a b)
    | |- context [?a <=? ?b] => destruct (Z.leb_spec a b)
    end; try reflexivity;
    rewrite ?Z.ltb_lt, ?Z.ltb_ge in *; lia.
Qed.

(** What an accepted [rs_send] leaves behind, when the ring has room:
    one record on the ring of [worker_i], every other ring and the
    scratch buffer as they were; its result is the one of the queue. *)
Lemma rs_send_accepted (n : rs) (worker_i : Z) (k : rs_outbound_kind)
    (recipients : list Z) (recipient_c : Z) (is_utf8 : bool)
    (p : list byte) (size : Z) (ring' : rs_ring) :
  recipient_c = Z.of_nat (length recipients) ->
  0 <= wbuf_i n -> 0 <= size ->
  wbuf_i n + size <= max_ws_msg_size (conf n) ->
  wbuf_i n + size <= SIZE_MAX - 11 ->
  rs_prepare_ring_write P worker_i (outbound_rings n worker_i)
    (ws_msg_size (wbuf_i n + size)) = (RS_OK, ring') ->
  let ring :=
    ring' ++ routing_header P k recipients
    ++ ws_opcode is_utf8
       :: ws_length_stored (wbuf_i n + size)
       ++ scratch n ++ firstn (Z.to_nat size) p in
  let n' :=
    snd (rs_send P n worker_i k recipients recipient_c is_utf8 p size) in
  fst (rs_send P n worker_i k recipients recipient_c is_utf8 p size)
  = fst (rs_enqueue_ring_update P (ring_update_queue n)
           (Z.of_nat (length ring)) worker_i) /\
  outbound_rings n' worker_i = ring /\
  (forall j, j <> worker_i -> outbound_rings n' j = outbound_rings n j) /\
  conf n' = conf n /\ wbuf n' = wbuf n /\ wbuf_i n' = wbuf_i n /\
  wbuf_size n' = wbuf_size n.
Proof.
  intros Hrc Hi Hsize Hmax Hcap Hprep ring n'.
  assert (Hpay : to_size_t (wbuf_i n + size) = wbuf_i n + size)
    by (apply to_size_t_small; unfold SIZE_MAX in *; lia).
  assert (Hring :
    rs_send_write P n ring' k recipients recipient_c is_utf8 p size
      (wbuf_i n + size) (ws_msg_size (wbuf_i n + size)) = ring).
  { rewrite rs_send_write_eq, length_bytes_stored by lia.
    unfold ring, routing_header. rewrite Hrc, Nat2Z.id.
    rewrite firstn_all.
    destruct (Z.of_nat (length recipients) =? 0) eqn:H0.
    - apply Z.eqb_eq in H0. destruct recipients; [|discriminate].
      cbn. reflexivity.
    - rewrite <- !app_assoc. reflexivity. }
  subst n'. unfold rs_send. rewrite Hpay.
  replace (max_ws_msg_size (conf n) <? wbuf_i n + size) with false
    by (symmetry; apply Z.ltb_ge; lia).
  rewrite msg_size_no_wrap by lia. rewrite Hprep.
  unfold RS_GUARD_APP, RS_GUARD.
  cbn [outbound_rings set_ring ring_update_queue].
  rewrite Z.eqb_refl.
  assert (Hw :
    rs_send_write P (set_ring worker_i ring' n) ring' k recipients
      recipient_c is_utf8 p size (wbuf_i n + size)
      (ws_msg_size (wbuf_i n + size)) = ring).
  { rewrite <- Hring. reflexivity. }
  rewrite Hw.
  destruct (rs_enqueue_ring_update P (ring_update_queue n)
              (Z.of_nat (length ring)) worker_i) as [r q].
  destruct r; cbn; rewrite Z.eqb_refl; repeat split; auto;
    intros j Hj; apply Z.eqb_neq in Hj; now rewrite Hj.
Qed.

(** An oversize payload: [RS_FATAL], and nothing at all is changed. *)
Lemma rs_send_oversize (n : rs) (worker_i : Z) (k : rs_outbound_kind)
    (recipients : list Z) (recipient_c : Z) (is_utf8 : bool)
    (p : list byte) (size : Z) :
  max_ws_msg_size (conf n) < to_size_t (wbuf_i n + size) ->
  rs_send P n worker_i k recipients recipient_c is_utf8 p size
  = (RS_FATAL, n).
Proof.
  intro H. unfold rs_send.
  now replace (max_ws_msg_size (conf n) <? to_size_t (wbuf_i n + size))
    with true by (symmetry; apply Z.ltb_lt; exact H).
Qed.

(** The length bytes [rs_send] stores agree with the WebSocket length
    field for payloads of 126 to 65530 bytes and of more than 65535, and
    for no other size. *)
Lemma ws_length_stored_vs_field (payload : Z) :
  0 <= payload ->
  (payload <= 125 \/ 65530 < payload <= 65535 ->
   ws_length_stored payload <> ws_length_field payload) /\
  (125 < payload <= 65530 \/ 65535 < payload ->
   ws_length_stored payload = ws_length_field payload).
Proof.
  intro H0. unfold ws_length_stored, ws_length_field, UINT16_MAX.
  repeat match goal with
  | |- context [?a <=? ?b] => destruct (Z.leb_spec a b)
  end; split; intro Hc; try lia; try discriminate; try reflexivity.
Qed.

(** The WebSocket header [rs_send] stores (opcode byte and length bytes)
    is 1, 4 or 10 bytes long. *)
Lemma ws_header_length_stored (is_utf8 : bool) (payload : Z) :
  length (ws_opcode is_utf8 :: ws_length_stored payload)
  = if payload <=? 122 then 1%nat
    else if payload <=? 65530 then 4%nat else 10%nat.
Proof.
  unfold ws_length_stored.
  destruct (payload <=? 122); [reflexivity|].
  destruct (payload <=? 65530); cbn [length]; unfold be_bytes;
    now rewrite length_rev, le_bytes_length.
Qed.

(** C1. For an accepted send of P = scratch_len + user_size bytes,
    rs_send stores after the opcode byte (0x81 or 0x82) no length byte
    at all when P <= 122, the byte 126 and P as a big-endian u16 when
    123 <= P <= 65530, and the byte 127 and P as a big-endian u64 when
    P > 65530: the second selection tests msg_size, not payload_size,
    and has no branch for the one-byte form. What is stored is the
    WebSocket length field only for 126 <= P <= 65530 and P > 65535. *)
Theorem rs_send_length_bytes_as_stored (n : rs) (worker_i : Z)
    (k : rs_outbound_kind) (recipients : list Z) (is_utf8 : bool)
    (p : list byte) (size : Z) (ring' : rs_ring) :
  0 <= wbuf_i n -> 0 <= size ->
  wbuf_i n + size <= max_ws_msg_size (conf n) ->
  wbuf_i n + size <= SIZE_MAX - 11 ->
  rs_prepare_ring_write P worker_i (outbound_rings n worker_i)
    (ws_msg_size (wbuf_i n + size)) = (RS_OK, ring') ->
  outbound_rings
    (snd (rs_send P n worker_i k recipients
            (Z.of_nat (length recipients)) is_utf8 p size)) worker_i
  = ring' ++ routing_header P k recipients
    ++ ws_opcode is_utf8
       :: ws_length_stored (wbuf_i n + size)
       ++ scratch n ++ firstn (Z.to_nat size) p /\
  (wbuf_i n + size <= 125 \/ 65530 < wbuf_i n + size <= 65535 ->
   ws_length_stored (wbuf_i n + size)
   <> ws_length_field (wbuf_i n + size)) /\
  (125 < wbuf_i n + size <= 65530 \/ 65535 < wbuf_i n + size ->
   ws_length_stored (wbuf_i n + size)
   = ws_length_field (wbuf_i n + size)).
Proof.
  intros Hi Hsize Hmax Hcap Hprep.
  split.
  - now apply (rs_send_accepted n worker_i k recipients
                 (Z.of_nat (length recipients)) is_utf8 p size ring').
  - apply ws_length_stored_vs_field. lia.
Qed.

(** A payload of exactly [max_ws_msg_size] bytes passes the check of
    [rs_send]: with room in the ring and in the queue the record is
    stored and the result is [RS_OK]. *)
Lemma rs_send_at_limit (n : rs) (worker_i : Z) (k : rs_outbound_kind)
    (recipients : list Z) (is_utf8 : bool) (p : list byte) (size : Z)
    (ring' : rs_ring) :
  0 <= wbuf_i n -> 0 <= size ->
  wbuf_i n + size = max_ws_msg_size (conf n) ->
  wbuf_i n + size <= SIZE_MAX - 11 ->
  rs_prepare_ring_write P worker_i (outbound_rings n worker_i)
    (ws_msg_size (wbuf_i n + size)) = (RS_OK, ring') ->
  (forall q pos, fst (rs_enqueue_ring_update P q pos worker_i) = RS_OK) ->
  fst (rs_send P n worker_i k recipients (Z.of_nat (length recipients))
         is_utf8 p size) = RS_OK /\
  outbound_rings
    (snd (rs_send P n worker_i k recipients
            (Z.of_nat (length recipients)) is_utf8 p size)) worker_i
  = ring' ++ routing_header P k recipients
    ++ ws_opcode is_utf8
       :: ws_length_stored (wbuf_i n + size)
       ++ scratch n ++ firstn (Z.to_nat size) p.
Proof.
  intros Hi Hsize Hmax Hcap Hprep Hq.
  destruct (rs_send_accepted n worker_i k recipients
              (Z.of_nat (length recipients)) is_utf8 p size ring')
    as (Hr & Hring & _); auto; try lia.
  split; [|exact Hring]. rewrite Hr. apply Hq.
Qed.

(** C4. A send whose payload is exactly max_ws_msg_size passes the
    check of rs_send: with room in the ring and in the queue the record
    is stored and rs_send returns OK. A send whose payload exceeds
    max_ws_msg_size takes the FATAL return of rs_send and stores nothing
    on any ring; rs_to_single drops that result and goes on to
    [n->wbuf_i = 0]: the scratch offset is reset all the same. *)
Theorem rs_to_single_size_limit (n : rs) (is_utf8 : bool)
    (client_id : Z) (p : list byte) (size : Z) :
  (0 <= wbuf_i n -> 0 <= size ->
   wbuf_i n + size = max_ws_msg_size (conf n) ->
   wbuf_i n + size <= SIZE_MAX - 11 ->
   forall ring',
     rs_prepare_ring_write P (first_word P client_id)
       (outbound_rings n (first_word P client_id))
       (ws_msg_size (wbuf_i n + size)) = (RS_OK, ring') ->
     (forall q pos,
        fst (rs_enqueue_ring_update P q pos (first_word P client_id))
        = RS_OK) ->
     fst (rs_send P n (first_word P client_id) RS_OUTBOUND_SINGLE
            [second_word P client_id] 1 is_utf8 p size) = RS_OK /\
     outbound_rings (rs_to_single P n is_utf8 client_id p size)
       (first_word P client_id)
     = ring'
       ++ routing_header P RS_OUTBOUND_SINGLE [second_word P client_id]
       ++ ws_opcode is_utf8
          :: ws_length_stored (wbuf_i n + size)
          ++ scratch n ++ firstn (Z.to_nat size) p) /\
  (max_ws_msg_size (conf n) < to_size_t (wbuf_i n + size) ->
   rs_send P n (first_word P client_id) RS_OUTBOUND_SINGLE
     [second_word P client_id] 1 is_utf8 p size = (RS_FATAL, n) /\
   rs_to_single P n is_utf8 client_id p size = set_wbuf_i 0 n /\
   outbound_rings (rs_to_single P n is_utf8 client_id p size)
   = outbound_rings n /\
   wbuf_i (rs_to_single P n is_utf8 client_id p size) = 0).
Proof.
  assert (Hto :
    rs_to_single P n is_utf8 client_id p size
    = set_wbuf_i 0
        (snd (rs_send P n (first_word P client_id) RS_OUTBOUND_SINGLE
                [second_word P client_id] 1 is_utf8 p size)))
    by reflexivity.
  split.
  - intros Hi Hsize Hmax Hcap ring' Hprep Hq.
    destruct (rs_send_at_limit n (first_word P client_id)
                RS_OUTBOUND_SINGLE [second_word P client_id] is_utf8 p
                size ring' Hi Hsize Hmax Hcap Hprep Hq) as (Hr & Hring).
    split; [exact Hr|]. rewrite Hto. exact Hring.
  - intro Hover.
    assert (Hsend := rs_send_oversize n (first_word P client_id)
                       RS_OUTBOUND_SINGLE [second_word P client_id] 1
                       is_utf8 p size Hover).
    split; [exact Hsend|]. rewrite Hto, Hsend. repeat split.
Qed.

End SendProperties.

(** [to_cur(utf8 = true, "yo", 2)]: the ring receives the opcode byte and
    the payload with no length byte between them. *)
Lemma rs_send_length_bytes_as_stored_witness :
  outbound_rings
    (snd (rs_send (plain_platform true) (fresh_rs 1000 2 0 7) 0
            RS_OUTBOUND_SINGLE [7] (Z.of_nat (length [7])) true
            [121; 111] 2)) 0
  = [0; 7; 0; 0; 0; 129; 121; 111] /\
  ws_length_stored 2 <> ws_length_field 2.
Proof.
  destruct (rs_send_length_bytes_as_stored (plain_platform true)
              (fresh_rs 1000 2 0 7) 0 RS_OUTBOUND_SINGLE [7] true
              [121; 111] 2 [])
    as (Hring & Hdiff & _).
  - simpl. lia.
  - lia.
  - simpl. lia.
  - unfold SIZE_MAX. simpl. lia.
  - reflexivity.
  - split; [exact Hring|]. apply Hdiff. simpl. lia.
Defined.

(** The first end-to-end scenario of the specification,
    [to_cur(utf8 = true, "yo", 2)] for peer 7 of worker 0. *)
Example rs_to_cur_yo :
  outbound_rings
    (rs_to_cur (plain_platform true) (fresh_rs 1000 2 0 7) true
       [121; 111] 2) 0
  = [0; 7; 0; 0; 0; 129; 121; 111].
Proof. reflexivity. Qed.

(** 123 bytes: the 16-bit form, where one length byte would do. *)
Example rs_send_123_bytes :
  firstn 10
    (outbound_rings
       (snd (rs_send (plain_platform true) (fresh_rs 1000 2 0 7) 0
               RS_OUTBOUND_SINGLE [7] 1 true (repeat 65 123) 123)) 0)
  = [0; 7; 0; 0; 0; 129; 126; 0; 123; 65].
Proof. reflexivity. Qed.

(** 65531 bytes: the 64-bit form, where the 16-bit form would do. *)
Example rs_send_65531_bytes :
  firstn 16
    (outbound_rings
       (snd (rs_send (plain_platform true) (fresh_rs 100000 2 0 7) 0
               RS_OUTBOUND_SINGLE [7] 1 true
               (repeat 65 (Z.to_nat 65531)) 65531)) 0)
  = [0; 7; 0; 0; 0; 129; 127; 0; 0; 0; 0; 0; 0; 255; 251; 65].
Proof. vm_compute. reflexivity. Qed.

(** 126 bytes: the 16-bit form, as RFC 6455 has it. *)
Example rs_send_126_bytes :
  firstn 10
    (outbound_rings
       (snd (rs_send (plain_platform true) (fresh_rs 1000 2 0 7) 0
               RS_OUTBOUND_SINGLE [7] 1 true (repeat 65 126) 126)) 0)
  = [0; 7; 0; 0; 0; 129; 126; 0; 126; 65].
Proof. reflexivity. Qed.

(** [max_ws_msg_size = 16], ten bytes in the scratch buffer, seven more
    to send. *)
Lemma rs_to_single_size_limit_witness :
  wbuf_i ten_in_scratch = 10 /\
  rs_send (plain_platform true) ten_in_scratch
    (first_word (plain_platform true) 30064771072) RS_OUTBOUND_SINGLE
    [second_word (plain_platform true) 30064771072] 1 false
    [1; 2; 3; 4; 5; 6; 7] 7 = (RS_FATAL, ten_in_scratch) /\
  outbound_rings
    (rs_to_single (plain_platform true) ten_in_scratch false 30064771072
       [1; 2; 3; 4; 5; 6; 7] 7)
  = outbound_rings ten_in_scratch /\
  wbuf_i
    (rs_to_single (plain_platform true) ten_in_scratch false 30064771072
       [1; 2; 3; 4; 5; 6; 7] 7) = 0.
Proof.
  split; [reflexivity|].
  destruct (proj2 (rs_to_single_size_limit (plain_platform true)
                     ten_in_scratch false 30064771072
                     [1; 2; 3; 4; 5; 6; 7] 7))
    as (Hsend & _ & Hrings & Hi).
  - vm_compute. reflexivity.
  - split; [exact Hsend|]. split; [exact Hrings|exact Hi].
Defined.

(** Six user bytes instead of seven: the payload is exactly
    [max_ws_msg_size] and the record is stored. *)
Example rs_to_single_at_limit_run :
  outbound_rings
    (rs_to_single (plain_platform true) ten_in_scratch false 30064771072
       [11; 12; 13; 14; 15; 16] 6) 0
  = [0; 7; 0; 0; 0; 130; 1; 2; 3; 4; 5; 6; 7; 8; 9; 10; 11; 12; 13; 14; 15;
     16].
Proof. reflexivity. Qed.

(** ** Client ids *)

Section ClientIdProperties.

Variable P : platform.

Local Abbreviation le := (little_endian P).

Lemma pow256_4 : 256 ^ Z.of_nat 4 = 2 ^ 32.
Proof. reflexivity. Qed.

Lemma pow256_8 : 256 ^ Z.of_nat 8 = 2 ^ 64.
Proof. reflexivity. Qed.

(** The eight bytes of a client id are the four of the worker index
    followed by the four of the peer index. *)
Lemma client_id_bytes (n0 : rs) :
  store_uint le 8 (to_uint64 (rs_get_client_id P n0))
  = store_uint le 4 (src_worker_thread_i n0)
    ++ store_uint le 4 (src_peer_i n0).
Proof.
  unfold rs_get_client_id.
  set (bs := store_uint le 4 (src_worker_thread_i n0)
             ++ store_uint le 4 (src_peer_i n0)).
  assert (Hlen : length bs = 8%nat)
    by (unfold bs; rewrite length_app, !store_uint_length; reflexivity).
  assert (Hrange : Forall is_byte bs)
    by (unfold bs; apply Forall_app; split; apply store_uint_range).
  assert (Hb := load_uint_bounds le bs Hrange).
  rewrite Hlen, pow256_8 in Hb.
  unfold to_uint64. rewrite Z.mod_small by exact Hb.
  rewrite <- Hlen. now apply store_load_uint.
Qed.

(** Unpacking returns what was packed. *)
Lemma client_id_words (n0 : rs) :
  0 <= src_worker_thread_i n0 < 2 ^ 32 ->
  0 <= src_peer_i n0 < 2 ^ 32 ->
  first_word P (rs_get_client_id P n0) = src_worker_thread_i n0 /\
  second_word P (rs_get_client_id P n0) = src_peer_i n0.
Proof.
  intros Hw Hp. unfold first_word, second_word.
  rewrite client_id_bytes.
  rewrite firstn_app, skipn_app, !store_uint_length.
  rewrite firstn_all2 by (rewrite store_uint_length; lia).
  rewrite skipn_all2 by (rewrite store_uint_length; lia).
  cbn [Nat.sub firstn skipn app]. rewrite app_nil_r.
  rewrite !load_store_uint, pow256_4.
  split; apply Z.mod_small; assumption.
Qed.

(** Which half of the integer holds which word depends on the byte order
    of the host. *)
Lemma client_id_value (n0 : rs) :
  0 <= src_worker_thread_i n0 < 2 ^ 32 ->
  0 <= src_peer_i n0 < 2 ^ 32 ->
  rs_get_client_id P n0
  = if le
    then src_worker_thread_i n0 + 2 ^ 32 * src_peer_i n0
    else src_peer_i n0 + 2 ^ 32 * src_worker_thread_i n0.
Proof.
  intros Hw Hp. unfold rs_get_client_id, load_uint, store_uint, be_value,
    be_bytes.
  destruct le.
  - rewrite le_value_app, le_bytes_length, !le_value_le_bytes, pow256_4.
    now rewrite !Z.mod_small by assumption.
  - rewrite rev_app_distr, !rev_involutive.
    rewrite le_value_app, le_bytes_length, !le_value_le_bytes, pow256_4.
    now rewrite !Z.mod_small by assumption.
Qed.

Lemma halves_of_sum (a b : Z) :
  0 <= a < 2 ^ 32 -> 0 <= b < 2 ^ 32 ->
  lo32 (a + 2 ^ 32 * b) = a /\ hi32 (a + 2 ^ 32 * b) = b.
Proof.
  intros Ha Hb. unfold lo32, hi32, to_uint64.
  rewrite (Z.mod_small (a + 2 ^ 32 * b)) by lia.
  replace (a + 2 ^ 32 * b) with (a + b * 2 ^ 32) by ring.
  rewrite Z.mod_add, Z.div_add by lia.
  rewrite Z.mod_small, Z.div_small by lia. lia.
Qed.

(** C3, amended. For a client id packed by rs_get_client_id from
    (worker_i, peer_i), rs_to_single sends to the ring of worker_i with
    kind SINGLE and the one recipient peer_i: it reads back the two
    32-bit words in the order they were packed. On a big-endian host
    worker_i is the high-order half of the id and peer_i the low-order
    half; on a little-endian host worker_i is the low-order half and
    peer_i the high-order half. *)
Theorem rs_to_single_addresses_packed_words (n0 n : rs) (is_utf8 : bool)
    (p : list byte) (size : Z) :
  0 <= src_worker_thread_i n0 < 2 ^ 32 ->
  0 <= src_peer_i n0 < 2 ^ 32 ->
  rs_to_single P n is_utf8 (rs_get_client_id P n0) p size
  = set_wbuf_i 0
      (snd (rs_send P n (src_worker_thread_i n0) RS_OUTBOUND_SINGLE
              [src_peer_i n0] 1 is_utf8 p size)) /\
  (little_endian P = false ->
   hi32 (rs_get_client_id P n0) = src_worker_thread_i n0 /\
   lo32 (rs_get_client_id P n0) = src_peer_i n0) /\
  (little_endian P = true ->
   lo32 (rs_get_client_id P n0) = src_worker_thread_i n0 /\
   hi32 (rs_get_client_id P n0) = src_peer_i n0).
Proof.
  intros Hw Hp.
  destruct (client_id_words n0 Hw Hp) as [H1 H2].
  split; [|split].
  - unfold rs_to_single.
    fold (first_word P (rs_get_client_id P n0)).
    fold (second_word P (rs_get_client_id P n0)).
    now rewrite H1, H2.
  - intro Hle. rewrite (client_id_value n0 Hw Hp), Hle.
    destruct (halves_of_sum _ _ Hp Hw). auto.
  - intro Hle. rewrite (client_id_value n0 Hw Hp), Hle.
    destruct (halves_of_sum _ _ Hw Hp). auto.
Qed.

End ClientIdProperties.

(** On a big-endian host, pack(0, 7) is sent to worker 0 for peer 7. *)
Lemma rs_to_single_addresses_packed_words_witness :
  outbound_rings
    (rs_to_single (plain_platform false) (fresh_rs 1000 2 0 0) false
       (rs_get_client_id (plain_platform false) (fresh_rs 1000 2 0 7))
       [65; 66] 2) 0
  = outbound_rings
      (snd (rs_send (plain_platform false) (fresh_rs 1000 2 0 0) 0
              RS_OUTBOUND_SINGLE [7] 1 false [65; 66] 2)) 0 /\
  hi32 (rs_get_client_id (plain_platform false) (fresh_rs 1000 2 0 7)) = 0.
Proof.
  destruct (rs_to_single_addresses_packed_words (plain_platform false)
              (fresh_rs 1000 2 0 7) (fresh_rs 1000 2 0 0) false [65; 66] 2)
    as (Hsend & Hbe & _).
  - simpl. lia.
  - simpl. lia.
  - split.
    + rewrite Hsend. reflexivity.
    + apply Hbe. reflexivity.
Defined.

(** On a little-endian host pack(0, 7) has 7 as its high-order half and
    0 as its low-order half; rs_to_single stores the record for peer 7
    on the ring of worker 0 and nothing on the ring of worker 7. *)
Lemma rs_to_single_hi32_lo32_counterexample :
  ~ to_single_addresses_hi_lo (plain_platform true) (fresh_rs 1000 8 0 0)
      false (rs_get_client_id (plain_platform true) (fresh_rs 1000 8 0 7))
      [65; 66] 2.
Proof.
  unfold to_single_addresses_hi_lo. intro H.
  apply (f_equal (fun n => outbound_rings n 0)) in H.
  vm_compute in H. discriminate H.
Qed.

Example little_endian_pack_0_7 :
  hi32 (rs_get_client_id (plain_platform true) (fresh_rs 1000 8 0 7)) = 7 /\
  lo32 (rs_get_client_id (plain_platform true) (fresh_rs 1000 8 0 7)) = 0 /\
  outbound_rings
    (rs_to_single (plain_platform true) (fresh_rs 1000 8 0 0) false
       (rs_get_client_id (plain_platform true) (fresh_rs 1000 8 0 7))
       [65; 66] 2) 0 = [0; 7; 0; 0; 0; 130; 65; 66] /\
  outbound_rings
    (rs_to_single (plain_platform true) (fresh_rs 1000 8 0 0) false
       (rs_get_client_id (plain_platform true) (fresh_rs 1000 8 0 7))
       [65; 66] 2) 7 = [].
Proof. repeat split. Qed.

(** ** The scratch buffer *)

Section ScratchProperties.

Variable P : platform.

Lemma resized_length (size : nat) (buf : list byte) :
  length (resized size buf) = size.
Proof.
  unfold resized. rewrite length_app, length_firstn, repeat_length. lia.
Qed.

(** The size [rs_check_app_wsize] grows the buffer to, when nothing
    wraps around. *)
Lemma grown_size (m s : Z) :
  2 <= m -> 1 <= s -> m * s <= SIZE_MAX ->
  to_size_t s = s /\ to_size_t (m * s) = m * s /\ s < m * s.
Proof.
  intros Hm Hs Hcap.
  repeat split; try apply to_size_t_small; nia.
Qed.

(** What a successful [rs_check_app_wsize] leaves: the fields it does
    not touch, and the allocation, grown when it had to be. *)
Lemma rs_check_app_wsize_ok (n : rs) (incr_size : Z) (n' : rs) :
  rs_check_app_wsize P n incr_size = (RS_OK, n') ->
  conf n' = conf n /\ wbuf_i n' = wbuf_i n /\
  outbound_rings n' = outbound_rings n /\
  exists b0,
    (wbuf n = Some b0 \/
     wbuf n = None /\ b0 = repeat 0 (Z.to_nat (wbuf_size n))) /\
    if wbuf_size n <=? to_size_t (wbuf_i n + incr_size)
    then
      wbuf_size n'
      = to_size_t (realloc_multiplier (conf n)
                   * to_size_t (wbuf_i n + incr_size)) /\
      wbuf n' = Some (resized (Z.to_nat (wbuf_size n')) b0)
    else wbuf_size n' = wbuf_size n /\ wbuf n' = Some b0.
Proof.
  unfold rs_check_app_wsize, RS_GUARD.
  assert (Hgrow :
    forall n1 b0, conf n1 = conf n -> wbuf_i n1 = wbuf_i n ->
      wbuf_size n1 = wbuf_size n -> outbound_rings n1 = outbound_rings n ->
      wbuf n1 = Some b0 ->
      (if wbuf_size n1 <=? to_size_t (wbuf_i n1 + incr_size)
       then
         let n2 :=
           set_wbuf_size
             (to_size_t (realloc_multiplier (conf n1)
                         * to_size_t (wbuf_i n1 + incr_size))) n1 in
         let '(r, b) := RS_REALLOC P (wbuf n2) (wbuf_size n2) in
         (r, set_wbuf b n2)
       else (RS_OK, n1)) = (RS_OK, n') ->
      conf n' = conf n /\ wbuf_i n' = wbuf_i n /\
      outbound_rings n' = outbound_rings n /\
      if wbuf_size n <=? to_size_t (wbuf_i n + incr_size)
      then
        wbuf_size n'
        = to_size_t (realloc_multiplier (conf n)
                     * to_size_t (wbuf_i n + incr_size)) /\
        wbuf n' = Some (resized (Z.to_nat (wbuf_size n')) b0)
      else wbuf_size n' = wbuf_size n /\ wbuf n' = Some b0).
  { intros n1 b0 Hc Hi Hs Hr Hb. rewrite Hc, Hi, Hs.
    destruct (wbuf_size n <=? to_size_t (wbuf_i n + incr_size)).
    - cbn [wbuf wbuf_size set_wbuf_size]. rewrite Hb. unfold RS_REALLOC.
      destruct (heap_grants P _); intro H; inversion H; subst n'; clear H.
      cbn. auto.
    - intro H; inversion H; subst n'; clear H. auto. }
  destruct (wbuf n) as [b|] eqn:Hb.
  - intro H. destruct (Hgrow n b) as (H1 & H2 & H3 & H4); auto.
    repeat split; auto. exists b. auto.
  - unfold RS_CALLOC.
    destruct (heap_grants P (wbuf_size n)) eqn:Hg; [|discriminate].
    intro H.
    destruct (Hgrow (set_wbuf (Some (repeat 0 (Z.to_nat (wbuf_size n)))) n)
                (repeat 0 (Z.to_nat (wbuf_size n))))
      as (H1 & H2 & H3 & H4); auto.
    repeat split; auto. eexists. split; [right; split; reflexivity|].
    exact H4.
Qed.

(** C10, amended. If realloc_multiplier >= 2 and incr_size >= 1, and
    the grown size realloc_multiplier * (wbuf_i + incr_size) is
    representable as a size_t (so that neither the sum nor the product
    wraps around), then whenever rs_check_app_wsize returns OK the scratch
    buffer is allocated and wbuf_i + incr_size < wbuf_size; the offset is
    unchanged, and when the allocation held wbuf_size bytes on entry it
    holds wbuf_size bytes on return, so that incr_size bytes stored at
    wbuf_i lie strictly inside it. *)
Theorem rs_check_app_wsize_in_bounds (n : rs) (incr_size : Z) (n' : rs) :
  2 <= realloc_multiplier (conf n) ->
  1 <= incr_size ->
  0 <= wbuf_i n ->
  realloc_multiplier (conf n) * (wbuf_i n + incr_size) <= SIZE_MAX ->
  rs_check_app_wsize P n incr_size = (RS_OK, n') ->
  wbuf n' <> None /\
  wbuf_i n' = wbuf_i n /\
  wbuf_i n' + incr_size < wbuf_size n' /\
  ((forall b, wbuf n = Some b -> Z.of_nat (length b) = wbuf_size n) ->
   forall b', wbuf n' = Some b' -> Z.of_nat (length b') = wbuf_size n').
Proof.
  intros Hm Hincr Hi Hcap Hrun.
  destruct (rs_check_app_wsize_ok n incr_size n' Hrun)
    as (_ & Hi' & _ & b0 & Hb0 & Hcase).
  destruct (grown_size (realloc_multiplier (conf n)) (wbuf_i n + incr_size))
    as (Hsum & Hprod & Hlt); try lia.
  rewrite Hsum in Hcase.
  destruct (wbuf_size n <=? wbuf_i n + incr_size) eqn:Hfull.
  - destruct Hcase as [Hs Hw]. rewrite Hprod in Hs.
    rewrite Hw, Hi', Hs. repeat split; try discriminate; try lia.
    intros _ b' Hb'. inversion Hb'; subst b'.
    rewrite resized_length. lia.
  - apply Z.leb_gt in Hfull. destruct Hcase as [Hs Hw].
    rewrite Hw, Hi', Hs. repeat split; try discriminate; try lia.
    intros Hinv b' Hb'. inversion Hb'; subst b'.
    destruct Hb0 as [Hb0 | [_ Hb0]].
    + now apply Hinv.
    + rewrite Hb0, repeat_length. lia.
Qed.

Lemma poke_prefix (buf : list byte) (off : nat) (data : list byte) :
  (off + length data <= length buf)%nat ->
  firstn (off + length data) (poke buf off data) = firstn off buf ++ data.
Proof.
  intro H. unfold poke.
  rewrite firstn_app, length_firstn.
  replace (Nat.min off (length buf)) with off by lia.
  rewrite firstn_all2 by (rewrite length_firstn; lia).
  replace (off + length data - off)%nat with (length data) by lia.
  now rewrite firstn_app, Nat.sub_diag, firstn_all, firstn_O, app_nil_r.
Qed.

Lemma firstn_resized (k size : nat) (buf : list byte) :
  (k <= size)%nat -> (k <= length buf)%nat ->
  firstn k (resized size buf) = firstn k buf.
Proof.
  intros H1 H2. unfold resized.
  rewrite firstn_app, length_firstn, firstn_firstn.
  replace (k - Nat.min size (length buf))%nat with 0%nat by lia.
  replace (Nat.min k size) with k by lia.
  now rewrite firstn_O, app_nil_r.
Qed.

(** An append of [size] bytes through the guard and [scratch_store]:
    when the guard lets it through, the bytes are added at the end of
    what the scratch buffer held and the offset moves by [size]. *)
Lemma scratch_append (n : rs) (data : list byte) (size : Z) (n' : rs) :
  2 <= realloc_multiplier (conf n) ->
  1 <= size -> Z.of_nat (length data) = size ->
  0 <= wbuf_i n ->
  realloc_multiplier (conf n) * (wbuf_i n + size) <= SIZE_MAX ->
  (forall b, wbuf n = Some b -> Z.of_nat (length b) = wbuf_size n) ->
  (forall b, wbuf n = Some b -> wbuf_i n <= wbuf_size n) ->
  (wbuf n = None -> wbuf_i n = 0) ->
  RS_GUARD_APP (rs_check_app_wsize P n size)
    (fun n => (RS_OK, scratch_store data size n)) = (RS_OK, n') ->
  scratch n' = scratch n ++ data /\ wbuf_i n' = wbuf_i n + size /\
  outbound_rings n' = outbound_rings n.
Proof.
  intros Hm Hsize Hlen Hi Hcap Hinv Hle Hnull.
  unfold RS_GUARD_APP, RS_GUARD.
  destruct (rs_check_app_wsize P n size) as [r n1] eqn:Hcheck.
  destruct r; try discriminate.
  intro H; inversion H; subst n'; clear H.
  destruct (rs_check_app_wsize_ok n size n1 Hcheck)
    as (_ & Hi1 & Hrings & b0 & Hb0 & Hcase).
  destruct (grown_size (realloc_multiplier (conf n)) (wbuf_i n + size))
    as (Hsum & Hprod & Hlt); try lia.
  rewrite Hsum in Hcase.
  assert (Hb1 : exists b1, wbuf n1 = Some b1 /\
                  firstn (Z.to_nat (wbuf_i n)) b1 = scratch n /\
                  wbuf_i n + size < Z.of_nat (length b1)).
  { destruct (wbuf_size n <=? wbuf_i n + size) eqn:Hfull.
    - destruct Hcase as [Hs1 Hw1]. rewrite Hprod in Hs1.
      eexists. split; [exact Hw1|]. rewrite resized_length, Hs1.
      split; [|lia].
      unfold scratch. destruct Hb0 as [Hb0 | [Hb0 Hz]]; rewrite Hb0.
      + apply firstn_resized; [lia|].
        specialize (Hinv b0 Hb0). specialize (Hle b0 Hb0). lia.
      + rewrite (Hnull Hb0). reflexivity.
    - apply Z.leb_gt in Hfull. destruct Hcase as [Hs1 Hw1].
      exists b0. split; [exact Hw1|].
      unfold scratch. destruct Hb0 as [Hb0 | [Hb0 Hz]]; rewrite Hb0.
      + split; [reflexivity|]. rewrite (Hinv b0 Hb0). lia.
      + rewrite (Hnull Hb0). split; [reflexivity|].
        rewrite Hz, repeat_length. lia. }
  destruct Hb1 as (b1 & Hw1 & Hpre & Hlen1).
  unfold scratch_store, scratch.
  cbn [wbuf wbuf_i set_wbuf set_wbuf_i outbound_rings].
  rewrite Hw1, Hi1, Hsum.
  repeat split; [|exact Hrings].
  rewrite Z2Nat.inj_add by lia.
  rewrite <- Hlen, Nat2Z.id, poke_prefix by lia.
  now rewrite Hpre.
Qed.

(** [rs_w_p] appends the first [size] bytes of [src]. *)
Lemma rs_w_p_appends (n : rs) (src : list byte) (size : Z) (n' : rs) :
  2 <= realloc_multiplier (conf n) ->
  1 <= size <= Z.of_nat (length src) ->
  0 <= wbuf_i n ->
  realloc_multiplier (conf n) * (wbuf_i n + size) <= SIZE_MAX ->
  (forall b, wbuf n = Some b -> Z.of_nat (length b) = wbuf_size n) ->
  (forall b, wbuf n = Some b -> wbuf_i n <= wbuf_size n) ->
  (wbuf n = None -> wbuf_i n = 0) ->
  rs_w_p P n src size = (RS_OK, n') ->
  scratch n' = scratch n ++ firstn (Z.to_nat size) src /\
  wbuf_i n' = wbuf_i n + size.
Proof.
  intros Hm Hsize Hi Hcap Hinv Hle Hnull Hrun. unfold rs_w_p in Hrun.
  destruct (scratch_append n (firstn (Z.to_nat size) src) size n')
    as (H1 & H2 & _); auto; try lia.
  rewrite length_firstn. lia.
Qed.

(** C8. When the guard lets it through, rs_w_uint64(n, v) appends eight
    bytes and advances the offset by 8, but the bytes are those of
    v mod 2^32 in host order: the parameter is a uint32_t, so the
    high-order half of v is lost and the value read back is v mod 2^32.
    rs_w_uint64_hton(n, v) passes RS_HTON64(v) through the same
    parameter: the bytes appended are those of RS_HTON64(v) mod 2^32 in
    host order. *)
Theorem rs_w_uint64_appends_low_word (n : rs) (v : Z) :
  2 <= realloc_multiplier (conf n) ->
  0 <= wbuf_i n ->
  realloc_multiplier (conf n) * (wbuf_i n + 8) <= SIZE_MAX ->
  (forall b, wbuf n = Some b -> Z.of_nat (length b) = wbuf_size n) ->
  (forall b, wbuf n = Some b -> wbuf_i n <= wbuf_size n) ->
  (wbuf n = None -> wbuf_i n = 0) ->
  (forall n', rs_w_uint64 P n v = (RS_OK, n') ->
     scratch n' = scratch n ++ store_uint (little_endian P) 8 (v mod 2 ^ 32)
     /\ wbuf_i n' = wbuf_i n + 8) /\
  load_uint (little_endian P)
    (store_uint (little_endian P) 8 (v mod 2 ^ 32)) = v mod 2 ^ 32 /\
  (forall n', rs_w_uint64_hton P n v = (RS_OK, n') ->
     scratch n'
     = scratch n
       ++ store_uint (little_endian P) 8
            (RS_HTON (little_endian P) 8 (v mod 2 ^ 64) mod 2 ^ 32)
     /\ wbuf_i n' = wbuf_i n + 8).
Proof.
  intros Hm Hi Hcap Hinv Hle Hnull.
  assert (Hw : forall u n', rs_w_uint64 P n u = (RS_OK, n') ->
     scratch n' = scratch n ++ store_uint (little_endian P) 8 (u mod 2 ^ 32)
     /\ wbuf_i n' = wbuf_i n + 8).
  { intros u n' Hrun. unfold rs_w_uint64 in Hrun.
    destruct (scratch_append n
                (store_uint (little_endian P) 8 (to_uint32 u)) 8 n')
      as (H1 & H2 & _); auto; try lia.
    now rewrite store_uint_length. }
  split; [apply Hw|]. split.
  - rewrite load_store_uint, pow256_8.
    apply Z.mod_small.
    pose proof (Z.mod_pos_bound v (2 ^ 32)). lia.
  - intros n' Hrun. apply (Hw _ _ Hrun).
Qed.

End ScratchProperties.

(** v = 2^32 on a little-endian host: eight zero bytes are appended, the
    bytes of 0; those of 2^32 are 0 0 0 0 1 0 0 0. *)
Lemma rs_w_uint64_appends_low_word_witness :
  scratch (snd (rs_w_uint64 (plain_platform true) (fresh_rs 1000 2 0 7)
                  (2 ^ 32)))
  = scratch (fresh_rs 1000 2 0 7) ++ [0; 0; 0; 0; 0; 0; 0; 0] /\
  le_bytes 8 (2 ^ 32) = [0; 0; 0; 0; 1; 0; 0; 0] /\
  load_uint true (store_uint true 8 (2 ^ 32 mod 2 ^ 32)) = 0.
Proof.
  destruct (rs_w_uint64_appends_low_word (plain_platform true)
              (fresh_rs 1000 2 0 7) (2 ^ 32))
    as (Hw & Hload & _).
  - simpl. lia.
  - simpl. lia.
  - unfold SIZE_MAX. simpl. lia.
  - intros b Hb. discriminate Hb.
  - intros b Hb. discriminate Hb.
  - reflexivity.
  - split; [|split].
    + exact (proj1 (Hw _ eq_refl)).
    + reflexivity.
    + exact Hload.
Defined.

(** The network-order variant on a little-endian host loses the
    low-order half of its argument: v = 1 is appended as eight zero
    bytes, where its network-order bytes are 0 0 0 0 0 0 0 1. *)
Example rs_w_uint64_hton_one :
  scratch (snd (rs_w_uint64_hton (plain_platform true)
                  (fresh_rs 1000 2 0 7) 1))
  = [0; 0; 0; 0; 0; 0; 0; 0] /\
  be_bytes 8 1 = [0; 0; 0; 0; 0; 0; 0; 1].
Proof. split; reflexivity. Qed.

(** An unallocated scratch buffer of 64 bytes and 70 bytes to append:
    allocated, then grown to 140. *)
Lemma rs_check_app_wsize_in_bounds_witness :
  wbuf (snd (rs_check_app_wsize (plain_platform true)
               (fresh_rs 1000 2 0 7) 70)) <> None /\
  wbuf_i (snd (rs_check_app_wsize (plain_platform true)
                 (fresh_rs 1000 2 0 7) 70)) + 70
  < wbuf_size (snd (rs_check_app_wsize (plain_platform true)
                      (fresh_rs 1000 2 0 7) 70)).
Proof.
  destruct (rs_check_app_wsize_in_bounds (plain_platform true)
              (fresh_rs 1000 2 0 7) 70
              (snd (rs_check_app_wsize (plain_platform true)
                      (fresh_rs 1000 2 0 7) 70)))
    as (Hptr & _ & Hroom & _).
  - simpl. lia.
  - lia.
  - simpl. lia.
  - unfold SIZE_MAX. simpl. lia.
  - reflexivity.
  - split; [exact Hptr|exact Hroom].
Defined.

(** Without the bound the sum of line 26 wraps around: ten bytes are in
    a scratch buffer of 64 bytes and SIZE_MAX more are announced;
    10 + SIZE_MAX is 9 in size_t arithmetic, 9 >= 64 is false, nothing
    is grown and OK is returned with a buffer of 64 bytes. *)
Lemma rs_check_app_wsize_wraps_counterexample :
  ~ check_app_wsize_leaves_room (plain_platform true) ten_in_scratch
      SIZE_MAX.
Proof.
  unfold check_app_wsize_leaves_room. intro H.
  assert (Hrun : rs_check_app_wsize (plain_platform true) ten_in_scratch
                   SIZE_MAX = (RS_OK, ten_in_scratch))
    by reflexivity.
  destruct (H ltac:(simpl; lia) ltac:(unfold SIZE_MAX; lia)
              ten_in_scratch Hrun) as [_ Hroom].
  unfold SIZE_MAX in Hroom. simpl in Hroom. lia.
Qed.

(** The product of line 27 wraps around as well: 2^63 + 50 bytes are
    announced with an empty scratch buffer and a multiplier of 2; the
    buffer is grown to 2 * (2^63 + 50) modulo 2^64, which is 100 bytes,
    and OK is returned. *)
Example rs_check_app_wsize_product_wraps :
  fst (rs_check_app_wsize (plain_platform true) (fresh_rs 1000 2 0 7)
         (2 ^ 63 + 50)) = RS_OK /\
  wbuf_size (snd (rs_check_app_wsize (plain_platform true)
                    (fresh_rs 1000 2 0 7) (2 ^ 63 + 50))) = 100.
Proof. split; reflexivity. Qed.

(** ** [rs_to_multi] *)

Section MultiProperties.

Variable P : platform.

(** The inner loop selects by the first word and keeps the second. *)
Lemma cur_clients_of_partition (i : Z) (client_ids : list Z) :
  cur_clients_of P i client_ids = recipients_of P i client_ids.
Proof.
  unfold recipients_of. induction client_ids as [|c rest IH]; [reflexivity|].
  cbn [cur_clients_of filter]. fold (first_word P c).
  fold (second_word P c).
  destruct (first_word P c =? i); cbn [map]; now rewrite IH.
Qed.

(** What [rs_send] never touches. *)
Lemma rs_send_frame (n : rs) (worker_i : Z) (k : rs_outbound_kind)
    (recipients : list Z) (recipient_c : Z) (is_utf8 : bool)
    (p : list byte) (size : Z) :
  let n' :=
    snd (rs_send P n worker_i k recipients recipient_c is_utf8 p size) in
  conf n' = conf n /\ wbuf n' = wbuf n /\ wbuf_i n' = wbuf_i n /\
  forall j, j <> worker_i -> outbound_rings n' j = outbound_rings n j.
Proof.
  unfold rs_send, RS_GUARD_APP, RS_GUARD.
  destruct (max_ws_msg_size (conf n) <? to_size_t (wbuf_i n + size));
    [cbn; auto|].
  destruct (rs_prepare_ring_write P worker_i _ _) as [r ring'].
  assert (Hj : forall j r0, j <> worker_i ->
            (if j =? worker_i then r0 else outbound_rings n j)
            = outbound_rings n j)
    by (intros j r0 Hne; apply Z.eqb_neq in Hne; now rewrite Hne).
  destruct r; cbn; auto.
  destruct (rs_enqueue_ring_update P _ _ _) as [r q].
  destruct r; cbn; repeat split; auto; intros j Hne;
    apply Z.eqb_neq in Hne; now rewrite Hne.
Qed.

(** The ring of [worker_i] after [rs_send] depends on the state only
    through the configuration, the scratch buffer and that ring. *)
Lemma rs_send_ring_congr (n1 n2 : rs) (worker_i : Z)
    (k : rs_outbound_kind) (recipients : list Z) (recipient_c : Z)
    (is_utf8 : bool) (p : list byte) (size : Z) :
  conf n1 = conf n2 -> wbuf n1 = wbuf n2 -> wbuf_i n1 = wbuf_i n2 ->
  outbound_rings n1 worker_i = outbound_rings n2 worker_i ->
  outbound_rings
    (snd (rs_send P n1 worker_i k recipients recipient_c is_utf8 p size))
    worker_i
  = outbound_rings
      (snd (rs_send P n2 worker_i k recipients recipient_c is_utf8 p size))
      worker_i.
Proof.
  intros Hc Hb Hi Hr. unfold rs_send, RS_GUARD_APP, RS_GUARD.
  rewrite Hc, Hi, Hr.
  destruct (max_ws_msg_size (conf n2) <? to_size_t (wbuf_i n2 + size));
    [exact Hr|].
  destruct (rs_prepare_ring_write P worker_i _ _) as [r ring'].
  destruct r; cbn; rewrite ?Z.eqb_refl; try reflexivity.
  assert (Hw : forall ps ms,
    rs_send_write P (set_ring worker_i ring' n1) ring' k recipients
      recipient_c is_utf8 p size ps ms
    = rs_send_write P (set_ring worker_i ring' n2) ring' k recipients
        recipient_c is_utf8 p size ps ms).
  { intros ps ms. unfold rs_send_write, scratch. cbn. now rewrite Hb, Hi. }
  rewrite Hw.
  do 2 destruct (rs_enqueue_ring_update P _ _ _) as [[] ?];
    cbn; now rewrite Z.eqb_refl.
Qed.

Lemma rs_to_multi_worker_frame (n : rs) (i : Z) (is_utf8 : bool)
    (client_ids : list Z) (client_c : Z) (p : list byte) (size : Z) :
  let n' := rs_to_multi_worker P n i is_utf8 client_ids client_c p size in
  conf n' = conf n /\ wbuf n' = wbuf n /\ wbuf_i n' = wbuf_i n /\
  forall j, j <> i -> outbound_rings n' j = outbound_rings n j.
Proof.
  unfold rs_to_multi_worker.
  destruct (Z.of_nat (length _)) as [|[]|]; try (cbn; now auto);
    apply rs_send_frame.
Qed.

Lemma rs_to_multi_worker_congr (n1 n2 : rs) (i : Z) (is_utf8 : bool)
    (client_ids : list Z) (client_c : Z) (p : list byte) (size : Z) :
  conf n1 = conf n2 -> wbuf n1 = wbuf n2 -> wbuf_i n1 = wbuf_i n2 ->
  outbound_rings n1 i = outbound_rings n2 i ->
  outbound_rings
    (rs_to_multi_worker P n1 i is_utf8 client_ids client_c p size) i
  = outbound_rings
      (rs_to_multi_worker P n2 i is_utf8 client_ids client_c p size) i.
Proof.
  intros Hc Hb Hi Hr. unfold rs_to_multi_worker.
  destruct (Z.of_nat (length _)) as [|[]|]; try exact Hr;
    now apply rs_send_ring_congr.
Qed.

(** The outer loop: the ring of each worker it visits is the one the
    body of the loop leaves for that worker on the initial state; the
    other rings, the configuration and the scratch buffer are as they
    were. *)
Lemma rs_to_multi_loop_spec (todo : nat) (is_utf8 : bool)
    (client_ids : list Z) (client_c : Z) (p : list byte) (size : Z) :
  forall (i0 : Z) (n : rs),
    let n' :=
      rs_to_multi_loop P todo i0 n is_utf8 client_ids client_c p size in
    conf n' = conf n /\ wbuf n' = wbuf n /\ wbuf_i n' = wbuf_i n /\
    forall j,
      outbound_rings n' j
      = if (i0 <=? j) && (j <? i0 + Z.of_nat todo)
        then outbound_rings
               (rs_to_multi_worker P n j is_utf8 client_ids client_c p size)
               j
        else outbound_rings n j.
Proof.
  induction todo as [|todo IH]; intros i0 n; cbn zeta.
  - cbn [rs_to_multi_loop]. repeat split; auto. intro j.
    replace ((i0 <=? j) && (j <? i0 + Z.of_nat 0)) with false; [reflexivity|].
    symmetry. apply andb_false_iff.
    destruct (Z.leb_spec i0 j); [right; apply Z.ltb_ge; lia | now left].
  - cbn [rs_to_multi_loop].
    set (n1 := rs_to_multi_worker P n i0 is_utf8 client_ids client_c p size).
    destruct (rs_to_multi_worker_frame n i0 is_utf8 client_ids client_c
                p size) as (Hc & Hb & Hi & Hr). fold n1 in Hc, Hb, Hi, Hr.
    destruct (IH (i0 + 1) n1) as (Hc' & Hb' & Hi' & Hr').
    repeat split; try congruence. intro j. rewrite Hr'.
    destruct (Z.eq_dec j i0) as [->|Hne].
    + replace ((i0 + 1 <=? i0) && (i0 <? i0 + 1 + Z.of_nat todo))
        with false
        by (symmetry; apply andb_false_iff; left; apply Z.leb_gt; lia).
      replace ((i0 <=? i0) && (i0 <? i0 + Z.of_nat (S todo))) with true
        by (symmetry; apply andb_true_iff; split;
            [apply Z.leb_le | apply Z.ltb_lt]; lia).
      reflexivity.
    + replace ((i0 <=? j) && (j <? i0 + Z.of_nat (S todo)))
        with ((i0 + 1 <=? j) && (j <? i0 + 1 + Z.of_nat todo)).
      * destruct ((i0 + 1 <=? j) && (j <? i0 + 1 + Z.of_nat todo)).
        -- apply rs_to_multi_worker_congr; auto.
        -- now apply Hr.
      * destruct (Z.leb_spec (i0 + 1) j), (Z.leb_spec i0 j),
          (Z.ltb_spec j (i0 + 1 + Z.of_nat todo)),
          (Z.ltb_spec j (i0 + Z.of_nat (S todo))); cbn; try reflexivity; lia.
Qed.

(** The branch [switch (cur_client_c)] takes, on the recipients of one
    worker. *)
Lemma rs_to_multi_worker_dispatch (n : rs) (i : Z) (is_utf8 : bool)
    (client_ids : list Z) (client_c : Z) (p : list byte) (size : Z) :
  client_c < 2 ^ 32 ->
  let recipients :=
    recipients_of P i (firstn (Z.to_nat client_c) client_ids) in
  rs_to_multi_worker P n i is_utf8 client_ids client_c p size
  = match recipients with
    | [] => n
    | [peer] =>
        snd (rs_send P n i RS_OUTBOUND_SINGLE [peer] 1 is_utf8 p size)
    | _ =>
        snd (rs_send P n i RS_OUTBOUND_ARRAY recipients
               (Z.of_nat (length recipients)) is_utf8 p size)
    end.
Proof.
  intros Hcount recipients.
  unfold rs_to_multi_worker. rewrite cur_clients_of_partition.
  fold recipients.
  assert (Hlen : Z.of_nat (length recipients) < 2 ^ 32).
  { unfold recipients, recipients_of. rewrite length_map.
    pose proof (filter_length_le (fun c => first_word P c =? i)
                  (firstn (Z.to_nat client_c) client_ids)) as Hf.
    rewrite length_firstn in Hf. lia. }
  clearbody recipients.
  destruct recipients as [|r [|r2 rest]]; try reflexivity.
  replace (to_uint32 (Z.of_nat (length (r :: r2 :: rest))))
    with (Z.of_nat (length (r :: r2 :: rest)))
    by (unfold to_uint32; symmetry; apply Z.mod_small; lia).
  cbn [length Z.of_nat Pos.of_succ_nat].
  now destruct (Pos.of_succ_nat (length rest)).
Qed.

(** C7. rs_to_multi partitions the client ids by their worker word: for
    each worker index i below worker_c, the ring of i is left as it was
    when no id belongs to i, receives what one rs_send of kind SINGLE
    with that one peer id stores when exactly one does, and what one
    rs_send of kind ARRAY with the recipient count and all the peer ids
    of i (in the order of the array) stores when more than one do; every
    such rs_send is given the same scratch bytes and user bytes. A ring
    whose index is not below worker_c is left as it was. For a payload
    that passes the size check and a ring with room, the record is the
    kind byte, the count for ARRAY, the peer ids, and then a frame (opcode
    byte, length bytes, scratch bytes, user bytes) that is the same for
    every worker. The scratch offset is reset. *)
Theorem rs_to_multi_partitions_by_worker (n : rs) (is_utf8 : bool)
    (client_ids : list Z) (client_c : Z) (p : list byte) (size : Z)
    (i : Z) :
  client_c < 2 ^ 32 ->
  let recipients :=
    recipients_of P i (firstn (Z.to_nat client_c) client_ids) in
  let frame :=
    ws_opcode is_utf8
    :: ws_length_stored (wbuf_i n + size)
    ++ scratch n ++ firstn (Z.to_nat size) p in
  (0 <= i < worker_c (conf n) ->
   outbound_rings (rs_to_multi P n is_utf8 client_ids client_c p size) i
   = outbound_rings
       match recipients with
       | [] => n
       | [peer] =>
           snd (rs_send P n i RS_OUTBOUND_SINGLE [peer] 1 is_utf8 p size)
       | _ =>
           snd (rs_send P n i RS_OUTBOUND_ARRAY recipients
                  (Z.of_nat (length recipients)) is_utf8 p size)
       end i) /\
  (~ 0 <= i < worker_c (conf n) ->
   outbound_rings (rs_to_multi P n is_utf8 client_ids client_c p size) i
   = outbound_rings n i) /\
  (0 <= i < worker_c (conf n) ->
   0 <= wbuf_i n -> 0 <= size ->
   wbuf_i n + size <= max_ws_msg_size (conf n) ->
   wbuf_i n + size <= SIZE_MAX - 11 ->
   forall ring',
     rs_prepare_ring_write P i (outbound_rings n i)
       (ws_msg_size (wbuf_i n + size)) = (RS_OK, ring') ->
     outbound_rings (rs_to_multi P n is_utf8 client_ids client_c p size) i
     = match recipients with
       | [] => outbound_rings n i
       | [peer] =>
           ring' ++ [kind_code RS_OUTBOUND_SINGLE]
           ++ store_uint (little_endian P) 4 peer ++ frame
       | _ =>
           ring' ++ [kind_code RS_OUTBOUND_ARRAY]
           ++ store_uint (little_endian P) 4 (Z.of_nat (length recipients))
           ++ flat_map (store_uint (little_endian P) 4) recipients ++ frame
       end) /\
  wbuf_i (rs_to_multi P n is_utf8 client_ids client_c p size) = 0.
Proof.
  intros Hcount recipients frame.
  destruct (rs_to_multi_loop_spec (Z.to_nat (worker_c (conf n))) is_utf8
              client_ids client_c p size 0 n) as (_ & _ & _ & Hring).
  assert (Hin : 0 <= i < worker_c (conf n) ->
    outbound_rings (rs_to_multi P n is_utf8 client_ids client_c p size) i
    = outbound_rings
        match recipients with
        | [] => n
        | [peer] =>
            snd (rs_send P n i RS_OUTBOUND_SINGLE [peer] 1 is_utf8 p size)
        | _ =>
            snd (rs_send P n i RS_OUTBOUND_ARRAY recipients
                   (Z.of_nat (length recipients)) is_utf8 p size)
        end i).
  { intro Hi. unfold rs_to_multi. cbn [outbound_rings set_wbuf_i].
    rewrite Hring.
    replace ((0 <=? i)
             && (i <? 0 + Z.of_nat (Z.to_nat (worker_c (conf n)))))
      with true
      by (symmetry; apply andb_true_iff; split;
          [apply Z.leb_le | apply Z.ltb_lt]; lia).
    apply f_equal2; [|reflexivity].
    exact (rs_to_multi_worker_dispatch n i is_utf8 client_ids client_c p
             size Hcount). }
  split; [exact Hin|]. split; [|split; [|reflexivity]].
  - intro Hout. unfold rs_to_multi. cbn [outbound_rings set_wbuf_i].
    rewrite Hring.
    replace ((0 <=? i)
             && (i <? 0 + Z.of_nat (Z.to_nat (worker_c (conf n)))))
      with false; [reflexivity|].
    symmetry. apply andb_false_iff.
    destruct (Z.leb_spec 0 i); [right; apply Z.ltb_ge; lia | now left].
  - intros Hi Hw Hsize Hmax Hcap ring' Hprep. rewrite (Hin Hi).
    destruct recipients as [|r [|r2 rest]].
    + reflexivity.
    + destruct (rs_send_accepted P n i RS_OUTBOUND_SINGLE [r] 1 is_utf8 p
                  size ring') as (_ & Hout & _); auto.
      rewrite Hout. unfold routing_header.
      cbn [length Z.of_nat flat_map Pos.of_succ_nat Z.ltb Z.compare
           Pos.compare Pos.compare_cont].
      rewrite app_nil_r. reflexivity.
    + destruct (rs_send_accepted P n i RS_OUTBOUND_ARRAY (r :: r2 :: rest)
                  (Z.of_nat (length (r :: r2 :: rest))) is_utf8 p size
                  ring') as (_ & Hout & _); auto.
      rewrite Hout. unfold routing_header.
      replace (1 <? Z.of_nat (length (r :: r2 :: rest))) with true
        by (symmetry; apply Z.ltb_lt; cbn [length]; lia).
      now rewrite <- !app_assoc.
Qed.

End MultiProperties.

(** The third scenario of the specification on a little-endian host:
    pack(0, 7) and pack(1, 3), payload AB. *)
Lemma rs_to_multi_partitions_by_worker_witness :
  outbound_rings
    (rs_to_multi (plain_platform true) (fresh_rs 1000 2 0 0) false
       [30064771072; 12884901889] 2 [65; 66] 2) 0
  = [0; 7; 0; 0; 0; 130; 65; 66] /\
  outbound_rings
    (rs_to_multi (plain_platform true) (fresh_rs 1000 2 0 0) false
       [30064771072; 12884901889] 2 [65; 66] 2) 1
  = [0; 3; 0; 0; 0; 130; 65; 66].
Proof.
  split.
  - destruct (rs_to_multi_partitions_by_worker (plain_platform true)
                (fresh_rs 1000 2 0 0) false [30064771072; 12884901889] 2
                [65; 66] 2 0) as (Hsend & _); [lia|].
    rewrite Hsend by (simpl; lia). reflexivity.
  - destruct (rs_to_multi_partitions_by_worker (plain_platform true)
                (fresh_rs 1000 2 0 0) false [30064771072; 12884901889] 2
                [65; 66] 2 1) as (_ & _ & Hbytes & _); [lia|].
    rewrite (Hbytes ltac:(simpl; lia) ltac:(simpl; lia) ltac:(lia)
               ltac:(simpl; lia) ltac:(unfold SIZE_MAX; simpl; lia)
               [] eq_refl).
    reflexivity.
Defined.

(** Three recipients on worker 0, one on worker 1. *)
Example rs_to_multi_array_run :
  let n :=
    rs_to_multi (plain_platform true) (fresh_rs 1000 2 0 0) true
      [30064771072; 12884901889; 8589934592; 38654705664] 4 [120] 1 in
  outbound_rings n 0
  = [1; 3; 0; 0; 0; 7; 0; 0; 0; 2; 0; 0; 0; 9; 0; 0; 0; 129; 120] /\
  outbound_rings n 1 = [0; 3; 0; 0; 0; 129; 120] /\
  wbuf_i n = 0.
Proof. repeat split. Qed.

(** ** Byte order conversions and client ids, further properties *)

Lemma pow256_pow2 (w : nat) : 256 ^ Z.of_nat w = 2 ^ (8 * Z.of_nat w).
Proof. rewrite Z.pow_mul_r by lia. reflexivity. Qed.

Lemma bswap_bounds (w : nat) (v : Z) : 0 <= bswap w v < 256 ^ Z.of_nat w.
Proof.
  unfold bswap.
  pose proof (le_value_bounds (rev (le_bytes w v))
                (Forall_is_byte_rev _ (le_bytes_range w v))) as H.
  now rewrite length_rev, le_bytes_length in H.
Qed.

Lemma bswap_bswap (w : nat) (v : Z) :
  bswap w (bswap w v) = v mod 256 ^ Z.of_nat w.
Proof.
  unfold bswap at 1. rewrite le_bytes_bswap. unfold be_bytes.
  rewrite rev_involutive. apply le_value_le_bytes.
Qed.

Lemma RS_HTON_bounds (le : bool) (w : nat) (v : Z) :
  0 <= v < 2 ^ (8 * Z.of_nat w) ->
  0 <= RS_HTON le w v < 2 ^ (8 * Z.of_nat w).
Proof.
  rewrite <- pow256_pow2. intro Hv. unfold RS_HTON, RS_NTOH.
  destruct le; [apply bswap_bounds|exact Hv].
Qed.

(** X1. For an integer of w bytes (w = 2, 4, 8 for the 16-, 32- and
    64-bit macros), RS_NTOH and RS_HTON undo each other on either kind
    of host, and their result is again an integer of w bytes. *)
Theorem RS_NTOH_HTON_round_trip (le : bool) (w : nat) (v : Z) :
  0 <= v < 2 ^ (8 * Z.of_nat w) ->
  RS_NTOH le w (RS_HTON le w v) = v /\
  RS_HTON le w (RS_NTOH le w v) = v /\
  0 <= RS_HTON le w v < 2 ^ (8 * Z.of_nat w).
Proof.
  rewrite <- pow256_pow2. intro Hv. unfold RS_HTON, RS_NTOH.
  destruct le.
  - rewrite bswap_bswap, Z.mod_small by exact Hv.
    repeat split; auto; apply bswap_bounds.
  - repeat split; lia.
Qed.

Lemma RS_NTOH_HTON_round_trip_witness :
  RS_HTON true 4 305419896 = 2018915346 /\
  RS_NTOH true 4 (RS_HTON true 4 305419896) = 305419896.
Proof.
  split; [reflexivity|].
  apply (RS_NTOH_HTON_round_trip true 4 305419896). simpl. lia.
Defined.

(** X2. RS_W_HTON16/32/64 store the same bytes on a little-endian and on
    a big-endian host, the value most significant byte first, and
    RS_R_NTOH16/32/64 reads back from them the value that was stored
    (the low w bytes of the argument), whatever follows in memory. *)
Theorem RS_W_HTON_R_NTOH_round_trip (le : bool) (w : nat) (v : Z)
    (rest : list byte) :
  RS_W_HTON le w v = be_bytes w v /\
  RS_W_HTON true w v = RS_W_HTON false w v /\
  RS_R_NTOH le w (RS_W_HTON le w v ++ rest) = v mod 2 ^ (8 * Z.of_nat w).
Proof.
  split; [apply RS_W_HTON_be|]. split; [now rewrite !RS_W_HTON_be|].
  unfold RS_R_NTOH.
  rewrite firstn_app, RS_W_HTON_be.
  assert (Hlen : length (be_bytes w v) = w)
    by (unfold be_bytes; now rewrite length_rev, le_bytes_length).
  rewrite Hlen, Nat.sub_diag, firstn_O, app_nil_r.
  rewrite firstn_all2 by lia.
  rewrite <- pow256_pow2.
  unfold RS_NTOH, load_uint, be_value, be_bytes. destruct le.
  - apply bswap_bswap.
  - rewrite rev_involutive. apply le_value_le_bytes.
Qed.

Section ClientIdInjective.

Variable P : platform.

(** X3. rs_get_client_id packs two 32-bit indices into a value that
    fits 64 bits, and distinct (worker, peer) pairs get distinct ids:
    the pair can be read back from the id. *)
Theorem rs_get_client_id_injective (n1 n2 : rs) :
  0 <= src_worker_thread_i n1 < 2 ^ 32 -> 0 <= src_peer_i n1 < 2 ^ 32 ->
  0 <= src_worker_thread_i n2 < 2 ^ 32 -> 0 <= src_peer_i n2 < 2 ^ 32 ->
  0 <= rs_get_client_id P n1 < 2 ^ 64 /\
  (rs_get_client_id P n1 = rs_get_client_id P n2 ->
   src_worker_thread_i n1 = src_worker_thread_i n2 /\
   src_peer_i n1 = src_peer_i n2).
Proof.
  intros Hw1 Hp1 Hw2 Hp2. split.
  - rewrite (client_id_value P n1 Hw1 Hp1).
    destruct (little_endian P); lia.
  - intro Heq.
    destruct (client_id_words P n1 Hw1 Hp1) as [H1 H2].
    destruct (client_id_words P n2 Hw2 Hp2) as [H3 H4].
    rewrite Heq in H1, H2. split; congruence.
Qed.

End ClientIdInjective.

Lemma rs_get_client_id_injective_witness :
  0 <= rs_get_client_id (plain_platform true) (fresh_rs 1000 2 1 3)
  < 2 ^ 64 /\
  rs_get_client_id (plain_platform true) (fresh_rs 1000 2 1 3)
  <> rs_get_client_id (plain_platform true) (fresh_rs 1000 2 3 1).
Proof.
  destruct (rs_get_client_id_injective (plain_platform true)
              (fresh_rs 1000 2 1 3) (fresh_rs 1000 2 3 1))
    as (Hb & Hinj); try (simpl; lia).
  split; [exact Hb|].
  intro Heq. destruct (Hinj Heq) as [Hw _]. discriminate Hw.
Defined.

(** ** [rs_tcp.c], further properties *)

(** What one [RS_LOG] adds to the log. *)
Lemma RS_LOG_logs (lvl : log_level) (w : world) :
  logs (RS_LOG lvl w) = logs w ++ logged w lvl 1.
Proof.
  unfold RS_LOG, logged. cbn [logs repeat].
  destruct (priority lvl <=? _rs_log_max w); [reflexivity|].
  now rewrite app_nil_r.
Qed.

(** X4. read_tcp issues exactly one read() on the peer's descriptor and
    closes nothing. For an answer of read() of at least -1, it returns
    AGAIN exactly when read() failed with EAGAIN, and then clears
    is_writing and logs nothing; CLOSE_PEER leaves the peer as it was
    and passes one line to RS_LOG, a notice when read() returned 0 and
    an error otherwise, which is logged when that level is not above
    the run-time log level _rs_log_max; OK leaves the peer and the log
    as they were. The log level is not changed. *)
Theorem read_tcp_outcomes (a : answer) (w : world) (peer : rs_peer)
    (rbuf_size : Z) (r : rs_ret) (peer' : rs_peer) (rsize : Z)
    (w' : world) :
  -1 <= ret a ->
  read_tcp a w peer rbuf_size = (r, (peer', rsize, w')) ->
  calls w' = calls w ++ [Sys_read (socket_fd peer) rbuf_size] /\
  wire_out w' = wire_out w /\ free_slots w' = free_slots w /\
  _rs_log_max w' = _rs_log_max w /\
  (r = RS_AGAIN <-> ret a = -1 /\ err a = EAGAIN) /\
  (r = RS_AGAIN -> peer' = set_is_writing false peer /\ logs w' = logs w) /\
  (r = RS_CLOSE_PEER ->
   peer' = peer /\
   logs w'
   = logs w ++ logged w (if ret a =? 0 then LOG_NOTICE else LOG_ERR) 1) /\
  (r = RS_OK -> peer' = peer /\ logs w' = logs w).
Proof.
  intros Hret. unfold read_tcp.
  destruct (0 <? ret a) eqn:Hpos.
  - apply Z.ltb_lt in Hpos. intro H; inversion H; subst; cbn.
    repeat split; auto; try discriminate; intros; lia.
  - apply Z.ltb_ge in Hpos.
    destruct (ret a =? 0) eqn:Hzero.
    + apply Z.eqb_eq in Hzero. intro H; inversion H; subst.
      rewrite RS_LOG_logs. cbn.
      repeat split; auto; try discriminate; intros; lia.
    + apply Z.eqb_neq in Hzero.
      assert (Hm : ret a = -1) by lia.
      cbn [errno sys_call]. rewrite Hm.
      change (-1 =? -1) with true. cbv iota.
      destruct (err a =? EAGAIN) eqn:He.
      * apply Z.eqb_eq in He. intro H; inversion H; subst; cbn.
        repeat split; auto; discriminate.
      * apply Z.eqb_neq in He. intro H; inversion H; subst.
        rewrite RS_LOG_logs. cbn.
        repeat split; auto; try discriminate; intros []; congruence.
Qed.

(** read() returns 0 at the log level LOG_ERR: CLOSE_PEER, and the
    notice is not logged; at the level LOG_NOTICE it is. *)
Lemma read_tcp_outcomes_witness :
  fst (read_tcp {| ret := 0; err := 0 |} terse_world closing_peer 4096)
  = RS_CLOSE_PEER /\
  logs (snd (snd (read_tcp {| ret := 0; err := 0 |} terse_world
                    closing_peer 4096))) = [] /\
  logs (snd (snd (read_tcp {| ret := 0; err := 0 |} quiet_world
                    closing_peer 4096))) = [LOG_NOTICE].
Proof.
  split; [reflexivity|].
  pose (out := read_tcp {| ret := 0; err := 0 |} terse_world
                 closing_peer 4096).
  destruct (read_tcp_outcomes {| ret := 0; err := 0 |} terse_world
              closing_peer 4096 (fst out) (fst (fst (snd out)))
              (snd (fst (snd out))) (snd (snd out)))
    as (_ & _ & _ & _ & _ & _ & Hclose & _).
  - simpl. lia.
  - reflexivity.
  - split; [exact (proj2 (Hclose eq_refl))|reflexivity].
Defined.

(** One call of [write_tcp] on a message of which [old_wsize] bytes are
    out, answered with no more bytes than were offered. *)
Lemma write_tcp_step (a : answer) (w : world) (peer : rs_peer)
    (wbuf : list byte) (wbuf_size : Z) (sent : list byte) :
  Z.of_nat (length wbuf) = wbuf_size ->
  wbuf_size <= SIZE_MAX ->
  0 <= old_wsize peer <= wbuf_size ->
  wire_out w = sent ++ firstn (Z.to_nat (old_wsize peer)) wbuf ->
  ret a <= wbuf_size - old_wsize peer ->
  exists peer' w',
    socket_fd peer' = socket_fd peer /\
    length (calls w') = S (length (calls w)) /\
    ((write_tcp a w peer wbuf wbuf_size = (RS_OK, (peer', w')) /\
      old_wsize peer < wbuf_size /\
      old_wsize peer' = 0 /\ wire_out w' = sent ++ wbuf) \/
     (write_tcp a w peer wbuf wbuf_size = (RS_AGAIN, (peer', w')) /\
      is_writing peer' = true /\
      old_wsize peer'
      = (if 0 <? ret a then old_wsize peer + ret a else old_wsize peer) /\
      (old_wsize peer < wbuf_size -> old_wsize peer' < wbuf_size) /\
      wire_out w' = sent ++ firstn (Z.to_nat (old_wsize peer')) wbuf)).
Proof.
  intros Hlen Hmax Hold Hsent Hfit.
  assert (Hrem : to_size_t (wbuf_size - old_wsize peer)
                 = wbuf_size - old_wsize peer)
    by (apply to_size_t_small; lia).
  unfold write_tcp, sys_write. rewrite Hrem.
  destruct (0 <? ret a) eqn:Hpos.
  - apply Z.ltb_lt in Hpos.
    assert (Hr : to_size_t (ret a) = ret a)
      by (apply to_size_t_small; lia).
    rewrite Hr.
    destruct (ret a =? wbuf_size - old_wsize peer) eqn:Hall.
    + apply Z.eqb_eq in Hall. do 2 eexists.
      split; [|split; [|left; split; [reflexivity|]]].
      * reflexivity.
      * cbn. rewrite length_app. cbn. lia.
      * cbn. split; [lia|]. split; [reflexivity|].
        rewrite Hsent, <- app_assoc. f_equal.
        rewrite Hall, firstn_firstn, Nat.min_id.
        rewrite (firstn_all2 (skipn (Z.to_nat (old_wsize peer)) wbuf))
          by (rewrite length_skipn; lia).
        apply firstn_skipn.
    + apply Z.eqb_neq in Hall. do 2 eexists.
      split; [|split; [|right; split; [reflexivity|]]].
      * reflexivity.
      * cbn. rewrite length_app. cbn. lia.
      * cbn.
        assert (Hs : to_size_t (old_wsize peer + ret a)
                     = old_wsize peer + ret a)
          by (apply to_size_t_small; lia).
        rewrite Hs. split; [reflexivity|]. split; [reflexivity|].
        split; [lia|].
        rewrite Hsent, <- app_assoc. f_equal.
        rewrite firstn_firstn.
        replace (Nat.min (Z.to_nat (ret a))
                   (Z.to_nat (wbuf_size - old_wsize peer)))
          with (Z.to_nat (ret a)) by lia.
        rewrite Z2Nat.inj_add by lia. symmetry. apply firstn_plus.
  - do 2 eexists.
    split; [|split; [|right; split; [reflexivity|]]].
    + reflexivity.
    + cbn. rewrite length_app. cbn. lia.
    + cbn. split; [reflexivity|]. split; [reflexivity|].
      split; [auto|exact Hsent].
Qed.

(** X5. write_tcp called again and again on the same message, once per
    answer of write(), for as long as it returns AGAIN: whatever the
    sizes of the partial writes, the result is OK or AGAIN; on OK the
    socket has taken the message exactly once, in order, and old_wsize
    is back to 0, ready for the next message; on AGAIN the socket has
    taken the first old_wsize bytes. At most one write() is issued per
    answer, all on the same descriptor, and a message none of whose
    bytes is left to write is never reported as written. *)
Theorem write_tcp_retries_send_once (answers : list answer) (w : world)
    (peer : rs_peer) (wbuf : list byte) (wbuf_size : Z)
    (sent : list byte) :
  Z.of_nat (length wbuf) = wbuf_size ->
  wbuf_size <= SIZE_MAX ->
  0 <= old_wsize peer <= wbuf_size ->
  wire_out w = sent ++ firstn (Z.to_nat (old_wsize peer)) wbuf ->
  answers_fit answers (old_wsize peer) wbuf_size ->
  exists r peer' w',
    write_tcp_retries answers w peer wbuf wbuf_size = (r, (peer', w')) /\
    socket_fd peer' = socket_fd peer /\
    (length (calls w') <= length (calls w) + length answers)%nat /\
    (r = RS_OK \/ r = RS_AGAIN) /\
    (r = RS_OK ->
     old_wsize peer < wbuf_size /\
     old_wsize peer' = 0 /\ wire_out w' = sent ++ wbuf) /\
    (r = RS_AGAIN ->
     old_wsize peer <= old_wsize peer' <= wbuf_size /\
     wire_out w' = sent ++ firstn (Z.to_nat (old_wsize peer')) wbuf).
Proof.
  revert w peer.
  induction answers as [|a rest IH]; intros w peer Hlen Hmax Hold Hsent Hfit.
  - exists RS_AGAIN, peer, w. cbn [write_tcp_retries length].
    repeat split; auto; try discriminate; lia.
  - destruct Hfit as [Hfit Hrest]. cbn [write_tcp_retries length].
    destruct (write_tcp_step a w peer wbuf wbuf_size sent
                Hlen Hmax Hold Hsent Hfit)
      as (peer1 & w1 & Hfd & Hcalls & [Hok | Hagain]).
    + destruct Hok as (Hrun & Hlt & Hz & Hwire). rewrite Hrun.
      exists RS_OK, peer1, w1.
      repeat split; auto; try discriminate; lia.
    + destruct Hagain as (Hrun & _ & Hold1 & Hlt1 & Hwire1).
      rewrite Hrun.
      assert (Hrange : 0 <= old_wsize peer1 <= wbuf_size).
      { rewrite Hold1. destruct (0 <? ret a) eqn:Hp; [|lia].
        apply Z.ltb_lt in Hp. lia. }
      rewrite <- Hold1 in Hrest.
      destruct (IH w1 peer1 Hlen Hmax Hrange Hwire1 Hrest)
        as (r & peer2 & w2 & Hrun2 & Hfd2 & Hc2 & Hr2 & Hok2 & Hag2).
      exists r, peer2, w2.
      assert (Hmono : old_wsize peer <= old_wsize peer1).
      { rewrite Hold1. destruct (0 <? ret a) eqn:Hp; [|lia].
        apply Z.ltb_lt in Hp. lia. }
      split; [exact Hrun2|]. split; [congruence|]. split; [lia|].
      split; [exact Hr2|]. split.
      * intro Hr. destruct (Hok2 Hr) as (H1 & H2 & H3).
        split; [|split]; auto.
        destruct (Z.lt_ge_cases (old_wsize peer) wbuf_size) as [|Hge];
          [assumption|].
        exfalso. lia.
      * intro Hr. destruct (Hag2 Hr) as (H1 & H2). split; [lia|exact H2].
Qed.

(** A message of five bytes written in three calls: two bytes, a call
    that would block, the other three. *)
Lemma write_tcp_retries_send_once_witness :
  fst (write_tcp_retries three_writes quiet_world closing_peer
         [10; 20; 30; 40; 50] 5) = RS_OK /\
  wire_out (snd (snd (write_tcp_retries three_writes quiet_world
                        closing_peer [10; 20; 30; 40; 50] 5)))
  = [10; 20; 30; 40; 50].
Proof.
  split; [reflexivity|].
  destruct (write_tcp_retries_send_once three_writes quiet_world
              closing_peer [10; 20; 30; 40; 50] 5 [])
    as (r & peer' & w' & Hrun & _ & _ & _ & Hok & _).
  - reflexivity.
  - unfold SIZE_MAX. lia.
  - simpl. lia.
  - reflexivity.
  - simpl. lia.
  - rewrite Hrun. cbn [snd fst].
    assert (Hr : r = RS_OK) by (vm_compute in Hrun; congruence).
    exact (proj2 (proj2 (Hok Hr))).
Defined.

Lemma logged_app (w : world) (lvl : log_level) (j k : nat) :
  logged w lvl j ++ logged w lvl k = logged w lvl (j + k).
Proof.
  unfold logged. destruct (priority lvl <=? _rs_log_max w); [|reflexivity].
  symmetry. apply repeat_app.
Qed.

Lemma drain_reads_logs (fd rbuf_size : Z) (pending : list positive)
    (last : read_end) (w : world) :
  logs (snd (drain_reads fd rbuf_size pending last w))
  = logs w ++ logged w LOG_DEBUG (S (length pending)) /\
  wire_out (snd (drain_reads fd rbuf_size pending last w)) = wire_out w /\
  _rs_log_max (snd (drain_reads fd rbuf_size pending last w))
  = _rs_log_max w.
Proof.
  revert w. induction pending as [|c rest IH]; intro w.
  - cbn [drain_reads snd length]. rewrite RS_LOG_logs. cbn. auto.
  - cbn [drain_reads]. destruct (IH (RS_LOG LOG_DEBUG
        (sys_call (Sys_read fd rbuf_size) {| ret := Z.pos c; err := 0 |} w)))
      as (H1 & H2 & H3).
    rewrite H1, H2, H3, RS_LOG_logs.
    cbn [logs wire_out _rs_log_max RS_LOG sys_call length].
    rewrite <- app_assoc.
    change (logged (RS_LOG LOG_DEBUG
                      (sys_call (Sys_read fd rbuf_size)
                         {| ret := Z.pos c; err := 0 |} w)) LOG_DEBUG
              (S (length rest)))
      with (logged w LOG_DEBUG (S (length rest))).
    change (logged (sys_call (Sys_read fd rbuf_size)
                      {| ret := Z.pos c; err := 0 |} w) LOG_DEBUG 1)
      with (logged w LOG_DEBUG 1).
    rewrite logged_app. auto.
Qed.

(** X6. read_bidirectional_tcp_shutdown returns AGAIN or CLOSE_PEER and
    nothing else. It returns AGAIN exactly when the read that ended the
    loop failed with EAGAIN, and then only clears is_writing; in every
    other case it returns CLOSE_PEER and the peer is DEAD, also when
    that read failed with another error. It passes one debug line per
    read() to RS_LOG and, after them, one warning only when the last
    read failed with an error other than EAGAIN; the lines of a level
    are logged when that level is not above the run-time log level
    _rs_log_max, so that at the level LOG_NOTICE no debug line is
    logged. *)
Theorem read_bidirectional_tcp_shutdown_outcomes (pending : list positive)
    (last : read_end) (w : world) (peer : rs_peer) (rbuf_size : Z)
    (r : rs_ret) (peer' : rs_peer) (w' : world) :
  read_bidirectional_tcp_shutdown pending last w peer rbuf_size
  = (r, (peer', w')) ->
  (r = RS_AGAIN \/ r = RS_CLOSE_PEER) /\
  (r = RS_AGAIN <-> ends_in_eagain last = true) /\
  (r = RS_AGAIN -> peer' = set_is_writing false peer) /\
  (r = RS_CLOSE_PEER -> peer' = set_mortality RS_MORTALITY_DEAD peer) /\
  logs w'
  = logs w ++ logged w LOG_DEBUG (S (length pending))
    ++ match last with
       | Read_zero => []
       | Read_fails e =>
           if e =? EAGAIN then [] else logged w LOG_WARNING 1
       end /\
  wire_out w' = wire_out w /\
  _rs_log_max w' = _rs_log_max w.
Proof.
  unfold read_bidirectional_tcp_shutdown.
  destruct (drain_reads_spec (socket_fd peer) rbuf_size pending last w)
    as (Hret & _ & _ & Herr).
  destruct (drain_reads_logs (socket_fd peer) rbuf_size pending last w)
    as (Hlogs & Hwire & Hmax).
  destruct (drain_reads (socket_fd peer) rbuf_size pending last w)
    as [rsize w1].
  cbn [fst snd] in Hret, Herr, Hlogs, Hwire, Hmax. rewrite Hret, Herr.
  destruct last as [|e]; cbn [end_answer ret ends_in_eagain].
  - change (0 =? 0) with true. cbv iota.
    intro H; inversion H; subst.
    rewrite Hlogs, Hwire, Hmax, app_nil_r.
    repeat split; auto; discriminate.
  - change (-1 =? 0) with false. cbv iota.
    destruct (e =? EAGAIN); intro H; inversion H; subst.
    + rewrite Hlogs, Hwire, Hmax, app_nil_r.
      repeat split; auto; discriminate.
    + assert (Hl : logged w1 LOG_WARNING 1 = logged w LOG_WARNING 1)
        by (unfold logged; now rewrite Hmax).
      rewrite RS_LOG_logs, Hl. cbn [wire_out _rs_log_max RS_LOG].
      rewrite Hlogs, Hwire, Hmax, <- app_assoc.
      repeat split; auto; discriminate.
Qed.

(** Five bytes pending, then ECONNRESET (104): two reads. At the log
    level LOG_NOTICE only the warning is logged; at the level LOG_DEBUG
    the two debug lines are logged before it. *)
Lemma read_bidirectional_tcp_shutdown_outcomes_witness :
  fst (read_bidirectional_tcp_shutdown [5%positive] (Read_fails 104)
         quiet_world closing_peer 4096) = RS_CLOSE_PEER /\
  logs (snd (snd (read_bidirectional_tcp_shutdown [5%positive]
                    (Read_fails 104) quiet_world closing_peer 4096)))
  = [LOG_WARNING] /\
  logs (snd (snd (read_bidirectional_tcp_shutdown [5%positive]
                    (Read_fails 104) verbose_world closing_peer 4096)))
  = [LOG_DEBUG; LOG_DEBUG; LOG_WARNING].
Proof.
  split; [reflexivity|].
  pose (out := read_bidirectional_tcp_shutdown [5%positive]
                 (Read_fails 104) quiet_world closing_peer 4096).
  destruct (read_bidirectional_tcp_shutdown_outcomes [5%positive]
              (Read_fails 104) quiet_world closing_peer 4096
              (fst out) (fst (snd out)) (snd (snd out)) eq_refl)
    as (_ & _ & _ & _ & Hlogs & _).
  pose (out2 := read_bidirectional_tcp_shutdown [5%positive]
                  (Read_fails 104) verbose_world closing_peer 4096).
  destruct (read_bidirectional_tcp_shutdown_outcomes [5%positive]
              (Read_fails 104) verbose_world closing_peer 4096
              (fst out2) (fst (snd out2)) (snd (snd out2)) eq_refl)
    as (_ & _ & _ & _ & Hlogs2 & _).
  split; [exact Hlogs|exact Hlogs2].
Defined.

Lemma shutdown_count_app (a b : list syscall) :
  shutdown_count (a ++ b) = (shutdown_count a + shutdown_count b)%nat.
Proof.
  induction a as [|c a IH]; [reflexivity|].
  destruct c; cbn [app shutdown_count]; rewrite IH; reflexivity.
Qed.

Lemma shutdown_count_drain (fd rbuf_size : Z) (pending : list positive) :
  shutdown_count (drain_calls fd rbuf_size pending) = O.
Proof.
  unfold drain_calls. induction (S (length pending)) as [|k IH];
    [reflexivity|exact IH].
Qed.

(** X7. For a peer that is past LIVE, handle_tcp_io returns OK or FATAL
    and nothing else: the CLOSE_PEER and AGAIN of the read-drain step
    never reach the caller. FATAL is returned exactly when the peer was
    in SHUTDOWN_WRITE and shutdown() failed. The TLS layer plays no part
    (the outcome is the same whatever init_tls_session would do), and
    shutdown() is called once for a peer in SHUTDOWN_WRITE and not at
    all otherwise. *)
Theorem handle_tcp_io_past_live
    (init_tls_session other_tls : rs_peer -> rs_ret * rs_peer)
    (k : tcp_answers) (w : world) (peer : rs_peer)
    (rbuf_size peer_i : Z) :
  mortality peer <> RS_MORTALITY_LIVE ->
  let out := handle_tcp_io init_tls_session k w peer rbuf_size peer_i in
  (fst out = RS_OK \/ fst out = RS_FATAL) /\
  (fst out = RS_FATAL <->
   mortality peer = RS_MORTALITY_SHUTDOWN_WRITE /\
   ret (k_shutdown k) = -1) /\
  out = handle_tcp_io other_tls k w peer rbuf_size peer_i /\
  shutdown_count (calls (snd (snd out)))
  = (shutdown_count (calls w)
     + match mortality peer with
       | RS_MORTALITY_SHUTDOWN_WRITE => 1
       | _ => 0
       end)%nat.
Proof.
  intros Hlive out. subst out.
  unfold handle_tcp_io, mortality_switch.
  destruct (mortality peer) eqn:Hm; [congruence| | |].
  - unfold write_bidirectional_tcp_shutdown, RS_GUARD.
    destruct (ret (k_shutdown k) =? -1) eqn:Hs.
    + apply Z.eqb_eq in Hs. cbn.
      rewrite shutdown_count_app. cbn.
      repeat split; auto; discriminate.
    + apply Z.eqb_neq in Hs. cbn [fst snd].
      destruct (shutdown_read_case_spec k
                  (sys_call (Sys_shutdown_wr (socket_fd peer))
                     (k_shutdown k) w)
                  (set_mortality RS_MORTALITY_SHUTDOWN_READ peer)
                  rbuf_size) as (w1 & Hc & _ & Heq).
      rewrite Heq. cbn [calls sys_call] in Hc.
      destruct (ends_in_eagain (k_last k)).
      * cbn [fst snd]. rewrite Hc, !shutdown_count_app,
          shutdown_count_drain. cbn [shutdown_count].
        repeat split; auto; try discriminate; try lia.
      * destruct (close_and_free_spec (k_close k) w1
                    (set_mortality RS_MORTALITY_DEAD
                       (set_mortality RS_MORTALITY_SHUTDOWN_READ peer))
                    peer_i) as (w2 & Hcf & Hc2 & _).
        rewrite Hcf. cbn [fst snd].
        rewrite Hc2, Hc, !shutdown_count_app, shutdown_count_drain.
        cbn [shutdown_count].
        repeat split; auto; try discriminate; try lia.
  - destruct (shutdown_read_case_spec k w peer rbuf_size)
      as (w1 & Hc & _ & Heq).
    rewrite Heq.
    destruct (ends_in_eagain (k_last k)).
    + cbn [fst snd]. rewrite Hc, shutdown_count_app, shutdown_count_drain.
      repeat split; auto; try discriminate; try lia.
      intros []; congruence.
    + destruct (close_and_free_spec (k_close k) w1
                  (set_mortality RS_MORTALITY_DEAD peer) peer_i)
        as (w2 & Hcf & Hc2 & _).
      rewrite Hcf. cbn [fst snd].
      rewrite Hc2, Hc, !shutdown_count_app, shutdown_count_drain.
      cbn [shutdown_count].
      repeat split; auto; try discriminate; try lia.
      intros []; congruence.
  - destruct (close_and_free_spec (k_close k) w peer peer_i)
      as (w2 & Hcf & Hc2 & _).
    rewrite Hcf. cbn [fst snd]. rewrite Hc2, shutdown_count_app.
    cbn [shutdown_count].
    repeat split; auto; try discriminate; try lia.
    intros []; congruence.
Qed.

Lemma handle_tcp_io_past_live_witness :
  fst (handle_tcp_io no_tls fin_answers quiet_world closing_peer 4096 3)
  = RS_OK /\
  shutdown_count
    (calls (snd (snd (handle_tcp_io no_tls fin_answers quiet_world
                        closing_peer 4096 3)))) = 1%nat.
Proof.
  split; [reflexivity|].
  destruct (handle_tcp_io_past_live no_tls no_tls fin_answers quiet_world
              closing_peer 4096 3) as (_ & _ & _ & Hcount).
  - discriminate.
  - exact Hcount.
Defined.

(** X8. A shutdown that takes two invocations. handle_tcp_io is entered
    with a peer in SHUTDOWN_WRITE, shutdown() succeeds and the drain
    ends in EAGAIN: OK is returned and the peer waits in SHUTDOWN_READ.
    Entered again with that peer when the drain no longer ends in
    EAGAIN, it does not call shutdown() a second time: it reads, closes
    the descriptor, zeroes the slot and frees it. Over both invocations
    the system calls are one shutdown(), the reads of the two drains
    and one close(), all on the peer's descriptor, in that order. *)
Theorem handle_tcp_io_two_invocations
    (init_tls_session : rs_peer -> rs_ret * rs_peer)
    (k1 k2 : tcp_answers) (w : world) (peer : rs_peer)
    (rbuf_size peer_i : Z) :
  mortality peer = RS_MORTALITY_SHUTDOWN_WRITE ->
  ret (k_shutdown k1) <> -1 ->
  ends_in_eagain (k_last k1) = true ->
  ends_in_eagain (k_last k2) = false ->
  exists peer1 w1 w2,
    handle_tcp_io init_tls_session k1 w peer rbuf_size peer_i
    = (RS_OK, (peer1, w1)) /\
    mortality peer1 = RS_MORTALITY_SHUTDOWN_READ /\
    is_writing peer1 = false /\
    free_slots w1 = free_slots w /\
    handle_tcp_io init_tls_session k2 w1 peer1 rbuf_size peer_i
    = (RS_OK, (zero_peer, w2)) /\
    calls w2
    = calls w ++ [Sys_shutdown_wr (socket_fd peer)]
      ++ drain_calls (socket_fd peer) rbuf_size (k_pending k1)
      ++ drain_calls (socket_fd peer) rbuf_size (k_pending k2)
      ++ [Sys_close (socket_fd peer)] /\
    free_slots w2 = peer_i :: free_slots w.
Proof.
  intros Hm Hs He1 He2.
  apply Z.eqb_neq in Hs.
  destruct (shutdown_read_case_spec k1
              (sys_call (Sys_shutdown_wr (socket_fd peer))
                 (k_shutdown k1) w)
              (set_mortality RS_MORTALITY_SHUTDOWN_READ peer)
              rbuf_size) as (w1 & Hc1 & Hf1 & Heq1).
  rewrite He1 in Heq1.
  destruct (shutdown_read_case_spec k2 w1
              (set_is_writing false
                 (set_mortality RS_MORTALITY_SHUTDOWN_READ peer))
              rbuf_size) as (w1' & Hc2 & Hf2 & Heq2).
  rewrite He2 in Heq2.
  destruct (close_and_free_spec (k_close k2) w1'
              (set_mortality RS_MORTALITY_DEAD
                 (set_is_writing false
                    (set_mortality RS_MORTALITY_SHUTDOWN_READ peer)))
              peer_i) as (w2 & Hcf & Hc3 & Hf3).
  exists (set_is_writing false
            (set_mortality RS_MORTALITY_SHUTDOWN_READ peer)), w1, w2.
  split; [|split; [reflexivity|split; [reflexivity|split]]].
  - unfold handle_tcp_io, mortality_switch.
    rewrite Hm. unfold write_bidirectional_tcp_shutdown, RS_GUARD.
    rewrite Hs. cbn [fst snd]. rewrite Heq1. reflexivity.
  - rewrite Hf1. reflexivity.
  - split; [|split].
    + unfold handle_tcp_io, mortality_switch.
      cbn [mortality set_is_writing set_mortality].
      rewrite Heq2. exact Hcf.
    + rewrite Hc3, Hc2, Hc1. cbn [calls sys_call socket_fd set_mortality
        set_is_writing]. now rewrite <- !app_assoc.
    + rewrite Hf3, Hf2, Hf1. reflexivity.
Qed.

(** The descriptor of the peer is closed once over the two
    invocations. *)
Lemma handle_tcp_io_two_invocations_witness :
  closed_fds
    (calls (snd (snd
       (handle_tcp_io no_tls fin_answers
          (snd (snd (handle_tcp_io no_tls wait_answers quiet_world
                       closing_peer 4096 3)))
          (fst (snd (handle_tcp_io no_tls wait_answers quiet_world
                       closing_peer 4096 3)))
          4096 3)))) = [9].
Proof.
  destruct (handle_tcp_io_two_invocations no_tls wait_answers fin_answers
              quiet_world closing_peer 4096 3)
    as (peer1 & w1 & w2 & Hrun1 & _ & _ & _ & Hrun2 & Hcalls & _).
  - reflexivity.
  - simpl. lia.
  - reflexivity.
  - reflexivity.
  - rewrite Hrun1. cbn [fst snd]. rewrite Hrun2. cbn [fst snd].
    rewrite Hcalls. reflexivity.
Defined.

(** ** The scratch buffer, further properties *)

Section ScratchMore.

Variable P : platform.

Local Abbreviation le := (little_endian P).

Lemma poke_length (buf : list byte) (off : nat) (data : list byte) :
  (off + length data <= length buf)%nat ->
  length (poke buf off data) = length buf.
Proof.
  intro H. unfold poke.
  rewrite !length_app, length_firstn, length_skipn. lia.
Qed.

(** X9. rs_check_app_wsize returns OK or FATAL and touches nothing but
    the allocation and its size. On OK the buffer is allocated. On FATAL
    the buffer pointer is NULL, also when there was an allocation on
    entry: then realloc() was refused, the scratch bytes written so far
    are gone while wbuf_i still counts them, and wbuf_size holds the
    size that was refused. *)
Theorem rs_check_app_wsize_outcomes (n : rs) (incr_size : Z) (r : rs_ret)
    (n' : rs) :
  rs_check_app_wsize P n incr_size = (r, n') ->
  (r = RS_OK \/ r = RS_FATAL) /\
  conf n' = conf n /\ wbuf_i n' = wbuf_i n /\
  outbound_rings n' = outbound_rings n /\
  ring_update_queue n' = ring_update_queue n /\
  (r = RS_OK -> wbuf n' <> None) /\
  (r = RS_FATAL -> wbuf n' = None) /\
  (r = RS_FATAL -> wbuf n <> None ->
   wbuf_size n <= to_size_t (wbuf_i n + incr_size) /\
   wbuf_size n'
   = to_size_t (realloc_multiplier (conf n)
                * to_size_t (wbuf_i n + incr_size)) /\
   heap_grants P (wbuf_size n') = false).
Proof.
  unfold rs_check_app_wsize, RS_GUARD, RS_CALLOC, RS_REALLOC.
  destruct (wbuf n) as [b|] eqn:Hb.
  - destruct (wbuf_size n <=? to_size_t (wbuf_i n + incr_size)) eqn:Hfull.
    + apply Z.leb_le in Hfull.
      cbn [wbuf wbuf_size set_wbuf_size]. rewrite Hb.
      destruct (heap_grants P _) eqn:Hg; intro H; inversion H; subst;
        cbn; repeat split; auto; try discriminate.
    + intro H; inversion H; subst.
      repeat split; auto; try discriminate; congruence.
  - destruct (heap_grants P (wbuf_size n)) eqn:Hg0.
    + cbn [wbuf wbuf_size wbuf_i conf set_wbuf].
      destruct (wbuf_size n <=? to_size_t (wbuf_i n + incr_size)).
      * cbn [wbuf wbuf_size set_wbuf_size set_wbuf].
        destruct (heap_grants P (to_size_t _)) eqn:Hg;
          intro H; inversion H; subst;
          cbn; repeat split; auto; try discriminate; congruence.
      * intro H; inversion H; subst. cbn.
        repeat split; auto; discriminate.
    + intro H; inversion H; subst. cbn.
      repeat split; auto; try discriminate; congruence.
Qed.

(** What a successful check leaves for the append that follows it. *)
Lemma rs_check_app_wsize_room (n : rs) (incr_size : Z) (n1 : rs) :
  2 <= realloc_multiplier (conf n) ->
  1 <= incr_size ->
  realloc_multiplier (conf n) * (wbuf_i n + incr_size) <= SIZE_MAX ->
  scratch_ok n ->
  rs_check_app_wsize P n incr_size = (RS_OK, n1) ->
  conf n1 = conf n /\ wbuf_i n1 = wbuf_i n /\
  outbound_rings n1 = outbound_rings n /\
  wbuf_i n + incr_size < wbuf_size n1 /\
  wbuf_size n <= wbuf_size n1 /\
  (wbuf_i n + incr_size < wbuf_size n -> wbuf n <> None -> n1 = n) /\
  exists b1,
    wbuf n1 = Some b1 /\ Z.of_nat (length b1) = wbuf_size n1 /\
    firstn (Z.to_nat (wbuf_i n)) b1 = scratch n.
Proof.
  intros Hm Hincr Hcap [Hi Hok] Hcheck.
  destruct (rs_check_app_wsize_ok P n incr_size n1 Hcheck)
    as (Hc1 & Hi1 & Hrings & b0 & Hb0 & Hcase).
  destruct (grown_size (realloc_multiplier (conf n)) (wbuf_i n + incr_size))
    as (Hsum & Hprod & Hlt); try lia.
  rewrite Hsum in Hcase.
  split; [exact Hc1|]. split; [exact Hi1|]. split; [exact Hrings|].
  destruct (wbuf_size n <=? wbuf_i n + incr_size) eqn:Hfull.
  - apply Z.leb_le in Hfull.
    destruct Hcase as [Hs1 Hw1]. rewrite Hprod in Hs1.
    split; [lia|]. split; [lia|]. split; [lia|].
    eexists. split; [exact Hw1|]. rewrite resized_length.
    split; [lia|].
    unfold scratch. destruct Hb0 as [Hb0 | [Hb0 Hz]]; rewrite Hb0 in *.
    + apply firstn_resized; lia.
    + rewrite Hok. reflexivity.
  - apply Z.leb_gt in Hfull. destruct Hcase as [Hs1 Hw1].
    split; [lia|]. split; [lia|]. split.
    { intros _ Hne. destruct Hb0 as [Hb0 | [Hb0 _]]; [|contradiction].
      unfold rs_check_app_wsize, RS_GUARD in Hcheck.
      rewrite Hb0, Hsum in Hcheck.
      replace (wbuf_size n <=? wbuf_i n + incr_size) with false in Hcheck
        by (symmetry; apply Z.leb_gt; lia).
      now inversion Hcheck. }
    exists b0. split; [exact Hw1|].
    unfold scratch. destruct Hb0 as [Hb0 | [Hb0 Hz]]; rewrite Hb0 in *.
    + split; [lia|reflexivity].
    + rewrite Hok. split; [|reflexivity].
      rewrite Hz, repeat_length. lia.
Qed.

(** X10. After a successful rs_check_app_wsize for incr_size bytes, a
    second check for no more bytes than that finds the room it needs:
    it returns OK and changes nothing, neither the allocation nor its
    size. *)
Theorem rs_check_app_wsize_idempotent (n : rs) (incr_size again : Z)
    (n' : rs) :
  2 <= realloc_multiplier (conf n) ->
  1 <= incr_size ->
  0 <= again <= incr_size ->
  realloc_multiplier (conf n) * (wbuf_i n + incr_size) <= SIZE_MAX ->
  scratch_ok n ->
  rs_check_app_wsize P n incr_size = (RS_OK, n') ->
  rs_check_app_wsize P n' again = (RS_OK, n').
Proof.
  intros Hm Hincr Hagain Hcap Hok Hcheck.
  destruct (rs_check_app_wsize_room n incr_size n' Hm Hincr Hcap Hok Hcheck)
    as (_ & Hi1 & _ & Hroom & _ & _ & b1 & Hb1 & _ & _).
  destruct Hok as [Hi _].
  unfold rs_check_app_wsize, RS_GUARD. rewrite Hb1, Hi1.
  rewrite to_size_t_small by nia.
  now replace (wbuf_size n' <=? wbuf_i n + again) with false
    by (symmetry; apply Z.leb_gt; lia).
Qed.

(** An append through the guard keeps the scratch buffer in order. *)
Lemma scratch_append_ok (n : rs) (data : list byte) (size : Z) (n' : rs) :
  2 <= realloc_multiplier (conf n) ->
  1 <= size -> Z.of_nat (length data) = size ->
  realloc_multiplier (conf n) * (wbuf_i n + size) <= SIZE_MAX ->
  scratch_ok n ->
  RS_GUARD_APP (rs_check_app_wsize P n size)
    (fun n => (RS_OK, scratch_store data size n)) = (RS_OK, n') ->
  scratch n' = scratch n ++ data /\ wbuf_i n' = wbuf_i n + size /\
  scratch_ok n' /\ conf n' = conf n /\
  outbound_rings n' = outbound_rings n.
Proof.
  intros Hm Hsize Hlen Hcap Hok.
  unfold RS_GUARD_APP, RS_GUARD.
  destruct (rs_check_app_wsize P n size) as [r n1] eqn:Hcheck.
  destruct r; try discriminate.
  intro H; inversion H; subst n'; clear H.
  destruct (rs_check_app_wsize_room n size n1 Hm Hsize Hcap Hok Hcheck)
    as (Hc1 & Hi1 & Hrings & Hroom & _ & _ & b1 & Hb1 & Hlen1 & Hpre).
  destruct Hok as [Hi _].
  assert (Hsum : to_size_t (wbuf_i n + size) = wbuf_i n + size)
    by (apply to_size_t_small; nia).
  unfold scratch_store, scratch at 1, scratch_ok.
  cbn [wbuf wbuf_i wbuf_size conf set_wbuf set_wbuf_i outbound_rings].
  rewrite Hb1, Hi1, Hsum.
  split; [|split; [reflexivity|split; [|split; assumption]]].
  - rewrite Z2Nat.inj_add by lia.
    rewrite <- Hlen, Nat2Z.id, poke_prefix by lia.
    now rewrite Hpre.
  - split; [lia|]. rewrite poke_length by lia. lia.
Qed.

(** X11. Two appends with rs_w_p add up: after both, the scratch buffer
    holds what it held, then the bytes of the first call, then those of
    the second, in the order of the calls whatever reallocation took
    place between them, the offset has moved by the sum of the sizes
    and still lies inside the allocation.
    Stated for realloc_multiplier >= 2, a scratch buffer in order and
    no size_t overflow of the grown size. *)
Theorem rs_w_p_twice (n : rs) (src1 src2 : list byte) (size1 size2 : Z)
    (n1 n2 : rs) :
  2 <= realloc_multiplier (conf n) ->
  1 <= size1 <= Z.of_nat (length src1) ->
  1 <= size2 <= Z.of_nat (length src2) ->
  realloc_multiplier (conf n) * (wbuf_i n + size1 + size2) <= SIZE_MAX ->
  scratch_ok n ->
  rs_w_p P n src1 size1 = (RS_OK, n1) ->
  rs_w_p P n1 src2 size2 = (RS_OK, n2) ->
  scratch n2
  = scratch n ++ firstn (Z.to_nat size1) src1
    ++ firstn (Z.to_nat size2) src2 /\
  wbuf_i n2 = wbuf_i n + size1 + size2 /\
  scratch_ok n2 /\
  Z.of_nat (length (scratch n2)) = wbuf_i n2.
Proof.
  intros Hm H1 H2 Hcap Hok Hrun1 Hrun2.
  assert (Hi : 0 <= wbuf_i n) by apply Hok.
  unfold rs_w_p in Hrun1, Hrun2.
  destruct (scratch_append_ok n (firstn (Z.to_nat size1) src1) size1 n1)
    as (Hs1 & Hi1 & Hok1 & Hc1 & _); auto; try lia; try nia.
  { rewrite length_firstn. lia. }
  destruct (scratch_append_ok n1 (firstn (Z.to_nat size2) src2) size2 n2)
    as (Hs2 & Hi2 & Hok2 & _ & _); auto; try lia.
  { rewrite Hc1. lia. }
  { rewrite length_firstn. lia. }
  { rewrite Hc1, Hi1. lia. }
  rewrite Hs2, Hs1, Hi2, Hi1, <- app_assoc.
  repeat split; auto; try apply Hok2.
  rewrite !length_app, !length_firstn.
  assert (Hl : Z.of_nat (length (scratch n)) = wbuf_i n).
  { unfold scratch. destruct Hok as [_ Hw].
    destruct (wbuf n) as [b|]; [|now rewrite Hw].
    rewrite length_firstn. lia. }
  lia.
Qed.

(** X12. rs_w_uint8, rs_w_uint16 and rs_w_uint32 append one, two and
    four bytes: the argument, reduced to the width of the parameter, in
    host byte order. Read back as an integer of that width in host
    order the bytes give the reduced argument, on either kind of
    host.
    Stated for realloc_multiplier >= 2, a scratch buffer in order and
    no size_t overflow of the grown size. *)
Theorem rs_w_uint_appends (n : rs) (v : Z) (n' : rs) :
  2 <= realloc_multiplier (conf n) ->
  realloc_multiplier (conf n) * (wbuf_i n + 4) <= SIZE_MAX ->
  scratch_ok n ->
  (rs_w_uint8 P n v = (RS_OK, n') ->
   scratch n' = scratch n ++ [v mod 2 ^ 8] /\ wbuf_i n' = wbuf_i n + 1) /\
  (rs_w_uint16 P n v = (RS_OK, n') ->
   scratch n' = scratch n ++ store_uint le 2 (v mod 2 ^ 16) /\
   wbuf_i n' = wbuf_i n + 2) /\
  (rs_w_uint32 P n v = (RS_OK, n') ->
   scratch n' = scratch n ++ store_uint le 4 (v mod 2 ^ 32) /\
   wbuf_i n' = wbuf_i n + 4) /\
  load_uint le (store_uint le 2 (v mod 2 ^ 16)) = v mod 2 ^ 16 /\
  load_uint le (store_uint le 4 (v mod 2 ^ 32)) = v mod 2 ^ 32.
Proof.
  intros Hm Hcap Hok.
  assert (Hi : 0 <= wbuf_i n) by apply Hok.
  split; [|split; [|split; [|split]]].
  - intro Hrun. unfold rs_w_uint8 in Hrun.
    destruct (scratch_append_ok n [to_uint8 v] 1 n')
      as (H1 & H2 & _); auto; lia.
  - intro Hrun. unfold rs_w_uint16 in Hrun.
    destruct (scratch_append_ok n (store_uint le 2 (to_uint16 v)) 2 n')
      as (H1 & H2 & _); auto; try lia.
    now rewrite store_uint_length.
  - intro Hrun. unfold rs_w_uint32 in Hrun.
    destruct (scratch_append_ok n (store_uint le 4 (to_uint32 v)) 4 n')
      as (H1 & H2 & _); auto; try lia.
    now rewrite store_uint_length.
  - rewrite load_store_uint. change (256 ^ Z.of_nat 2) with (2 ^ 16).
    apply Z.mod_mod. lia.
  - rewrite load_store_uint, pow256_4. apply Z.mod_mod. lia.
Qed.

(** X13. rs_w_uint16_hton and rs_w_uint32_hton append the argument in
    network byte order, most significant byte first, and the bytes are
    the same on a little-endian and on a big-endian host.
    Stated for realloc_multiplier >= 2, a scratch buffer in order and
    no size_t overflow of the grown size. *)
Theorem rs_w_uint_hton_appends_big_endian (n : rs) (v : Z) (n' : rs) :
  2 <= realloc_multiplier (conf n) ->
  realloc_multiplier (conf n) * (wbuf_i n + 4) <= SIZE_MAX ->
  scratch_ok n ->
  (rs_w_uint16_hton P n v = (RS_OK, n') ->
   scratch n' = scratch n ++ be_bytes 2 v /\ wbuf_i n' = wbuf_i n + 2) /\
  (rs_w_uint32_hton P n v = (RS_OK, n') ->
   scratch n' = scratch n ++ be_bytes 4 v /\ wbuf_i n' = wbuf_i n + 4).
Proof.
  intros Hm Hcap Hok.
  assert (Hi : 0 <= wbuf_i n) by apply Hok.
  assert (Hfix : forall (w : nat) (x : Z),
    store_uint le w (RS_HTON le w (x mod 2 ^ (8 * Z.of_nat w))
                     mod 2 ^ (8 * Z.of_nat w))
    = be_bytes w x).
  { intros w x. rewrite <- (RS_W_HTON_be le w x). unfold RS_W_HTON.
    f_equal. apply Z.mod_small.
    apply (RS_HTON_bounds le w).
    apply Z.mod_pos_bound. apply Z.pow_pos_nonneg; lia. }
  split.
  - intro Hrun. unfold rs_w_uint16_hton, rs_w_uint16 in Hrun.
    destruct (scratch_append_ok n
                (store_uint le 2
                   (to_uint16 (RS_HTON le 2 (to_uint16 v)))) 2 n')
      as (H1 & H2 & _); auto; try lia.
    + now rewrite store_uint_length.
    + split; [|exact H2]. rewrite H1. f_equal. apply (Hfix 2%nat v).
  - intro Hrun. unfold rs_w_uint32_hton, rs_w_uint32 in Hrun.
    destruct (scratch_append_ok n
                (store_uint le 4
                   (to_uint32 (RS_HTON le 4 (to_uint32 v)))) 4 n')
      as (H1 & H2 & _); auto; try lia.
    + now rewrite store_uint_length.
    + split; [|exact H2]. rewrite H1. f_equal. apply (Hfix 4%nat v).
Qed.

End ScratchMore.

(** A reallocation that is refused: ten bytes are in a scratch buffer of
    64 bytes, sixty more are announced and the heap grants no more than
    64 bytes. The pointer is NULL afterwards and wbuf_size is 140. *)
Lemma rs_check_app_wsize_outcomes_witness :
  fst (rs_check_app_wsize (small_heap_platform true 64) ten_in_scratch 60)
  = RS_FATAL /\
  wbuf (snd (rs_check_app_wsize (small_heap_platform true 64)
               ten_in_scratch 60)) = None /\
  wbuf_size (snd (rs_check_app_wsize (small_heap_platform true 64)
                    ten_in_scratch 60)) = 140.
Proof.
  pose (out := rs_check_app_wsize (small_heap_platform true 64)
                 ten_in_scratch 60).
  destruct (rs_check_app_wsize_outcomes (small_heap_platform true 64)
              ten_in_scratch 60 (fst out) (snd out) eq_refl)
    as (_ & _ & _ & _ & _ & _ & Hnull & Hsize).
  split; [reflexivity|]. split; [exact (Hnull eq_refl)|].
  destruct (Hsize eq_refl) as (_ & Hs & _); [discriminate|].
  etransitivity; [exact Hs|reflexivity].
Defined.

Lemma rs_check_app_wsize_idempotent_witness :
  rs_check_app_wsize (plain_platform true)
    (snd (rs_check_app_wsize (plain_platform true) (fresh_rs 1000 2 0 7)
            70)) 70
  = (RS_OK,
     snd (rs_check_app_wsize (plain_platform true) (fresh_rs 1000 2 0 7)
            70)).
Proof.
  apply (rs_check_app_wsize_idempotent (plain_platform true)
           (fresh_rs 1000 2 0 7) 70 70).
  - simpl. lia.
  - lia.
  - lia.
  - unfold SIZE_MAX. simpl. lia.
  - split; [simpl; lia|reflexivity].
  - reflexivity.
Defined.

Lemma rs_w_p_twice_witness :
  scratch (snd (rs_w_p (plain_platform true)
                  (snd (rs_w_p (plain_platform true) (fresh_rs 1000 2 0 7)
                          [1; 2; 3] 3))
                  [4; 5] 2))
  = [1; 2; 3; 4; 5].
Proof.
  destruct (rs_w_p_twice (plain_platform true) (fresh_rs 1000 2 0 7)
              [1; 2; 3] [4; 5] 3 2
              (snd (rs_w_p (plain_platform true) (fresh_rs 1000 2 0 7)
                      [1; 2; 3] 3))
              (snd (rs_w_p (plain_platform true)
                      (snd (rs_w_p (plain_platform true)
                              (fresh_rs 1000 2 0 7) [1; 2; 3] 3))
                      [4; 5] 2)))
    as (Hs & _).
  - simpl. lia.
  - simpl. lia.
  - simpl. lia.
  - unfold SIZE_MAX. simpl. lia.
  - split; [simpl; lia|reflexivity].
  - reflexivity.
  - reflexivity.
  - exact Hs.
Defined.

(** 258 = 0x0102 on a little-endian host: the bytes 02 01. *)
Lemma rs_w_uint_appends_witness :
  scratch (snd (rs_w_uint16 (plain_platform true) (fresh_rs 1000 2 0 7)
                  258))
  = [2; 1].
Proof.
  destruct (rs_w_uint_appends (plain_platform true) (fresh_rs 1000 2 0 7)
              258
              (snd (rs_w_uint16 (plain_platform true)
                      (fresh_rs 1000 2 0 7) 258)))
    as (_ & H16 & _).
  - simpl. lia.
  - unfold SIZE_MAX. simpl. lia.
  - split; [simpl; lia|reflexivity].
  - exact (proj1 (H16 eq_refl)).
Defined.

(** 1 in network order on a little-endian host: 00 00 00 01. *)
Lemma rs_w_uint_hton_appends_big_endian_witness :
  scratch (snd (rs_w_uint32_hton (plain_platform true)
                  (fresh_rs 1000 2 0 7) 1))
  = [0; 0; 0; 1].
Proof.
  destruct (rs_w_uint_hton_appends_big_endian (plain_platform true)
              (fresh_rs 1000 2 0 7) 1
              (snd (rs_w_uint32_hton (plain_platform true)
                      (fresh_rs 1000 2 0 7) 1)))
    as (_ & H32).
  - simpl. lia.
  - unfold SIZE_MAX. simpl. lia.
  - split; [simpl; lia|reflexivity].
  - exact (proj1 (H32 eq_refl)).
Defined.

(** ** The signed variants *)

Lemma to_signed_small (w v : Z) :
  0 < w -> - 2 ^ (w - 1) <= v < 2 ^ (w - 1) -> to_signed w v = v.
Proof.
  intros Hw Hv. unfold to_signed.
  assert (H2 : 2 ^ w = 2 * 2 ^ (w - 1)).
  { replace w with (Z.succ (w - 1)) at 1 by lia.
    rewrite Z.pow_succ_r by lia. reflexivity. }
  rewrite Z.mod_small by lia. lia.
Qed.

(** The signed value has the same low-order bits as the argument. *)
Lemma to_signed_mod (w k v : Z) :
  0 <= k <= w -> to_signed w v mod 2 ^ k = v mod 2 ^ k.
Proof.
  intros Hk. unfold to_signed.
  assert (Hpos : 0 < 2 ^ w) by (apply Z.pow_pos_nonneg; lia).
  assert (Hsplit : 2 ^ w = 2 ^ (w - k) * 2 ^ k).
  { rewrite <- Z.pow_add_r by lia. f_equal. lia. }
  pose proof (Z.div_mod (v + 2 ^ (w - 1)) (2 ^ w)) as Hdm.
  replace ((v + 2 ^ (w - 1)) mod 2 ^ w - 2 ^ (w - 1))
    with (v + (- ((v + 2 ^ (w - 1)) / 2 ^ w) * 2 ^ (w - k)) * 2 ^ k)
    by (rewrite <- Z.mul_assoc, <- Hsplit; lia).
  apply Z_mod_plus_full.
Qed.

Lemma to_signed_of_mod (w v : Z) :
  0 < w -> to_signed w (v mod 2 ^ w) = to_signed w v.
Proof.
  intro Hw. unfold to_signed. now rewrite Zplus_mod_idemp_l.
Qed.

Section SignedProperties.

Variable P : platform.

Local Abbreviation le := (little_endian P).

Lemma load_int_store_uint (w : nat) (v : Z) :
  (0 < w)%nat ->
  load_int le (store_uint le w (v mod 2 ^ (8 * Z.of_nat w)))
  = to_signed (8 * Z.of_nat w) v.
Proof.
  intro Hw. unfold load_int.
  rewrite store_uint_length, load_store_uint, pow256_pow2.
  rewrite Z.mod_mod by (apply Z.pow_nonzero; lia).
  apply to_signed_of_mod. lia.
Qed.

(** X14. rs_w_int8, rs_w_int16 and rs_w_int32 append the two's
    complement bytes of their argument in host order: the bytes are
    those the unsigned function appends for the argument modulo 2^8,
    2^16, 2^32, and read back as a signed integer of that width they
    give the argument again, negative ones included, whenever the
    argument fits the signed type.
    Stated for realloc_multiplier >= 2, a scratch buffer in order and
    no size_t overflow of the grown size. *)
Theorem rs_w_int_round_trip (n : rs) (v : Z) (n' : rs) :
  2 <= realloc_multiplier (conf n) ->
  realloc_multiplier (conf n) * (wbuf_i n + 4) <= SIZE_MAX ->
  scratch_ok n ->
  (rs_w_int8 P n v = (RS_OK, n') ->
   scratch n' = scratch n ++ [v mod 2 ^ 8] /\
   load_int le [v mod 2 ^ 8] = to_signed 8 v) /\
  (rs_w_int16 P n v = (RS_OK, n') ->
   scratch n' = scratch n ++ store_uint le 2 (v mod 2 ^ 16) /\
   load_int le (store_uint le 2 (v mod 2 ^ 16)) = to_signed 16 v) /\
  (rs_w_int32 P n v = (RS_OK, n') ->
   scratch n' = scratch n ++ store_uint le 4 (v mod 2 ^ 32) /\
   load_int le (store_uint le 4 (v mod 2 ^ 32)) = to_signed 32 v) /\
  (- 2 ^ 7 <= v < 2 ^ 7 -> to_signed 8 v = v) /\
  (- 2 ^ 15 <= v < 2 ^ 15 -> to_signed 16 v = v) /\
  (- 2 ^ 31 <= v < 2 ^ 31 -> to_signed 32 v = v).
Proof.
  intros Hm Hcap Hok.
  assert (Hi : 0 <= wbuf_i n) by apply Hok.
  split; [|split; [|split; [|split; [|split]]]].
  - intro Hrun. unfold rs_w_int8, rs_w_uint8 in Hrun.
    destruct (scratch_append_ok P n [to_uint8 (to_signed 8 v)] 1 n')
      as (H1 & _); auto; try lia.
    unfold to_uint8 in H1. rewrite (to_signed_mod 8 8 v) in H1 by lia.
    split; [exact H1|].
    unfold load_int, load_uint, be_value. cbn [length rev app le_value].
    destruct le; cbn [le_value];
      replace (v mod 2 ^ 8 + 256 * 0) with (v mod 2 ^ 8) by lia;
      apply (to_signed_of_mod 8); lia.
  - intro Hrun. unfold rs_w_int16, rs_w_uint16 in Hrun.
    destruct (scratch_append_ok P n
                (store_uint le 2 (to_uint16 (to_signed 16 v))) 2 n')
      as (H1 & _); auto; try lia.
    { now rewrite store_uint_length. }
    unfold to_uint16 in H1. rewrite (to_signed_mod 16 16 v) in H1 by lia.
    split; [exact H1|]. apply (load_int_store_uint 2 v). lia.
  - intro Hrun. unfold rs_w_int32, rs_w_uint32 in Hrun.
    destruct (scratch_append_ok P n
                (store_uint le 4 (to_uint32 (to_signed 32 v))) 4 n')
      as (H1 & _); auto; try lia.
    { now rewrite store_uint_length. }
    unfold to_uint32 in H1. rewrite (to_signed_mod 32 32 v) in H1 by lia.
    split; [exact H1|]. apply (load_int_store_uint 4 v). lia.
  - intro H. apply (to_signed_small 8 v); [lia|exact H].
  - intro H. apply (to_signed_small 16 v); [lia|exact H].
  - intro H. apply (to_signed_small 32 v); [lia|exact H].
Qed.

(** X15. rs_w_int16_hton and rs_w_int32_hton append the two's
    complement bytes of their argument in network order, the same bytes
    on either kind of host; RS_R_NTOH16/32 reads back from them the
    argument modulo 2^16, 2^32, which as a signed integer of that
    width is the argument.
    Stated for realloc_multiplier >= 2, a scratch buffer in order and
    no size_t overflow of the grown size. *)
Theorem rs_w_int_hton_round_trip (n : rs) (v : Z) (n' : rs) :
  2 <= realloc_multiplier (conf n) ->
  realloc_multiplier (conf n) * (wbuf_i n + 4) <= SIZE_MAX ->
  scratch_ok n ->
  (rs_w_int16_hton P n v = (RS_OK, n') ->
   scratch n' = scratch n ++ be_bytes 2 v) /\
  (rs_w_int32_hton P n v = (RS_OK, n') ->
   scratch n' = scratch n ++ be_bytes 4 v) /\
  to_signed 16 (RS_R_NTOH le 2 (be_bytes 2 v)) = to_signed 16 v /\
  to_signed 32 (RS_R_NTOH le 4 (be_bytes 4 v)) = to_signed 32 v.
Proof.
  intros Hm Hcap Hok.
  assert (Hi : 0 <= wbuf_i n) by apply Hok.
  assert (Hfix : forall (w : nat) (x : Z),
    store_uint le w (RS_HTON le w (x mod 2 ^ (8 * Z.of_nat w))
                     mod 2 ^ (8 * Z.of_nat w))
    = be_bytes w x).
  { intros w x. rewrite <- (RS_W_HTON_be le w x). unfold RS_W_HTON.
    f_equal. apply Z.mod_small.
    apply (RS_HTON_bounds le w).
    apply Z.mod_pos_bound. apply Z.pow_pos_nonneg; lia. }
  assert (Hread : forall (w : nat) (x : Z),
    RS_R_NTOH le w (be_bytes w x) = x mod 2 ^ (8 * Z.of_nat w)).
  { intros w x. unfold RS_R_NTOH.
    assert (Hlen : length (be_bytes w x) = w)
      by (unfold be_bytes; now rewrite length_rev, le_bytes_length).
    rewrite firstn_all2 by lia.
    rewrite <- pow256_pow2.
    unfold RS_NTOH, load_uint, be_value, be_bytes. destruct le.
    - apply bswap_bswap.
    - rewrite rev_involutive. apply le_value_le_bytes. }
  split; [|split; [|split]].
  - intro Hrun.
    unfold rs_w_int16_hton, rs_w_uint16_hton, rs_w_uint16 in Hrun.
    destruct (scratch_append_ok P n
                (store_uint le 2
                   (to_uint16
                      (RS_HTON le 2 (to_uint16 (to_signed 16 v))))) 2 n')
      as (H1 & _); auto; try lia.
    { now rewrite store_uint_length. }
    rewrite H1. f_equal. unfold to_uint16.
    rewrite (to_signed_mod 16 16 v) by lia. apply (Hfix 2%nat v).
  - intro Hrun.
    unfold rs_w_int32_hton, rs_w_uint32_hton, rs_w_uint32 in Hrun.
    destruct (scratch_append_ok P n
                (store_uint le 4
                   (to_uint32
                      (RS_HTON le 4 (to_uint32 (to_signed 32 v))))) 4 n')
      as (H1 & _); auto; try lia.
    { now rewrite store_uint_length. }
    rewrite H1. f_equal. unfold to_uint32.
    rewrite (to_signed_mod 32 32 v) by lia. apply (Hfix 4%nat v).
  - rewrite (Hread 2%nat v). apply (to_signed_of_mod 16). lia.
  - rewrite (Hread 4%nat v). apply (to_signed_of_mod 32). lia.
Qed.

(** X16. rs_w_int64 passes its argument to rs_w_uint64, whose parameter
    is 32 bits wide: the eight bytes appended are those of the argument
    modulo 2^32, zero-extended. Read back as a signed 64-bit integer
    they give a value between 0 and 2^32 - 1: a negative argument does
    not come back, and neither does one of 2^32 or more.
    rs_w_int64_hton does what rs_w_uint64_hton does with the same
    argument, through the same 32-bit parameter.
    Stated for realloc_multiplier >= 2, a scratch buffer in order and
    no size_t overflow of the grown size. *)
Theorem rs_w_int64_loses_sign (n : rs) (v : Z) (n' : rs) :
  2 <= realloc_multiplier (conf n) ->
  realloc_multiplier (conf n) * (wbuf_i n + 8) <= SIZE_MAX ->
  scratch_ok n ->
  rs_w_int64 P n v = (RS_OK, n') ->
  scratch n' = scratch n ++ store_uint le 8 (v mod 2 ^ 32) /\
  wbuf_i n' = wbuf_i n + 8 /\
  load_int le (store_uint le 8 (v mod 2 ^ 32)) = v mod 2 ^ 32 /\
  (v < 0 \/ 2 ^ 32 <= v ->
   load_int le (store_uint le 8 (v mod 2 ^ 32)) <> v) /\
  rs_w_int64_hton P n v = rs_w_uint64_hton P n v.
Proof.
  intros Hm Hcap Hok Hrun.
  assert (Hi : 0 <= wbuf_i n) by apply Hok.
  unfold rs_w_int64, rs_w_uint64 in Hrun.
  destruct (scratch_append_ok P n
              (store_uint le 8 (to_uint32 (to_signed 64 v))) 8 n')
    as (H1 & H2 & _); auto; try lia.
  { now rewrite store_uint_length. }
  unfold to_uint32 in H1. rewrite (to_signed_mod 64 32 v) in H1 by lia.
  assert (Hb : 0 <= v mod 2 ^ 32 < 2 ^ 32) by (apply Z.mod_pos_bound; lia).
  assert (Hload :
    load_int le (store_uint le 8 (v mod 2 ^ 32)) = v mod 2 ^ 32).
  { unfold load_int.
    rewrite store_uint_length, load_store_uint, pow256_8.
    rewrite (Z.mod_small (v mod 2 ^ 32)) by lia.
    apply to_signed_small; lia. }
  split; [exact H1|]. split; [exact H2|]. split; [exact Hload|].
  split; [rewrite Hload; lia|].
  unfold rs_w_int64_hton, rs_w_uint64_hton, to_uint64.
  now rewrite (to_signed_mod 64 64 v) by lia.
Qed.

End SignedProperties.

(** -2 as an int16 on a little-endian host: the bytes FE FF, which read
    back as -2. *)
Lemma rs_w_int_round_trip_witness :
  scratch (snd (rs_w_int16 (plain_platform true) (fresh_rs 1000 2 0 7)
                  (-2)))
  = [254; 255] /\
  load_int true [254; 255] = -2.
Proof.
  destruct (rs_w_int_round_trip (plain_platform true)
              (fresh_rs 1000 2 0 7) (-2)
              (snd (rs_w_int16 (plain_platform true)
                      (fresh_rs 1000 2 0 7) (-2))))
    as (_ & H16 & _ & _ & Hfit & _).
  - simpl. lia.
  - unfold SIZE_MAX. simpl. lia.
  - split; [simpl; lia|reflexivity].
  - destruct (H16 eq_refl) as [Hs Hl].
    split; [exact Hs|].
    etransitivity; [exact Hl|]. apply Hfit. lia.
Defined.

(** -2 as an int16 in network order: FF FE on either host. *)
Lemma rs_w_int_hton_round_trip_witness :
  scratch (snd (rs_w_int16_hton (plain_platform true)
                  (fresh_rs 1000 2 0 7) (-2)))
  = [255; 254].
Proof.
  destruct (rs_w_int_hton_round_trip (plain_platform true)
              (fresh_rs 1000 2 0 7) (-2)
              (snd (rs_w_int16_hton (plain_platform true)
                      (fresh_rs 1000 2 0 7) (-2))))
    as (H16 & _).
  - simpl. lia.
  - unfold SIZE_MAX. simpl. lia.
  - split; [simpl; lia|reflexivity].
  - exact (H16 eq_refl).
Defined.

(** -1 as an int64: FF FF FF FF 00 00 00 00 on a little-endian host,
    which reads back as 4294967295. *)
Lemma rs_w_int64_loses_sign_witness :
  scratch (snd (rs_w_int64 (plain_platform true) (fresh_rs 1000 2 0 7)
                  (-1)))
  = [255; 255; 255; 255; 0; 0; 0; 0] /\
  load_int true [255; 255; 255; 255; 0; 0; 0; 0] = 4294967295.
Proof.
  destruct (rs_w_int64_loses_sign (plain_platform true)
              (fresh_rs 1000 2 0 7) (-1)
              (snd (rs_w_int64 (plain_platform true)
                      (fresh_rs 1000 2 0 7) (-1))))
    as (Hs & _ & Hl & _ & _).
  - simpl. lia.
  - unfold SIZE_MAX. simpl. lia.
  - split; [simpl; lia|reflexivity].
  - reflexivity.
  - split; [exact Hs|exact Hl].
Defined.

(** ** The broadcast helpers *)

Section BroadcastProperties.

Variable P : platform.

Local Abbreviation store4 := (store_uint (little_endian P) 4).

(** [rs_send] leaves the origin of the callback and the size of the
    scratch allocation alone. *)
Lemma rs_send_src (n : rs) (worker_i : Z) (k : rs_outbound_kind)
    (recipients : list Z) (recipient_c : Z) (is_utf8 : bool)
    (p : list byte) (size : Z) :
  let n' :=
    snd (rs_send P n worker_i k recipients recipient_c is_utf8 p size) in
  src_worker_thread_i n' = src_worker_thread_i n /\
  src_peer_i n' = src_peer_i n /\ wbuf_size n' = wbuf_size n.
Proof.
  unfold rs_send, RS_GUARD_APP, RS_GUARD.
  destruct (max_ws_msg_size (conf n) <? to_size_t (wbuf_i n + size));
    [cbn; auto|].
  destruct (rs_prepare_ring_write P worker_i _ _) as [r ring'].
  destruct r; cbn; auto.
  destruct (rs_enqueue_ring_update P _ _ _) as [r q].
  destruct r; cbn; auto.
Qed.

Lemma for_each_worker_spec (body : rs -> Z -> rs) :
  body_frame body -> body_congr body ->
  forall (todo : nat) (i0 : Z) (n : rs),
    let n' := for_each_worker body todo i0 n in
    conf n' = conf n /\ wbuf n' = wbuf n /\ wbuf_i n' = wbuf_i n /\
    src_worker_thread_i n' = src_worker_thread_i n /\
    src_peer_i n' = src_peer_i n /\
    forall j,
      outbound_rings n' j
      = if (i0 <=? j) && (j <? i0 + Z.of_nat todo)
        then outbound_rings (body n j) j
        else outbound_rings n j.
Proof.
  intros Hframe Hcongr.
  induction todo as [|todo IH]; intros i0 n; cbn zeta.
  - cbn [for_each_worker]. repeat split; auto. intro j.
    replace ((i0 <=? j) && (j <? i0 + Z.of_nat 0)) with false; [reflexivity|].
    symmetry. apply andb_false_iff.
    destruct (Z.leb_spec i0 j); [right; apply Z.ltb_ge; lia | now left].
  - cbn [for_each_worker].
    destruct (Hframe n i0) as (Hc & Hb & Hi & Hw & Hp & Hr).
    destruct (IH (i0 + 1) (body n i0))
      as (Hc' & Hb' & Hi' & Hw' & Hp' & Hr').
    repeat split; try congruence. intro j. rewrite Hr'.
    destruct (Z.eq_dec j i0) as [->|Hne].
    + replace ((i0 + 1 <=? i0) && (i0 <? i0 + 1 + Z.of_nat todo))
        with false
        by (symmetry; apply andb_false_iff; left; apply Z.leb_gt; lia).
      replace ((i0 <=? i0) && (i0 <? i0 + Z.of_nat (S todo))) with true
        by (symmetry; apply andb_true_iff; split;
            [apply Z.leb_le | apply Z.ltb_lt]; lia).
      reflexivity.
    + replace ((i0 <=? j) && (j <? i0 + Z.of_nat (S todo)))
        with ((i0 + 1 <=? j) && (j <? i0 + 1 + Z.of_nat todo)).
      * destruct ((i0 + 1 <=? j) && (j <? i0 + 1 + Z.of_nat todo)).
        -- apply Hcongr; auto.
        -- now apply Hr.
      * destruct (Z.leb_spec (i0 + 1) j), (Z.leb_spec i0 j),
          (Z.ltb_spec j (i0 + 1 + Z.of_nat todo)),
          (Z.ltb_spec j (i0 + Z.of_nat (S todo))); cbn; try reflexivity; lia.
Qed.

(** The loop from 0 to [worker_c], ring by ring. *)
Lemma for_each_worker_rings (body : rs -> Z -> rs) (n : rs) (j : Z) :
  body_frame body -> body_congr body ->
  outbound_rings
    (for_each_worker body (Z.to_nat (worker_c (conf n))) 0 n) j
  = if (0 <=? j) && (j <? worker_c (conf n))
    then outbound_rings (body n j) j
    else outbound_rings n j.
Proof.
  intros Hframe Hcongr.
  destruct (for_each_worker_spec body Hframe Hcongr
              (Z.to_nat (worker_c (conf n))) 0 n)
    as (_ & _ & _ & _ & _ & Hr).
  rewrite Hr.
  destruct (Z.leb_spec 0 j); [|reflexivity]. cbn [andb].
  destruct (Z.ltb_spec j (0 + Z.of_nat (Z.to_nat (worker_c (conf n))))),
    (Z.ltb_spec j (worker_c (conf n))); try reflexivity; lia.
Qed.

Lemma in_range_true (j c : Z) :
  0 <= j < c -> (0 <=? j) && (j <? c) = true.
Proof.
  intro H. apply andb_true_iff. split; [apply Z.leb_le|apply Z.ltb_lt]; lia.
Qed.

Lemma in_range_false (j c : Z) :
  ~ 0 <= j < c -> (0 <=? j) && (j <? c) = false.
Proof.
  intro H. apply andb_false_iff.
  destruct (Z.leb_spec 0 j); [right; apply Z.ltb_ge; lia|now left].
Qed.

(** One [rs_send] to worker [i] as a loop body. *)
Lemma rs_send_frame6 (n : rs) (i : Z) (k : rs_outbound_kind)
    (recipients : list Z) (c : Z) (is_utf8 : bool) (p : list byte)
    (size : Z) :
  let n' := snd (rs_send P n i k recipients c is_utf8 p size) in
  conf n' = conf n /\ wbuf n' = wbuf n /\ wbuf_i n' = wbuf_i n /\
  src_worker_thread_i n' = src_worker_thread_i n /\
  src_peer_i n' = src_peer_i n /\
  forall j, j <> i -> outbound_rings n' j = outbound_rings n j.
Proof.
  cbn zeta.
  destruct (rs_send_frame P n i k recipients c is_utf8 p size)
    as (H1 & H2 & H3 & H4).
  destruct (rs_send_src n i k recipients c is_utf8 p size)
    as (H5 & H6 & _).
  repeat split; auto.
Qed.

Lemma for_each_worker_ext (body1 body2 : rs -> Z -> rs)
    (Inv : rs -> Prop) :
  (forall n i, Inv n -> body1 n i = body2 n i /\ Inv (body2 n i)) ->
  forall (todo : nat) (i0 : Z) (n : rs),
    Inv n ->
    for_each_worker body1 todo i0 n = for_each_worker body2 todo i0 n.
Proof.
  intros Hstep. induction todo as [|todo IH]; intros i0 n Hinv;
    [reflexivity|].
  cbn [for_each_worker]. destruct (Hstep n i0 Hinv) as [Heq Hinv'].
  rewrite Heq. now apply IH.
Qed.

Local Abbreviation frame_of n is_utf8 p size :=
  (ws_opcode is_utf8
   :: ws_length_stored (wbuf_i n + size)
   ++ scratch n ++ firstn (Z.to_nat size) p).

(** X17. rs_to_every gives every worker below worker_c one record of
    kind EVERY, without recipients: the ring of worker i is what
    rs_send(n, i, RS_OUTBOUND_EVERY, NULL, 0, ...) leaves on the state
    rs_to_every was entered with, so every worker receives the same
    scratch bytes and user bytes. The rings of other indices are left
    as they were and the scratch offset is reset. For a payload that
    passes the size check and a ring with room, the record is the kind
    byte 2 followed by the frame. *)
Theorem rs_to_every_per_worker (n : rs) (is_utf8 : bool) (p : list byte)
    (size : Z) (i : Z) :
  (0 <= i < worker_c (conf n) ->
   outbound_rings (rs_to_every P n is_utf8 p size) i
   = outbound_rings
       (snd (rs_send P n i RS_OUTBOUND_EVERY [] 0 is_utf8 p size)) i) /\
  (~ 0 <= i < worker_c (conf n) ->
   outbound_rings (rs_to_every P n is_utf8 p size) i
   = outbound_rings n i) /\
  wbuf_i (rs_to_every P n is_utf8 p size) = 0 /\
  wbuf (rs_to_every P n is_utf8 p size) = wbuf n /\
  (0 <= i < worker_c (conf n) ->
   0 <= wbuf_i n -> 0 <= size ->
   wbuf_i n + size <= max_ws_msg_size (conf n) ->
   wbuf_i n + size <= SIZE_MAX - 11 ->
   forall ring',
     rs_prepare_ring_write P i (outbound_rings n i)
       (ws_msg_size (wbuf_i n + size)) = (RS_OK, ring') ->
     outbound_rings (rs_to_every P n is_utf8 p size) i
     = ring' ++ [kind_code RS_OUTBOUND_EVERY] ++ frame_of n is_utf8 p size).
Proof.
  assert (Hframe : body_frame (fun n i =>
    snd (rs_send P n i RS_OUTBOUND_EVERY [] 0 is_utf8 p size)))
    by (intros n0 j; apply rs_send_frame6).
  assert (Hcongr : body_congr (fun n i =>
    snd (rs_send P n i RS_OUTBOUND_EVERY [] 0 is_utf8 p size)))
    by (intros n1 n2 j Hc Hb Hi _ _ Hr; now apply rs_send_ring_congr).
  assert (Hring : forall j,
    outbound_rings (rs_to_every P n is_utf8 p size) j
    = if (0 <=? j) && (j <? worker_c (conf n))
      then outbound_rings
             (snd (rs_send P n j RS_OUTBOUND_EVERY [] 0 is_utf8 p size)) j
      else outbound_rings n j).
  { intro j. unfold rs_to_every. cbn [outbound_rings set_wbuf_i].
    apply (for_each_worker_rings _ n j Hframe Hcongr). }
  split; [|split; [|split; [|split]]].
  - intro Hi. now rewrite Hring, in_range_true.
  - intro Hi. now rewrite Hring, in_range_false.
  - reflexivity.
  - unfold rs_to_every. cbn [wbuf set_wbuf_i].
    apply (for_each_worker_spec _ Hframe Hcongr).
  - intros Hi H0 Hs Hmax Hcap ring' Hprep.
    rewrite Hring, in_range_true by exact Hi.
    destruct (rs_send_accepted P n i RS_OUTBOUND_EVERY [] 0 is_utf8 p
                size ring') as (_ & Hrec & _); auto.
Qed.

(** X18. rs_to_every_except_single gives every worker below worker_c
    one record: the worker named by the first word of the client id
    receives kind EVERY_EXCEPT_SINGLE with the second word of the id as
    the one recipient, every other worker receives a plain EVERY
    record. When the first word names no worker below worker_c, all
    records are plain EVERY records. The scratch offset is reset. *)
Theorem rs_to_every_except_single_per_worker (n : rs) (is_utf8 : bool)
    (client_id : Z) (p : list byte) (size : Z) (i : Z) :
  let out := rs_to_every_except_single P n is_utf8 client_id p size in
  (0 <= i < worker_c (conf n) -> i = first_word P client_id ->
   outbound_rings out i
   = outbound_rings
       (snd (rs_send P n i RS_OUTBOUND_EVERY_EXCEPT_SINGLE
               [second_word P client_id] 1 is_utf8 p size)) i) /\
  (0 <= i < worker_c (conf n) -> i <> first_word P client_id ->
   outbound_rings out i
   = outbound_rings
       (snd (rs_send P n i RS_OUTBOUND_EVERY [] 0 is_utf8 p size)) i) /\
  (~ 0 <= i < worker_c (conf n) ->
   outbound_rings out i = outbound_rings n i) /\
  wbuf_i out = 0 /\
  (0 <= i < worker_c (conf n) ->
   0 <= wbuf_i n -> 0 <= size ->
   wbuf_i n + size <= max_ws_msg_size (conf n) ->
   wbuf_i n + size <= SIZE_MAX - 11 ->
   forall ring',
     rs_prepare_ring_write P i (outbound_rings n i)
       (ws_msg_size (wbuf_i n + size)) = (RS_OK, ring') ->
     outbound_rings out i
     = ring'
       ++ (if i =? first_word P client_id
           then kind_code RS_OUTBOUND_EVERY_EXCEPT_SINGLE
                :: store4 (second_word P client_id)
           else [kind_code RS_OUTBOUND_EVERY])
       ++ frame_of n is_utf8 p size).
Proof.
  intro out.
  set (body := fun (n : rs) (i : Z) =>
    if i =? first_word P client_id
    then snd (rs_send P n i RS_OUTBOUND_EVERY_EXCEPT_SINGLE
                [second_word P client_id] 1 is_utf8 p size)
    else snd (rs_send P n i RS_OUTBOUND_EVERY [] 0 is_utf8 p size)).
  assert (Hframe : body_frame body).
  { intros n0 j. unfold body.
    destruct (j =? first_word P client_id); apply rs_send_frame6. }
  assert (Hcongr : body_congr body).
  { intros n1 n2 j Hc Hb Hi _ _ Hr. unfold body.
    destruct (j =? first_word P client_id);
      now apply rs_send_ring_congr. }
  assert (Hout : out
    = set_wbuf_i 0
        (for_each_worker body (Z.to_nat (worker_c (conf n))) 0 n))
    by reflexivity.
  assert (Hring : forall j,
    outbound_rings out j
    = if (0 <=? j) && (j <? worker_c (conf n))
      then outbound_rings (body n j) j
      else outbound_rings n j).
  { intro j. rewrite Hout. cbn [outbound_rings set_wbuf_i].
    apply (for_each_worker_rings body n j Hframe Hcongr). }
  unfold body in Hring. clearbody out.
  split; [|split; [|split; [|split]]].
  - intros Hi He. rewrite Hring, in_range_true by exact Hi.
    apply Z.eqb_eq in He. now rewrite He.
  - intros Hi He. rewrite Hring, in_range_true by exact Hi.
    apply Z.eqb_neq in He. now rewrite He.
  - intro Hi. now rewrite Hring, in_range_false.
  - now rewrite Hout.
  - intros Hi H0 Hs Hmax Hcap ring' Hprep.
    rewrite Hring, in_range_true by exact Hi.
    destruct (i =? first_word P client_id).
    + destruct (rs_send_accepted P n i RS_OUTBOUND_EVERY_EXCEPT_SINGLE
                  [second_word P client_id] 1 is_utf8 p size ring')
        as (_ & Hrec & _); auto.
      rewrite Hrec. unfold routing_header. cbn [length Z.of_nat flat_map].
      cbn. now rewrite app_nil_r.
    + destruct (rs_send_accepted P n i RS_OUTBOUND_EVERY [] 0 is_utf8 p
                  size ring') as (_ & Hrec & _); auto.
Qed.


Lemma rs_to_every_except_multi_worker_dispatch (n : rs) (i : Z)
    (is_utf8 : bool) (client_ids : list Z) (client_c : Z) (p : list byte)
    (size : Z) :
  client_c < 2 ^ 32 ->
  let recipients :=
    recipients_of P i (firstn (Z.to_nat client_c) client_ids) in
  rs_to_every_except_multi_worker P is_utf8 client_ids client_c p size n i
  = snd (rs_send P n i
           (kind_for RS_OUTBOUND_EVERY RS_OUTBOUND_EVERY_EXCEPT_SINGLE
              RS_OUTBOUND_EVERY_EXCEPT_ARRAY recipients)
           recipients (Z.of_nat (length recipients)) is_utf8 p size).
Proof.
  intros Hcount recipients.
  unfold rs_to_every_except_multi_worker.
  rewrite cur_clients_of_partition. fold recipients.
  assert (Hlen : Z.of_nat (length recipients) < 2 ^ 32).
  { unfold recipients, recipients_of. rewrite length_map.
    pose proof (filter_length_le (fun c => first_word P c =? i)
                  (firstn (Z.to_nat client_c) client_ids)) as Hf.
    rewrite length_firstn in Hf. lia. }
  clearbody recipients.
  destruct recipients as [|r [|r2 rest]]; try reflexivity.
  replace (to_uint32 (Z.of_nat (length (r :: r2 :: rest))))
    with (Z.of_nat (length (r :: r2 :: rest)))
    by (unfold to_uint32; symmetry; apply Z.mod_small; lia).
  cbn [length Z.of_nat Pos.of_succ_nat kind_for].
  now destruct (Pos.of_succ_nat (length rest)).
Qed.

(** X19. rs_to_every_except_multi gives every worker below worker_c one
    record. The client ids are partitioned by their worker word as in
    rs_to_multi; a worker none of the ids belongs to receives a plain
    EVERY record, a worker with one id EVERY_EXCEPT_SINGLE with that
    peer, a worker with several EVERY_EXCEPT_ARRAY with their count and
    the peers in the order of the array. The rings of other indices are
    left as they were and the scratch offset is reset. *)
Theorem rs_to_every_except_multi_per_worker (n : rs) (is_utf8 : bool)
    (client_ids : list Z) (client_c : Z) (p : list byte) (size : Z)
    (i : Z) :
  client_c < 2 ^ 32 ->
  let recipients :=
    recipients_of P i (firstn (Z.to_nat client_c) client_ids) in
  let kind :=
    kind_for RS_OUTBOUND_EVERY RS_OUTBOUND_EVERY_EXCEPT_SINGLE
      RS_OUTBOUND_EVERY_EXCEPT_ARRAY recipients in
  let out :=
    rs_to_every_except_multi P n is_utf8 client_ids client_c p size in
  (0 <= i < worker_c (conf n) ->
   outbound_rings out i
   = outbound_rings
       (snd (rs_send P n i kind recipients (Z.of_nat (length recipients))
               is_utf8 p size)) i) /\
  (~ 0 <= i < worker_c (conf n) ->
   outbound_rings out i = outbound_rings n i) /\
  wbuf_i out = 0 /\
  (0 <= i < worker_c (conf n) ->
   0 <= wbuf_i n -> 0 <= size ->
   wbuf_i n + size <= max_ws_msg_size (conf n) ->
   wbuf_i n + size <= SIZE_MAX - 11 ->
   forall ring',
     rs_prepare_ring_write P i (outbound_rings n i)
       (ws_msg_size (wbuf_i n + size)) = (RS_OK, ring') ->
     outbound_rings out i
     = ring' ++ routing_header P kind recipients
       ++ frame_of n is_utf8 p size).
Proof.
  intros Hcount recipients kind out.
  set (body :=
    rs_to_every_except_multi_worker P is_utf8 client_ids client_c p size).
  assert (Hframe : body_frame body).
  { intros n0 j. unfold body.
    rewrite rs_to_every_except_multi_worker_dispatch by exact Hcount.
    apply rs_send_frame6. }
  assert (Hcongr : body_congr body).
  { intros n1 n2 j Hc Hb Hi _ _ Hr. unfold body.
    rewrite !rs_to_every_except_multi_worker_dispatch by exact Hcount.
    now apply rs_send_ring_congr. }
  assert (Hring : forall j,
    outbound_rings out j
    = if (0 <=? j) && (j <? worker_c (conf n))
      then outbound_rings (body n j) j
      else outbound_rings n j).
  { intro j. subst out. unfold rs_to_every_except_multi.
    cbn [outbound_rings set_wbuf_i].
    apply (for_each_worker_rings body n j Hframe Hcongr). }
  assert (Hi0 : wbuf_i out = 0) by reflexivity.
  clearbody out. unfold body in Hring.
  split; [|split; [|split]].
  - intro Hi. rewrite Hring, in_range_true by exact Hi.
    now rewrite rs_to_every_except_multi_worker_dispatch by exact Hcount.
  - intro Hi. now rewrite Hring, in_range_false.
  - exact Hi0.
  - intros Hi H0 Hs Hmax Hcap ring' Hprep.
    rewrite Hring, in_range_true by exact Hi.
    rewrite rs_to_every_except_multi_worker_dispatch by exact Hcount.
    destruct (rs_send_accepted P n i kind recipients
                (Z.of_nat (length recipients)) is_utf8 p size ring')
      as (_ & Hrec & _); auto.
Qed.

(** X20. rs_to_every_except_cur is rs_to_every_except_single applied
    to the id of the client of the current callback: both leave the
    same state. *)
Theorem rs_to_every_except_cur_is_except_own_id (n : rs) (is_utf8 : bool)
    (p : list byte) (size : Z) :
  0 <= src_worker_thread_i n < 2 ^ 32 ->
  0 <= src_peer_i n < 2 ^ 32 ->
  rs_to_every_except_cur P n is_utf8 p size
  = rs_to_every_except_single P n is_utf8 (rs_get_client_id P n) p size.
Proof.
  intros Hw Hp.
  destruct (client_id_words P n Hw Hp) as [H1 H2].
  unfold rs_to_every_except_cur, rs_to_every_except_single.
  cbn zeta.
  fold (first_word P (rs_get_client_id P n)).
  fold (second_word P (rs_get_client_id P n)).
  rewrite H1, H2. f_equal.
  apply (for_each_worker_ext _ _
           (fun n0 => src_worker_thread_i n0 = src_worker_thread_i n /\
                      src_peer_i n0 = src_peer_i n));
    [|split; reflexivity].
  intros n0 i [Hsw Hsp]. rewrite Hsw, Hsp. split; [reflexivity|].
  destruct (i =? src_worker_thread_i n);
    match goal with
    | |- context [rs_send P n0 i ?k ?r ?c is_utf8 p size] =>
        destruct (rs_send_src n0 i k r c is_utf8 p size) as (Ha & Hb & _)
    end; split; congruence.
Qed.

(** X21. rs_to_cur is rs_to_single applied to the id of the client of
    the current callback: both leave the same state. For a payload
    that passes the size check and a ring with room, the ring of the
    worker of the callback receives the kind byte 0, the peer index of
    the callback and the frame; the scratch offset is reset. *)
Theorem rs_to_cur_is_to_single_own_id (n : rs) (is_utf8 : bool)
    (p : list byte) (size : Z) :
  0 <= src_worker_thread_i n < 2 ^ 32 ->
  0 <= src_peer_i n < 2 ^ 32 ->
  rs_to_cur P n is_utf8 p size
  = rs_to_single P n is_utf8 (rs_get_client_id P n) p size /\
  wbuf_i (rs_to_cur P n is_utf8 p size) = 0 /\
  (0 <= wbuf_i n -> 0 <= size ->
   wbuf_i n + size <= max_ws_msg_size (conf n) ->
   wbuf_i n + size <= SIZE_MAX - 11 ->
   forall ring',
     rs_prepare_ring_write P (src_worker_thread_i n)
       (outbound_rings n (src_worker_thread_i n))
       (ws_msg_size (wbuf_i n + size)) = (RS_OK, ring') ->
     outbound_rings (rs_to_cur P n is_utf8 p size) (src_worker_thread_i n)
     = ring' ++ kind_code RS_OUTBOUND_SINGLE :: store4 (src_peer_i n)
       ++ frame_of n is_utf8 p size).
Proof.
  intros Hw Hp.
  destruct (client_id_words P n Hw Hp) as [H1 H2].
  split; [|split; [reflexivity|]].
  - unfold rs_to_cur, rs_to_single. cbn zeta.
    fold (first_word P (rs_get_client_id P n)).
    fold (second_word P (rs_get_client_id P n)).
    now rewrite H1, H2.
  - intros H0 Hs Hmax Hcap ring' Hprep.
    unfold rs_to_cur. cbn [outbound_rings set_wbuf_i].
    destruct (rs_send_accepted P n (src_worker_thread_i n)
                RS_OUTBOUND_SINGLE [src_peer_i n] 1 is_utf8 p size ring')
      as (_ & Hrec & _); auto.
    rewrite Hrec. unfold routing_header. cbn [length Z.of_nat flat_map].
    cbn. now rewrite app_nil_r.
Qed.

(** X22. rs_to_multi with a single client id whose worker word names a
    worker below worker_c leaves on every ring what rs_to_single leaves
    for that id. Client ids whose worker word names no worker below
    worker_c are skipped without a trace: when all of them are such,
    no ring changes. *)
Theorem rs_to_multi_single_and_unknown (n : rs) (is_utf8 : bool)
    (client_id : Z) (client_ids : list Z) (client_c : Z) (p : list byte)
    (size : Z) (j : Z) :
  (0 <= first_word P client_id < worker_c (conf n) ->
   outbound_rings (rs_to_multi P n is_utf8 [client_id] 1 p size) j
   = outbound_rings (rs_to_single P n is_utf8 client_id p size) j) /\
  (Forall (fun c => ~ 0 <= first_word P c < worker_c (conf n))
     (firstn (Z.to_nat client_c) client_ids) ->
   outbound_rings (rs_to_multi P n is_utf8 client_ids client_c p size) j
   = outbound_rings n j).
Proof.
  assert (Hring : forall ids c,
    outbound_rings (rs_to_multi P n is_utf8 ids c p size) j
    = if (0 <=? j) && (j <? worker_c (conf n))
      then outbound_rings (rs_to_multi_worker P n j is_utf8 ids c p size) j
      else outbound_rings n j).
  { intros ids c. unfold rs_to_multi. cbn [outbound_rings set_wbuf_i].
    destruct (rs_to_multi_loop_spec P (Z.to_nat (worker_c (conf n)))
                is_utf8 ids c p size 0 n) as (_ & _ & _ & Hr).
    rewrite Hr.
    destruct (Z.leb_spec 0 j); [|reflexivity]. cbn [andb].
    destruct (Z.ltb_spec j (0 + Z.of_nat (Z.to_nat (worker_c (conf n))))),
      (Z.ltb_spec j (worker_c (conf n))); try reflexivity; lia. }
  split.
  - intro Hin. rewrite Hring.
    unfold rs_to_single. cbn zeta. cbn [outbound_rings set_wbuf_i].
    fold (first_word P client_id). fold (second_word P client_id).
    rewrite (rs_to_multi_worker_dispatch P n j is_utf8 [client_id] 1 p
               size) by lia.
    change (firstn (Z.to_nat 1) [client_id]) with [client_id].
    unfold recipients_of. cbn [filter].
    destruct (Z.eq_dec j (first_word P client_id)) as [->|Hne].
    + rewrite in_range_true by exact Hin. rewrite Z.eqb_refl.
      reflexivity.
    + destruct (rs_send_frame P n (first_word P client_id)
                  RS_OUTBOUND_SINGLE [second_word P client_id] 1 is_utf8
                  p size) as (_ & _ & _ & Hother).
      rewrite (Hother j Hne).
      replace (first_word P client_id =? j) with false
        by (symmetry; apply Z.eqb_neq; congruence).
      cbn [map]. now destruct (_ && _).
  - intro Hall. rewrite Hring.
    destruct ((0 <=? j) && (j <? worker_c (conf n))) eqn:Hj;
      [|reflexivity].
    apply andb_true_iff in Hj. destruct Hj as [Hj1 Hj2].
    apply Z.leb_le in Hj1. apply Z.ltb_lt in Hj2.
    unfold rs_to_multi_worker. rewrite cur_clients_of_partition.
    unfold recipients_of.
    replace (filter (fun c => first_word P c =? j)
               (firstn (Z.to_nat client_c) client_ids)) with (@nil Z);
      [reflexivity|].
    symmetry. induction Hall as [|c rest Hc _ IH]; [reflexivity|].
    cbn [filter].
    replace (first_word P c =? j) with false; [exact IH|].
    symmetry. apply Z.eqb_neq. intro He. apply Hc. lia.
Qed.

Lemma for_each_worker_fixed (body : rs -> Z -> rs) (n : rs) :
  (forall i, body n i = n) ->
  forall (todo : nat) (i0 : Z), for_each_worker body todo i0 n = n.
Proof.
  intros Hfix. induction todo as [|todo IH]; intro i0; [reflexivity|].
  cbn [for_each_worker]. rewrite Hfix. apply IH.
Qed.

(** X26. An oversize payload and the helpers that send. When the
    scratch bytes and the user bytes together exceed max_ws_msg_size,
    every rs_send takes its FATAL return and none of rs_to_cur,
    rs_to_multi, rs_to_every, rs_to_every_except_single,
    rs_to_every_except_multi and rs_to_every_except_cur sees it: each
    of them goes through all its workers, stores nothing on any ring,
    queues nothing, and resets the scratch offset. What it leaves is
    the state it was entered with, the scratch offset at 0. *)
Theorem rs_to_helpers_drop_oversize (n : rs) (is_utf8 : bool)
    (client_id : Z) (client_ids : list Z) (client_c : Z) (p : list byte)
    (size : Z) :
  max_ws_msg_size (conf n) < to_size_t (wbuf_i n + size) ->
  rs_to_cur P n is_utf8 p size = set_wbuf_i 0 n /\
  rs_to_multi P n is_utf8 client_ids client_c p size = set_wbuf_i 0 n /\
  rs_to_every P n is_utf8 p size = set_wbuf_i 0 n /\
  rs_to_every_except_single P n is_utf8 client_id p size
  = set_wbuf_i 0 n /\
  rs_to_every_except_multi P n is_utf8 client_ids client_c p size
  = set_wbuf_i 0 n /\
  rs_to_every_except_cur P n is_utf8 p size = set_wbuf_i 0 n.
Proof.
  intro Hover.
  assert (Hsend : forall i k recipients c,
    snd (rs_send P n i k recipients c is_utf8 p size) = n).
  { intros i k recipients c.
    now rewrite (rs_send_oversize P n i k recipients c is_utf8 p size
                   Hover). }
  assert (Hmulti : forall todo i0,
    rs_to_multi_loop P todo i0 n is_utf8 client_ids client_c p size = n).
  { induction todo as [|todo IH]; intro i0; [reflexivity|].
    cbn [rs_to_multi_loop].
    replace (rs_to_multi_worker P n i0 is_utf8 client_ids client_c p size)
      with n; [apply IH|].
    unfold rs_to_multi_worker.
    destruct (Z.of_nat (length _)) as [|[]|]; now rewrite ?Hsend. }
  split; [|split; [|split; [|split; [|split]]]].
  - unfold rs_to_cur. now rewrite Hsend.
  - unfold rs_to_multi. now rewrite Hmulti.
  - unfold rs_to_every. now rewrite for_each_worker_fixed.
  - unfold rs_to_every_except_single. cbn zeta.
    rewrite for_each_worker_fixed; [reflexivity|].
    intro i. now destruct (i =? _).
  - unfold rs_to_every_except_multi.
    rewrite for_each_worker_fixed; [reflexivity|].
    intro i. unfold rs_to_every_except_multi_worker.
    destruct (Z.of_nat (length _)) as [|[]|]; now rewrite ?Hsend.
  - unfold rs_to_every_except_cur.
    rewrite for_each_worker_fixed; [reflexivity|].
    intro i. now destruct (i =? _).
Qed.

End BroadcastProperties.

(** "yo" to every client of two workers: worker 1 receives the kind
    byte 2, the opcode byte and the payload. *)
Lemma rs_to_every_per_worker_witness :
  outbound_rings
    (rs_to_every (plain_platform true) (fresh_rs 1000 2 0 7) true
       [121; 111] 2) 1
  = [2; 129; 121; 111].
Proof.
  destruct (rs_to_every_per_worker (plain_platform true)
              (fresh_rs 1000 2 0 7) true [121; 111] 2 1)
    as (_ & _ & _ & _ & Hbytes).
  apply (Hbytes ltac:(simpl; lia) ltac:(simpl; lia) ltac:(lia)
           ltac:(simpl; lia) ltac:(unfold SIZE_MAX; simpl; lia) []).
  reflexivity.
Defined.

(** "yo" to every client but peer 7 of worker 0, on a little-endian
    host: worker 0 receives kind 3 and the peer, worker 1 kind 2. *)
Lemma rs_to_every_except_single_per_worker_witness :
  outbound_rings
    (rs_to_every_except_single (plain_platform true) (fresh_rs 1000 2 0 7)
       true (7 * 2 ^ 32) [121; 111] 2) 0
  = [3; 7; 0; 0; 0; 129; 121; 111].
Proof.
  destruct (rs_to_every_except_single_per_worker (plain_platform true)
              (fresh_rs 1000 2 0 7) true (7 * 2 ^ 32) [121; 111] 2 0)
    as (_ & _ & _ & _ & Hbytes).
  apply (Hbytes ltac:(simpl; lia) ltac:(simpl; lia) ltac:(lia)
           ltac:(simpl; lia) ltac:(unfold SIZE_MAX; simpl; lia) []).
  reflexivity.
Defined.

(** "yo" to every client but peers 7 and 9 of worker 0: worker 0
    receives kind 4, the count 2 and the two peers. *)
Lemma rs_to_every_except_multi_per_worker_witness :
  outbound_rings
    (rs_to_every_except_multi (plain_platform true) (fresh_rs 1000 2 0 7)
       true [7 * 2 ^ 32; 9 * 2 ^ 32] 2 [121; 111] 2) 0
  = [4; 2; 0; 0; 0; 7; 0; 0; 0; 9; 0; 0; 0; 129; 121; 111].
Proof.
  destruct (rs_to_every_except_multi_per_worker (plain_platform true)
              (fresh_rs 1000 2 0 7) true [7 * 2 ^ 32; 9 * 2 ^ 32] 2
              [121; 111] 2 0 ltac:(lia))
    as (_ & _ & _ & Hbytes).
  apply (Hbytes ltac:(simpl; lia) ltac:(simpl; lia) ltac:(lia)
           ltac:(simpl; lia) ltac:(unfold SIZE_MAX; simpl; lia) []).
  reflexivity.
Defined.

Lemma rs_to_every_except_cur_is_except_own_id_witness :
  rs_to_every_except_cur (plain_platform true) (fresh_rs 1000 2 0 7) true
    [121; 111] 2
  = rs_to_every_except_single (plain_platform true) (fresh_rs 1000 2 0 7)
      true
      (rs_get_client_id (plain_platform true) (fresh_rs 1000 2 0 7))
      [121; 111] 2.
Proof.
  apply (rs_to_every_except_cur_is_except_own_id (plain_platform true)
           (fresh_rs 1000 2 0 7) true [121; 111] 2); simpl; lia.
Defined.

Lemma rs_to_cur_is_to_single_own_id_witness :
  rs_to_cur (plain_platform true) (fresh_rs 1000 2 0 7) true [121; 111] 2
  = rs_to_single (plain_platform true) (fresh_rs 1000 2 0 7) true
      (rs_get_client_id (plain_platform true) (fresh_rs 1000 2 0 7))
      [121; 111] 2.
Proof.
  apply (rs_to_cur_is_to_single_own_id (plain_platform true)
           (fresh_rs 1000 2 0 7) true [121; 111] 2); simpl; lia.
Defined.

(** One id of worker 1 among two workers, and one of worker 5, which
    does not exist. *)
Lemma rs_to_multi_single_and_unknown_witness :
  outbound_rings
    (rs_to_multi (plain_platform true) (fresh_rs 1000 2 0 7) true
       [1 + 7 * 2 ^ 32] 1 [121; 111] 2) 1
  = outbound_rings
      (rs_to_single (plain_platform true) (fresh_rs 1000 2 0 7) true
         (1 + 7 * 2 ^ 32) [121; 111] 2) 1 /\
  outbound_rings
    (rs_to_multi (plain_platform true) (fresh_rs 1000 2 0 7) true
       [5 + 7 * 2 ^ 32] 1 [121; 111] 2) 1
  = [].
Proof.
  destruct (rs_to_multi_single_and_unknown (plain_platform true)
              (fresh_rs 1000 2 0 7) true (1 + 7 * 2 ^ 32)
              [5 + 7 * 2 ^ 32] 1 [121; 111] 2 1)
    as (Hsame & Hskip).
  split.
  - apply Hsame. vm_compute. split; [discriminate|reflexivity].
  - apply Hskip. constructor; [|constructor].
    vm_compute. intros [_ H]. discriminate H.
Defined.

(** Ten bytes in the scratch buffer and seven more, with
    max_ws_msg_size = 16: nothing reaches the ring of worker 0. *)
Lemma rs_to_helpers_drop_oversize_witness :
  outbound_rings
    (rs_to_every (plain_platform true) ten_in_scratch false
       [1; 2; 3; 4; 5; 6; 7] 7) 0 = [] /\
  wbuf_i (rs_to_every_except_cur (plain_platform true) ten_in_scratch
            false [1; 2; 3; 4; 5; 6; 7] 7) = 0.
Proof.
  destruct (rs_to_helpers_drop_oversize (plain_platform true)
              ten_in_scratch false 0 [] 0 [1; 2; 3; 4; 5; 6; 7] 7)
    as (_ & _ & Hevery & _ & _ & Hcur).
  - vm_compute. reflexivity.
  - rewrite Hevery, Hcur. split; reflexivity.
Defined.

(** ** [rs_send], further properties *)

Section SendMore.

Variable P : platform.

Local Abbreviation store4 := (store_uint (little_endian P) 4).

Lemma flat_map_store4_length (recipients : list Z) :
  Z.of_nat (length (flat_map store4 recipients))
  = 4 * Z.of_nat (length recipients).
Proof.
  induction recipients as [|r rest IH]; [reflexivity|].
  cbn [flat_map]. rewrite length_app, store_uint_length.
  cbn [length]. lia.
Qed.

Lemma routing_header_length (k : rs_outbound_kind) (recipients : list Z) :
  Z.of_nat (length (routing_header P k recipients))
  = 1 + (if 1 <? Z.of_nat (length recipients) then 4 else 0)
    + 4 * Z.of_nat (length recipients).
Proof.
  unfold routing_header.
  rewrite !length_app, !Nat2Z.inj_add, flat_map_store4_length.
  destruct (1 <? Z.of_nat (length recipients));
    rewrite ?store_uint_length; cbn [length]; lia.
Qed.

Lemma scratch_length (n : rs) :
  scratch_ok n -> Z.of_nat (length (scratch n)) = wbuf_i n.
Proof.
  intros [Hi Hw]. unfold scratch.
  destruct (wbuf n) as [b|]; [|now rewrite Hw].
  rewrite length_firstn. lia.
Qed.

(** X23. The bytes rs_send stores against the size it reserves. For an
    accepted send with room in the ring, rs_send stores the routing
    header, the WebSocket header and the payload, where it asked
    rs_prepare_ring_write for the payload, a WebSocket header of 2, 4
    or 10 bytes and one byte more. The recipients are not in that sum:
    whenever there is at least one recipient, more bytes are stored
    than were reserved. Without recipients the bytes stored fit the
    reservation except for payloads of 123 to 125 and of 65531 to
    65535 bytes. *)
Theorem rs_send_stored_and_reserved (n : rs) (worker_i : Z)
    (k : rs_outbound_kind) (recipients : list Z) (is_utf8 : bool)
    (p : list byte) (size : Z) (ring' : rs_ring) :
  scratch_ok n ->
  0 <= size <= Z.of_nat (length p) ->
  wbuf_i n + size <= max_ws_msg_size (conf n) ->
  wbuf_i n + size <= SIZE_MAX - 11 ->
  rs_prepare_ring_write P worker_i (outbound_rings n worker_i)
    (ws_msg_size (wbuf_i n + size)) = (RS_OK, ring') ->
  let payload := wbuf_i n + size in
  let reserved := ws_msg_size payload in
  let stored :=
    Z.of_nat
      (length
         (outbound_rings
            (snd (rs_send P n worker_i k recipients
                    (Z.of_nat (length recipients)) is_utf8 p size))
            worker_i))
    - Z.of_nat (length ring') in
  stored
  = 1 + (if 1 <? Z.of_nat (length recipients) then 4 else 0)
    + 4 * Z.of_nat (length recipients)
    + (if payload <=? 122 then 1 else if payload <=? 65530 then 4 else 10)
    + payload /\
  (recipients <> [] -> reserved < stored) /\
  (recipients = [] ->
   (stored <= reserved <->
    ~ (123 <= payload <= 125 \/ 65531 <= payload <= 65535))).
Proof.
  intros Hok Hsize Hmax Hcap Hprep payload reserved stored.
  assert (Hi : 0 <= wbuf_i n) by apply Hok.
  destruct (rs_send_accepted P n worker_i k recipients
              (Z.of_nat (length recipients)) is_utf8 p size ring')
    as (_ & Hring & _); auto; try lia.
  assert (Hstored : stored
    = 1 + (if 1 <? Z.of_nat (length recipients) then 4 else 0)
      + 4 * Z.of_nat (length recipients)
      + (if payload <=? 122 then 1 else if payload <=? 65530 then 4 else 10)
      + payload).
  { subst stored. rewrite Hring.
    rewrite !length_app, !Nat2Z.inj_add.
    change (ws_opcode is_utf8 :: ws_length_stored (wbuf_i n + size)
            ++ scratch n ++ firstn (Z.to_nat size) p)
      with ((ws_opcode is_utf8 :: ws_length_stored (wbuf_i n + size))
            ++ scratch n ++ firstn (Z.to_nat size) p).
    rewrite !length_app, !Nat2Z.inj_add.
    rewrite routing_header_length, ws_header_length_stored,
      scratch_length, length_firstn by exact Hok.
    fold payload.
    destruct (payload <=? 122); [|destruct (payload <=? 65530)]; lia. }
  clearbody stored. subst reserved. unfold ws_msg_size, UINT16_MAX.
  split; [exact Hstored|]. rewrite Hstored. split.
  - intro Hne.
    assert (1 <= Z.of_nat (length recipients))
      by (destruct recipients; [congruence|cbn [length]; lia]).
    destruct (1 <? Z.of_nat (length recipients)), (payload <=? 122) eqn:H1,
      (payload <=? 65530) eqn:H2, (65535 <? payload) eqn:H3,
      (125 <? payload) eqn:H4;
      rewrite ?Z.leb_le, ?Z.leb_gt, ?Z.ltb_lt, ?Z.ltb_ge in *; lia.
  - intro He. subst recipients. cbn [length Z.of_nat].
    change (1 <? 0) with false. cbv iota.
    destruct (payload <=? 122) eqn:H1,
      (payload <=? 65530) eqn:H2, (65535 <? payload) eqn:H3,
      (125 <? payload) eqn:H4;
      rewrite ?Z.leb_le, ?Z.leb_gt, ?Z.ltb_lt, ?Z.ltb_ge in *; lia.
Qed.

(** X24. rs_send stops at the first call that fails. When
    rs_prepare_ring_write does not return OK, rs_send returns that
    result at once: it stores no byte of its own on the ring and the
    update queue is not touched. When it returns OK, the record is
    stored, the queue update is attempted, and the result of rs_send is
    the result of rs_enqueue_ring_update, with the record on the ring
    also when that result is not OK. *)
Theorem rs_send_stops_at_first_failure (n : rs) (worker_i : Z)
    (k : rs_outbound_kind) (recipients : list Z) (is_utf8 : bool)
    (p : list byte) (size : Z) (r : rs_ret) (ring' : rs_ring) :
  0 <= wbuf_i n -> 0 <= size ->
  wbuf_i n + size <= max_ws_msg_size (conf n) ->
  wbuf_i n + size <= SIZE_MAX - 11 ->
  rs_prepare_ring_write P worker_i (outbound_rings n worker_i)
    (ws_msg_size (wbuf_i n + size)) = (r, ring') ->
  let out :=
    rs_send P n worker_i k recipients (Z.of_nat (length recipients))
      is_utf8 p size in
  let record :=
    ring' ++ routing_header P k recipients
    ++ ws_opcode is_utf8
       :: ws_length_stored (wbuf_i n + size)
       ++ scratch n ++ firstn (Z.to_nat size) p in
  (r <> RS_OK -> out = (r, set_ring worker_i ring' n)) /\
  (r = RS_OK ->
   fst out
   = fst (rs_enqueue_ring_update P (ring_update_queue n)
            (Z.of_nat (length record)) worker_i) /\
   ring_update_queue (snd out)
   = snd (rs_enqueue_ring_update P (ring_update_queue n)
            (Z.of_nat (length record)) worker_i) /\
   outbound_rings (snd out) worker_i = record).
Proof.
  intros Hi Hsize Hmax Hcap Hprep out record.
  assert (Hpay : to_size_t (wbuf_i n + size) = wbuf_i n + size)
    by (apply to_size_t_small; unfold SIZE_MAX in *; lia).
  subst out. unfold rs_send. rewrite Hpay.
  replace (max_ws_msg_size (conf n) <? wbuf_i n + size) with false
    by (symmetry; apply Z.ltb_ge; lia).
  rewrite msg_size_no_wrap by lia. rewrite Hprep.
  unfold RS_GUARD_APP, RS_GUARD. split.
  - intro Hr. destruct r; try reflexivity. congruence.
  - intro Hr. subst r.
    cbn [outbound_rings set_ring ring_update_queue].
    rewrite Z.eqb_refl.
    assert (Hw :
      rs_send_write P (set_ring worker_i ring' n) ring' k recipients
        (Z.of_nat (length recipients)) is_utf8 p size (wbuf_i n + size)
        (ws_msg_size (wbuf_i n + size)) = record).
    { rewrite rs_send_write_eq, length_bytes_stored by lia.
      unfold record, routing_header. rewrite Nat2Z.id, firstn_all.
      change (scratch (set_ring worker_i ring' n)) with (scratch n).
      destruct (Z.of_nat (length recipients) =? 0) eqn:H0.
      - apply Z.eqb_eq in H0. destruct recipients; [|discriminate].
        cbn. reflexivity.
      - rewrite <- !app_assoc. reflexivity. }
    rewrite Hw.
    destruct (rs_enqueue_ring_update P (ring_update_queue n)
                (Z.of_nat (length record)) worker_i) as [r2 q].
    destruct r2; cbn; rewrite Z.eqb_refl; repeat split.
Qed.

End SendMore.

(** ** [rs_get_time_in_milliseconds] *)

(** X25. rs_get_time_in_milliseconds. When clock_gettime() fails the
    result is FATAL, one critical line is passed to RS_LOG (logged when
    LOG_CRIT is not above the run-time log level _rs_log_max) and the
    caller's time_ms is left as it was. When it succeeds with a
    normalised time (0 <= tv_sec, 0 <= tv_nsec < 10^9) whose
    milliseconds fit a long (1000 * tv_sec + 999 <= LONG_MAX, so that
    the sum does not overflow), the value stored is 1000 * tv_sec plus
    the whole milliseconds of tv_nsec: dividing it by 1000 gives tv_sec
    back, and a later time of the clock never gives a smaller value. *)
Theorem rs_get_time_in_milliseconds_spec (a b : clock_answer) (w : world)
    (time_ms : Z) :
  (clock_ret a = -1 ->
   fst (rs_get_time_in_milliseconds a w time_ms) = RS_FATAL /\
   fst (snd (rs_get_time_in_milliseconds a w time_ms)) = time_ms /\
   logs (snd (snd (rs_get_time_in_milliseconds a w time_ms)))
   = logs w ++ logged w LOG_CRIT 1) /\
  (clock_ret a <> -1 ->
   0 <= tv_sec a -> 0 <= tv_nsec a < 10 ^ 9 ->
   1000 * tv_sec a + 999 <= LONG_MAX ->
   fst (rs_get_time_in_milliseconds a w time_ms) = RS_OK /\
   snd (snd (rs_get_time_in_milliseconds a w time_ms)) = w /\
   fst (snd (rs_get_time_in_milliseconds a w time_ms))
   = 1000 * tv_sec a + tv_nsec a / 10 ^ 6 /\
   fst (snd (rs_get_time_in_milliseconds a w time_ms)) / 1000
   = tv_sec a) /\
  (clock_ret a <> -1 -> clock_ret b <> -1 ->
   0 <= tv_sec a -> 0 <= tv_nsec a < 10 ^ 9 ->
   0 <= tv_nsec b < 10 ^ 9 ->
   1000 * tv_sec b + 999 <= LONG_MAX ->
   tv_sec a < tv_sec b \/ tv_sec a = tv_sec b /\ tv_nsec a <= tv_nsec b ->
   fst (snd (rs_get_time_in_milliseconds a w time_ms))
   <= fst (snd (rs_get_time_in_milliseconds b w time_ms))).
Proof.
  assert (Hval : forall c : clock_answer,
    clock_ret c <> -1 -> 0 <= tv_sec c -> 0 <= tv_nsec c < 10 ^ 9 ->
    1000 * tv_sec c + 999 <= LONG_MAX ->
    rs_get_time_in_milliseconds c w time_ms
    = (RS_OK, (1000 * tv_sec c + tv_nsec c / 10 ^ 6, w)) /\
    0 <= tv_nsec c / 10 ^ 6 <= 999).
  { intros c Hc Hs Hn Hcap. unfold LONG_MAX in Hcap.
    unfold rs_get_time_in_milliseconds.
    apply Z.eqb_neq in Hc. rewrite Hc.
    rewrite Z.quot_div_nonneg by lia.
    change 1000000 with (10 ^ 6).
    assert (Hq : 0 <= tv_nsec c / 10 ^ 6 <= 999).
    { split; [apply Z.div_pos; lia|].
      apply Z.lt_succ_r. apply Z.div_lt_upper_bound; lia. }
    split; [|exact Hq].
    unfold to_uint64. rewrite Z.mod_small by lia. reflexivity. }
  split; [|split].
  - intro Hf. unfold rs_get_time_in_milliseconds.
    apply Z.eqb_eq in Hf. rewrite Hf. cbn [fst snd].
    rewrite RS_LOG_logs. auto.
  - intros Hc Hs Hn Hcap.
    destruct (Hval a Hc Hs Hn Hcap) as [Heq Hq]. rewrite Heq.
    cbn [fst snd]. repeat split.
    replace (1000 * tv_sec a + tv_nsec a / 10 ^ 6)
      with (tv_nsec a / 10 ^ 6 + tv_sec a * 1000) by ring.
    rewrite Z.div_add by lia. rewrite Z.div_small by lia. lia.
  - intros Ha Hb Hs Hna Hnb Hcap Hlater.
    assert (Hsb : 0 <= tv_sec b) by lia.
    assert (Hcapa : 1000 * tv_sec a + 999 <= LONG_MAX) by lia.
    destruct (Hval a Ha Hs Hna Hcapa) as [Heqa Hqa].
    destruct (Hval b Hb Hsb Hnb Hcap) as [Heqb Hqb].
    rewrite Heqa, Heqb. cbn [fst snd].
    destruct Hlater as [Hlt | [He Hle]]; [lia|].
    rewrite He.
    assert (tv_nsec a / 10 ^ 6 <= tv_nsec b / 10 ^ 6)
      by (apply Z.div_le_mono; lia).
    lia.
Qed.

(** "yo" to one peer: 5 bytes are reserved and 8 are stored. *)
Lemma rs_send_stored_and_reserved_witness :
  ws_msg_size 2 = 5 /\
  Z.of_nat
    (length
       (outbound_rings
          (snd (rs_send (plain_platform true) (fresh_rs 1000 2 0 7) 0
                  RS_OUTBOUND_SINGLE [7] (Z.of_nat (length [7])) true
                  [121; 111] 2)) 0))
  - Z.of_nat (length (@nil byte)) = 8.
Proof.
  split; [reflexivity|].
  destruct (rs_send_stored_and_reserved (plain_platform true)
              (fresh_rs 1000 2 0 7) 0 RS_OUTBOUND_SINGLE [7] true
              [121; 111] 2 [])
    as (Hstored & _).
  - split; [simpl; lia|reflexivity].
  - simpl. lia.
  - simpl. lia.
  - unfold SIZE_MAX. simpl. lia.
  - reflexivity.
  - rewrite Hstored. reflexivity.
Defined.

(** A ring without room: FATAL, and nothing is stored or queued. *)
Lemma rs_send_stops_at_first_failure_witness :
  fst (rs_send (full_ring_platform true) (fresh_rs 1000 2 0 7) 0
         RS_OUTBOUND_SINGLE [7] (Z.of_nat (length [7])) true [121; 111] 2)
  = RS_FATAL /\
  ring_update_queue
    (snd (rs_send (full_ring_platform true) (fresh_rs 1000 2 0 7) 0
            RS_OUTBOUND_SINGLE [7] (Z.of_nat (length [7])) true
            [121; 111] 2))
  = [].
Proof.
  destruct (rs_send_stops_at_first_failure (full_ring_platform true)
              (fresh_rs 1000 2 0 7) 0 RS_OUTBOUND_SINGLE [7] true
              [121; 111] 2 RS_FATAL [])
    as (Hfail & _).
  - simpl. lia.
  - lia.
  - simpl. lia.
  - unfold SIZE_MAX. simpl. lia.
  - reflexivity.
  - rewrite Hfail by discriminate. split; reflexivity.
Defined.

Lemma rs_get_time_in_milliseconds_spec_witness :
  fst (snd (rs_get_time_in_milliseconds clock_early quiet_world 0)) = 1234 /\
  fst (snd (rs_get_time_in_milliseconds clock_early quiet_world 0))
  <= fst (snd (rs_get_time_in_milliseconds clock_late quiet_world 0)) /\
  fst (snd (rs_get_time_in_milliseconds clock_fails quiet_world 77)) = 77 /\
  logs (snd (snd (rs_get_time_in_milliseconds clock_fails quiet_world 77)))
  = [LOG_CRIT].
Proof.
  destruct (rs_get_time_in_milliseconds_spec clock_early clock_late
              quiet_world 0) as (_ & Hok & Hmono).
  destruct (rs_get_time_in_milliseconds_spec clock_fails clock_late
              quiet_world 77) as (Hfail & _ & _).
  split; [|split; [|split]].
  - destruct Hok as (_ & _ & Hv & _);
      try (unfold LONG_MAX; simpl; lia).
    rewrite Hv. reflexivity.
  - apply Hmono; unfold LONG_MAX; simpl; lia.
  - exact (proj1 (proj2 (Hfail eq_refl))).
  - exact (proj2 (proj2 (Hfail eq_refl))).
Defined.
